(** * aedes-persistence-mysql: the persistence contract of [index.js]

    A shallow embedding of [index.js] (the MySQL persistence of the Aedes
    broker) together with a model of the part of the backing store that the
    statements issued by [index.js] rely on: five relations with their
    uniqueness constraints and [AUTO_INCREMENT] keys, the [REGEXP] predicate,
    and the event scheduler.

    Conventions.
    - Strings are [string]; payloads are lists of bytes.
    - An absent JavaScript property ([undefined]) and SQL [NULL] are [None].
    - Asynchronous completion is modelled sequentially: an operation runs to
      completion before the next one starts, and its callback or stream is
      the returned [result].  The schema provisioning started by the
      constructor settles in one step, which may come before or after any
      call, [destroy] included.
    - What the server answers to the statements of provisioning and what
      the driver answers to [pool.end()] is given with the store; a
      statement the server cannot prepare is rejected whatever is bound to
      it.
    - Characters are compared exactly (a binary collation), for [=] as well
      as for [REGEXP]. *)

From Stdlib Require Import List String Ascii Bool ZArith Lia Arith.
From Stdlib Require Import Sorting.Sorted.
Import ListNotations.

Local Open Scope string_scope.
Local Open Scope Z_scope.

(* ================================================================== *)
(** ** JavaScript values used by [index.js] *)

(** [x || d] on an optional string: [undefined] and [''] are falsy. *)
Definition or_string (x : option string) (d : string) : string :=
  match x with
  | Some s => if String.eqb s EmptyString then d else s
  | None => d
  end.

(** [x || d] on an optional number: [undefined] and [0] are falsy. *)
Definition or_number (x : option Z) (d : Z) : Z :=
  match x with
  | Some n => if n =? 0 then d else n
  | None => d
  end.

(** [x || null] on an optional number. *)
Definition or_null (x : option Z) : option Z :=
  match x with
  | Some n => if n =? 0 then None else Some n
  | None => None
  end.

(** [x || false] on an optional boolean. *)
Definition or_false (x : option bool) : bool :=
  match x with
  | Some b => b
  | None => false
  end.

(** [xs.join(sep)] *)
Fixpoint join (sep : string) (xs : list string) : string :=
  match xs with
  | [] => EmptyString
  | [x] => x
  | x :: rest => x ++ sep ++ join sep rest
  end.

(** [s.replace(/c/g, by)]: every occurrence of the character [c], left to
    right, in one pass (the replacement text is not scanned again). *)
Fixpoint replace_all (c : ascii) (by_ : string) (s : string) : string :=
  match s with
  | EmptyString => EmptyString
  | String x rest =>
      if Ascii.eqb x c then by_ ++ replace_all c by_ rest
      else String x (replace_all c by_ rest)
  end.

(* ================================================================== *)
(** ** The topic matcher of [index.js]

    [subscriptionsByTopic] (lines 294-296) and [createRetainedStreamCombi]
    (lines 191-193) build the same pattern:
    ['^' + pattern.replace(/\+/g, '[^/]+').replace(/#/g, '.*') + '$']. *)

Definition sqlPattern (pattern : string) : string :=
  "^" ++ replace_all "#" ".*" (replace_all "+" "[^/]+" pattern) ++ "$".

(* ================================================================== *)
(** ** The backing store's [REGEXP] predicate

    Modelled from the MySQL manual (regular expressions, [expr REGEXP pat]):
    the predicate is true when the pattern matches anywhere in the
    subject; [^] and [$] anchor to its two ends.  The fragment covered is
    the one the 5.7 and 8.0 engines read alike: ordinary characters, [.],
    bracket lists with ranges and negation, the postfix operators
    [*], [+] and [?] on a single-character atom, a backslash before a
    punctuation character, and top-level alternation.  Groups, intervals,
    stacked postfix operators, character classes and back references are
    outside the fragment: [parse] answers [None] on them, as it does on a
    malformed pattern. *)

Module Regexp.

Inductive atom : Type :=
| ALit (c : ascii)                       (* an ordinary or escaped character *)
| AAny                                   (* [.] *)
| ASet (neg : bool) (items : list ascii) (* [[...]] or [[^...]], raw items *).

Inductive quant : Type := QOne | QStar | QPlus | QOpt.

Inductive piece : Type :=
| PBol                                   (* [^] *)
| PEol                                   (* [$] *)
| PAtom (a : atom) (q : quant).

Definition branch := list piece.
Definition regex := list branch.

(** Membership in the raw items of a bracket list: [x-y] is a range. *)
Fixpoint in_items (items : list ascii) (c : ascii) : bool :=
  match items with
  | [] => false
  | lo :: rest =>
      match rest with
      | "-"%char :: hi :: rest' =>
          ((nat_of_ascii lo <=? nat_of_ascii c)%nat
             && (nat_of_ascii c <=? nat_of_ascii hi)%nat)
          || in_items rest' c
      | _ => Ascii.eqb lo c || in_items rest c
      end
  end.

Definition atom_ok (a : atom) (c : ascii) : bool :=
  match a with
  | ALit x => Ascii.eqb x c
  | AAny => true
  | ASet neg items => xorb neg (in_items items c)
  end.

(** Characters with a meaning of their own in a pattern. *)
Definition special (c : ascii) : bool :=
  existsb (Ascii.eqb c)
    ["\"; "^"; "$"; "."; "|"; "?"; "*"; "+"; "("; ")"; "["; "]"; "{"; "}"]%char.

(** Characters that a backslash may precede in the fragment. *)
Definition punct (c : ascii) : bool :=
  let n := nat_of_ascii c in
  ((33 <=? n) && (n <=? 47) || (58 <=? n) && (n <=? 64)
   || (91 <=? n) && (n <=? 96) || (123 <=? n) && (n <=? 126))%nat.

(** Parser state while reading a bracket list. *)
Inductive mode : Type :=
| MTop
| MOpen                                  (* just after [[] *)
| MItems (neg : bool) (items : list ascii) (* reversed items so far *).

Definition requantify (q : quant) (cur : list piece) : option (list piece) :=
  match cur with
  | PAtom a QOne :: cur' => Some (PAtom a q :: cur')
  | _ => None
  end.

(** [done_] and [cur] are reversed: the branches finished so far and the
    pieces of the branch being read. *)
Fixpoint parse_from (m : mode) (done_ : list branch) (cur : list piece)
         (s : list ascii) : option regex :=
  match m with
  | MTop =>
      match s with
      | [] => Some (rev (rev cur :: done_))
      | c :: s' =>
          if Ascii.eqb c "\" then
            match s' with
            | e :: s'' =>
                if punct e
                then parse_from MTop done_ (PAtom (ALit e) QOne :: cur) s''
                else None
            | [] => None
            end
          else if Ascii.eqb c "^" then parse_from MTop done_ (PBol :: cur) s'
          else if Ascii.eqb c "$" then parse_from MTop done_ (PEol :: cur) s'
          else if Ascii.eqb c "." then
            parse_from MTop done_ (PAtom AAny QOne :: cur) s'
          else if Ascii.eqb c "|" then parse_from MTop (rev cur :: done_) [] s'
          else if Ascii.eqb c "*" then
            match requantify QStar cur with
            | Some cur' => parse_from MTop done_ cur' s'
            | None => None
            end
          else if Ascii.eqb c "+" then
            match requantify QPlus cur with
            | Some cur' => parse_from MTop done_ cur' s'
            | None => None
            end
          else if Ascii.eqb c "?" then
            match requantify QOpt cur with
            | Some cur' => parse_from MTop done_ cur' s'
            | None => None
            end
          else if Ascii.eqb c "[" then parse_from MOpen done_ cur s'
          else if special c then None
          else parse_from MTop done_ (PAtom (ALit c) QOne :: cur) s'
      end
  | MOpen =>
      match s with
      | [] => None
      | c :: s' =>
          if Ascii.eqb c "^" then parse_from (MItems true []) done_ cur s'
          else if Ascii.eqb c "]" || Ascii.eqb c "[" || Ascii.eqb c "\"
          then None
          else parse_from (MItems false [c]) done_ cur s'
      end
  | MItems neg items =>
      match s with
      | [] => None
      | c :: s' =>
          if Ascii.eqb c "]" then
            match items with
            | [] => None
            | _ =>
                parse_from MTop done_
                  (PAtom (ASet neg (rev items)) QOne :: cur) s'
            end
          else if Ascii.eqb c "[" || Ascii.eqb c "\" then None
          else parse_from (MItems neg (c :: items)) done_ cur s'
      end
  end.

Definition parse (pat : string) : option regex :=
  parse_from MTop [] [] (list_ascii_of_string pat).

(** [a*] followed by the continuation [k]: zero occurrences, or one
    character accepted by [a] and the same again. *)
Fixpoint star_from (a : atom) (k : bool -> list ascii -> bool) (bol : bool)
         (s : list ascii) {struct s} : bool :=
  k bol s
  || match s with
     | c :: s' => atom_ok a c && star_from a k false s'
     | [] => false
     end.

(** [match_here ps bol s]: do the pieces [ps] match a prefix of [s]?
    [bol] tells whether [s] is the whole subject. *)
Fixpoint match_here (ps : list piece) : bool -> list ascii -> bool :=
  match ps with
  | [] => fun _ _ => true
  | p :: ps' =>
      let k := match_here ps' in
      match p with
      | PBol => fun bol s => bol && k bol s
      | PEol => fun bol s => match s with [] => k bol s | _ :: _ => false end
      | PAtom a q =>
          match q with
          | QOne => fun _ s =>
              match s with
              | c :: s' => atom_ok a c && k false s'
              | [] => false
              end
          | QStar => star_from a k
          | QPlus => fun _ s =>
              match s with
              | c :: s' => atom_ok a c && star_from a k false s'
              | [] => false
              end
          | QOpt => fun bol s =>
              k bol s
              || match s with
                 | c :: s' => atom_ok a c && k false s'
                 | [] => false
                 end
          end
      end
  end.

(** The pattern may match at any position of the subject. *)
Fixpoint search (ps : list piece) (bol : bool) (s : list ascii) : bool :=
  match_here ps bol s
  || match s with
     | [] => false
     | _ :: s' => search ps false s'
     end.

Definition matches (re : regex) (s : list ascii) : bool :=
  existsb (fun ps => search ps true s) re.

(** [subject REGEXP pat]; [None] is a statement error. *)
Definition regexp_like (subject pat : string) : option bool :=
  match parse pat with
  | Some re => Some (matches re (list_ascii_of_string subject))
  | None => None
  end.

End Regexp.

Definition topic_matches (filter topic : string) : option bool :=
  Regexp.regexp_like topic (sqlPattern filter).

(* ================================================================== *)
(** ** Outcomes *)

Inductive error : Type :=
| Error (message : string)       (* [new Error(message)] made by index.js *)
| StoreError (message : string)  (* a rejection coming from the client library
                                    or the backing store *).

(** What a callback receives ([cb(err)] or [cb(null, a)]), and what a
    stream delivers: its items followed by the end marker, or the error it
    was destroyed with. *)
Inductive result (A : Type) : Type :=
| Ok (a : A)
| Err (e : error).
Arguments Ok {A} a.
Arguments Err {A} e.

Definition not_ready : error := Error "MySQL persistence not ready".
Definition packet_not_found : error := Error "Packet not found".
Definition bind_undefined : error :=
  StoreError "Bind parameters must not contain undefined".
Definition syntax_error : error := StoreError "ER_PARSE_ERROR".
Definition regexp_error : error := StoreError "ER_REGEXP_ERROR".
Definition pool_closed : error := StoreError "Pool is closed.".
Definition pool_null : error := Error "TypeError: this.pool is null".

(* ================================================================== *)
(** ** Objects exchanged with the broker *)

Definition bytes := list Byte.byte.

Record broker : Type := { broker_id : string }.

Record client : Type := {
  id : string;
  client_broker : option broker          (* [client.broker] *)
}.

Record packet : Type := {
  topic : string;
  payload : bytes;
  qos : Z;
  messageId : option Z;
  retain : option bool;
  dup : option bool
}.

(** [{ topic, qos }] *)
Record subscription : Type := { sub_topic : string; sub_qos : Z }.

(** [{ clientId, topic, qos }] *)
Record client_subscription : Type := {
  cs_clientId : string;
  cs_topic : string;
  cs_qos : Z
}.

(** [{ topic, payload, qos }] pushed by [createRetainedStreamCombi] *)
Record retained_packet : Type := {
  rp_topic : string;
  rp_payload : bytes;
  rp_qos : Z
}.

(** The object pushed by [outgoingStream] *)
Record outgoing_packet : Type := {
  op_messageId : option Z;
  op_topic : string;
  op_payload : bytes;
  op_qos : Z;
  op_retain : bool;
  op_dup : bool
}.

(** The object handed over by [incomingGetPacket] *)
Record incoming_packet : Type := {
  ip_messageId : Z;
  ip_topic : string;
  ip_payload : bytes;
  ip_qos : Z
}.

(** The object handed over by [getWill] *)
Record will_packet : Type := {
  wp_topic : string;
  wp_payload : bytes;
  wp_qos : Z;
  wp_retain : bool
}.

(** The object pushed by [streamWill] *)
Record will_entry : Type := {
  we_clientId : string;
  we_topic : string;
  we_payload : bytes;
  we_qos : Z;
  we_retain : bool;
  we_brokerId : option string
}.

(* ================================================================== *)
(** ** The five relations ([_createTables], lines 69-139)

    Column widths ([VARCHAR(n)], [TINYINT], [INT]) are not enforced: values
    are taken to fit their columns.  [created_at] is in seconds. *)

Record subscription_row : Type := {
  s_id : Z;
  s_client_id : string;
  s_topic : string;
  s_qos : Z;
  s_created_at : Z
}.

Record retained_row : Type := {
  r_id : Z;
  r_topic : string;
  r_payload : bytes;
  r_qos : Z;
  r_created_at : Z
}.

Record outgoing_row : Type := {
  o_id : Z;
  o_client_id : string;
  o_message_id : option Z;
  o_topic : string;
  o_payload : bytes;
  o_qos : Z;
  o_retain_flag : bool;
  o_dup_flag : bool;
  o_created_at : Z
}.

Record incoming_row : Type := {
  i_id : Z;
  i_client_id : string;
  i_message_id : Z;
  i_topic : string;
  i_payload : bytes;
  i_qos : Z;
  i_created_at : Z
}.

Record will_row : Type := {
  w_id : Z;
  w_client_id : string;
  w_topic : string;
  w_payload : bytes;
  w_qos : Z;
  w_retain_flag : bool;
  w_broker_id : option string;
  w_created_at : Z
}.

(** A relation: its rows in storage order and the next [AUTO_INCREMENT]
    value. *)
Record table (R : Type) : Type := {
  rows : list R;
  auto_increment : Z
}.
Arguments rows {R} t.
Arguments auto_increment {R} t.

Definition empty_table (R : Type) : table R :=
  {| rows := []; auto_increment := 1 |}.

(** [CREATE EVENT name ON SCHEDULE EVERY every SECOND
     DO DELETE FROM target WHERE created_at < DATE_SUB(NOW(), INTERVAL older_than SECOND)] *)
Record event : Type := {
  ev_name : string;
  ev_every : Z;
  ev_target : string;
  ev_older_than : Z
}.

Record database : Type := {
  aedes_subscriptions : table subscription_row;
  aedes_retained : table retained_row;
  aedes_outgoing : table outgoing_row;
  aedes_incoming : table incoming_row;
  aedes_will : table will_row;
  events : list event
}.

Definition empty_database : database :=
  {| aedes_subscriptions := empty_table _;
     aedes_retained := empty_table _;
     aedes_outgoing := empty_table _;
     aedes_incoming := empty_table _;
     aedes_will := empty_table _;
     events := [] |}.

Definition with_subscriptions (t : table subscription_row) (d : database) :=
  {| aedes_subscriptions := t;
     aedes_retained := aedes_retained d;
     aedes_outgoing := aedes_outgoing d;
     aedes_incoming := aedes_incoming d;
     aedes_will := aedes_will d;
     events := events d |}.

Definition with_retained (t : table retained_row) (d : database) :=
  {| aedes_subscriptions := aedes_subscriptions d;
     aedes_retained := t;
     aedes_outgoing := aedes_outgoing d;
     aedes_incoming := aedes_incoming d;
     aedes_will := aedes_will d;
     events := events d |}.

Definition with_outgoing (t : table outgoing_row) (d : database) :=
  {| aedes_subscriptions := aedes_subscriptions d;
     aedes_retained := aedes_retained d;
     aedes_outgoing := t;
     aedes_incoming := aedes_incoming d;
     aedes_will := aedes_will d;
     events := events d |}.

Definition with_incoming (t : table incoming_row) (d : database) :=
  {| aedes_subscriptions := aedes_subscriptions d;
     aedes_retained := aedes_retained d;
     aedes_outgoing := aedes_outgoing d;
     aedes_incoming := t;
     aedes_will := aedes_will d;
     events := events d |}.

Definition with_will (t : table will_row) (d : database) :=
  {| aedes_subscriptions := aedes_subscriptions d;
     aedes_retained := aedes_retained d;
     aedes_outgoing := aedes_outgoing d;
     aedes_incoming := aedes_incoming d;
     aedes_will := t;
     events := events d |}.

Definition with_events (es : list event) (d : database) :=
  {| aedes_subscriptions := aedes_subscriptions d;
     aedes_retained := aedes_retained d;
     aedes_outgoing := aedes_outgoing d;
     aedes_incoming := aedes_incoming d;
     aedes_will := aedes_will d;
     events := es |}.

(* ================================================================== *)
(** ** Statement semantics *)

Section Tables.
Context {R : Type}.

(** [INSERT ... VALUES (...)]: the new row takes the next key. *)
Definition insert (fresh : Z -> R) (t : table R) : table R :=
  {| rows := rows t ++ [fresh (auto_increment t)];
     auto_increment := auto_increment t + 1 |}.

(** [INSERT ... ON DUPLICATE KEY UPDATE ...]: [conflict] tells the rows
    that hold the unique key of the new row (at most one, while the key
    is unique); such a row is updated in place and keeps its [id]. *)
Definition insert_on_duplicate (conflict : R -> bool) (update : R -> R)
           (fresh : Z -> R) (t : table R) : table R :=
  if existsb conflict (rows t)
  then {| rows := map (fun r => if conflict r then update r else r) (rows t);
          auto_increment := auto_increment t |}
  else insert fresh t.

(** [DELETE FROM ... WHERE cond] *)
Definition delete_where (cond : R -> bool) (t : table R) : table R :=
  {| rows := filter (fun r => negb (cond r)) (rows t);
     auto_increment := auto_increment t |}.

(** [UPDATE ... SET ... WHERE cond] *)
Definition update_where (cond : R -> bool) (update : R -> R)
           (t : table R) : table R :=
  {| rows := map (fun r => if cond r then update r else r) (rows t);
     auto_increment := auto_increment t |}.

(** [SELECT ... WHERE cond], in storage order. *)
Definition select_where (cond : R -> bool) (t : table R) : list R :=
  filter cond (rows t).

(** [ORDER BY id]: a stable insertion sort on the key. *)
Fixpoint insert_by (key : R -> Z) (r : R) (sorted : list R) : list R :=
  match sorted with
  | [] => [r]
  | x :: rest =>
      if key r <? key x then r :: sorted
      else x :: insert_by key r rest
  end.

Definition order_by (key : R -> Z) (rs : list R) : list R :=
  fold_right (insert_by key) [] rs.
End Tables.

(** [x IN (v1, ..., vn)]; a [NULL] on the left is never accepted. *)
Definition sql_in (x : option string) (vs : list string) : bool :=
  match x with
  | Some s => existsb (String.eqb s) vs
  | None => false
  end.

(** [col = v] for a nullable integer column. *)
Definition sql_eq_int (col : option Z) (v : Z) : bool :=
  match col with
  | Some n => n =? v
  | None => false
  end.

Definition bytes_eqb (a b : bytes) : bool :=
  if list_eq_dec Byte.byte_eq_dec a b then true else false.

Fixpoint parse_all (pats : list string) : option (list Regexp.regex) :=
  match pats with
  | [] => Some []
  | p :: rest =>
      match Regexp.parse p, parse_all rest with
      | Some re, Some res => Some (re :: res)
      | _, _ => None
      end
  end.

(** [topic REGEXP ? OR topic REGEXP ? ...] once the patterns are read. *)
Definition regexp_any (res : list Regexp.regex) (t : string) : bool :=
  existsb (fun re => Regexp.matches re (list_ascii_of_string t)) res.

(* ================================================================== *)
(** ** The persistence object *)

Record packet_ttls : Type := {
  ttl_incoming : option Z;
  ttl_outgoing : option Z;
  ttl_retained : option Z;
  ttl_will : option Z
}.

(** [opts.ttl.packets] is a number or an object. *)
Inductive packets_option : Type :=
| PacketsNumber (n : Z)
| PacketsObject (o : packet_ttls).

Record ttl_options : Type := {
  opt_packets : option packets_option;
  opt_subscriptions : option Z
}.

Record options : Type := {
  opt_host : option string;
  opt_port : option Z;
  opt_user : option string;
  opt_password : option string;
  opt_database : option string;
  opt_ttl : option ttl_options
}.

Record connection_config : Type := {
  host : string;
  port : Z;
  user : string;
  password : string;
  database_name : string;
  charset : string;
  timezone : string
}.

Record ttl_config : Type := {
  packets : packet_ttls;
  subscriptions : option Z
}.

Inductive pool_state : Type := PoolOpen | PoolEnded.

Record persistence : Type := {
  connectionConfig : connection_config;
  ttl : ttl_config;
  pool : option pool_state;
  _ready : bool;
  _closed : bool
}.

Definition no_packet_ttls : packet_ttls :=
  {| ttl_incoming := None; ttl_outgoing := None;
     ttl_retained := None; ttl_will := None |}.

(** Lines 26-36. *)
Definition ttl_of_options (o : option ttl_options) : ttl_config :=
  let t := match o with
           | Some t => t
           | None => {| opt_packets := None; opt_subscriptions := None |}
           end in
  {| packets :=
       match opt_packets t with
       | Some (PacketsNumber n) =>
           {| ttl_incoming := Some n; ttl_outgoing := Some n;
              ttl_retained := Some n; ttl_will := Some n |}
       | Some (PacketsObject o) => o
       | None => no_packet_ttls
       end;
     subscriptions := or_null (opt_subscriptions t) |}.

(** The constructor (lines 6-43) up to the point where it returns: [_setup]
    has started and has created the pool (line 48); schema provisioning is
    still pending. *)
Definition AedesPersistenceMySQL (opts : options) : persistence :=
  {| connectionConfig :=
       {| host := or_string (opt_host opts) "localhost";
          port := or_number (opt_port opts) 3306;
          user := or_string (opt_user opts) "root";
          password := or_string (opt_password opts) EmptyString;
          database_name := or_string (opt_database opts) "aedes";
          charset := "utf8mb4";
          timezone := "+00:00" |};
     ttl := ttl_of_options (opt_ttl opts);
     pool := Some PoolOpen;
     _ready := false;
     _closed := false |}.

(** The backing store as the persistence object sees it: the database, its
    clock, and the statements sent through [pool.execute] so far.  Two
    answers are the server's and the driver's to give, not the object's:
    the error the awaited statements of provisioning end with
    ([pool.getConnection] and the [connection.execute] calls of
    [_createTables]), and the error [pool.end()] rejects with; [None] is
    a promise that resolves. *)
Record world : Type := {
  db : database;
  clock : Z;
  executed : list string;
  provisioning : option error;
  pool_end : option error
}.

Definition with_db (d : database) (w : world) : world :=
  {| db := d; clock := clock w; executed := executed w;
     provisioning := provisioning w; pool_end := pool_end w |}.

Definition logged (sql : string) (w : world) : world :=
  {| db := db w; clock := clock w; executed := executed w ++ [sql];
     provisioning := provisioning w; pool_end := pool_end w |}.

(** A statement reads the clock and the database; it answers with a value
    and the new database, or fails and leaves the database as it was. *)
Definition statement (A : Type) : Type := Z -> database -> result (A * database).

(** [this.pool.execute(sql, params)] *)
Definition execute {A : Type} (p : persistence) (sql : string)
           (run : statement A) (w : world) : result A * world :=
  match pool p with
  | Some PoolOpen =>
      match run (clock w) (db w) with
      | Ok (a, d) => (Ok a, with_db d (logged sql w))
      | Err e => (Err e, logged sql w)
      end
  | Some PoolEnded => (Err pool_closed, w)
  | None => (Err pool_null, w)
  end.

(* ------------------------------------------------------------------ *)
(** *** Schema provisioning *)

Definition cleanup_event (seconds : Z) : event :=
  {| ev_name := "aedes_cleanup_subscriptions";
     ev_every := 3600;
     ev_target := "subscriptions";
     ev_older_than := seconds |}.

(** [CREATE EVENT IF NOT EXISTS] *)
Definition create_event_if_not_exists (e : event) (d : database) : database :=
  if existsb (fun x => String.eqb (ev_name x) (ev_name e)) (events d)
  then d
  else with_events (events d ++ [e]) d.

(** Lines 64-153.  The connection is asked for when the object is
    constructed (line 65 runs within the constructor's call of [_setup]),
    so what becomes of the awaited statements is the server's answer and
    does not depend on what the object does meanwhile.  When one of them
    rejects, the function rejects; the statement that can change the
    database, [CREATE EVENT], is the last one, so a rejection leaves the
    database as it was (so does a server that does not take [CREATE
    EVENT] as a prepared statement, when the TTL is positive).  A relation
    that does not exist yet is the empty table, so the five [CREATE TABLE
    IF NOT EXISTS] leave the database as it is. *)
Definition _createTables (p : persistence) (w : world) : result world :=
  match provisioning w with
  | Some e => Err e
  | None =>
      match subscriptions (ttl p) with
      | Some n =>
          if 0 <? n
          then Ok (with_db (create_event_if_not_exists (cleanup_event n) (db w)) w)
          else Ok w
      | None => Ok w
      end
  end.

Definition set_ready (b : bool) (p : persistence) : persistence :=
  {| connectionConfig := connectionConfig p;
     ttl := ttl p;
     pool := pool p;
     _ready := b;
     _closed := _closed p |}.

(** The completion of [_setup] (lines 55-61): line 57 marks the object
    ready whenever [_createTables] resolves, without a look at [_closed];
    a rejection is logged and thrown again, and leaves the object as it
    is. *)
Definition _setup (p : persistence) (w : world) : persistence * world :=
  match _createTables p w with
  | Ok w' => (set_ready true p, w')
  | Err _ => (p, w)
  end.

(** What the scheduler does when an event fires:
    [DELETE FROM target WHERE created_at < DATE_SUB(NOW(), INTERVAL n SECOND)].
    A target that is none of the five relations does not touch them. *)
Definition delete_older_than (target : string) (cutoff : Z) (d : database)
  : result database :=
  if String.eqb target "aedes_subscriptions" then
    Ok (with_subscriptions
          (delete_where (fun r => s_created_at r <? cutoff)
                        (aedes_subscriptions d)) d)
  else if String.eqb target "aedes_retained" then
    Ok (with_retained
          (delete_where (fun r => r_created_at r <? cutoff)
                        (aedes_retained d)) d)
  else if String.eqb target "aedes_outgoing" then
    Ok (with_outgoing
          (delete_where (fun r => o_created_at r <? cutoff)
                        (aedes_outgoing d)) d)
  else if String.eqb target "aedes_incoming" then
    Ok (with_incoming
          (delete_where (fun r => i_created_at r <? cutoff)
                        (aedes_incoming d)) d)
  else if String.eqb target "aedes_will" then
    Ok (with_will
          (delete_where (fun r => w_created_at r <? cutoff)
                        (aedes_will d)) d)
  else Err (StoreError "ER_NO_SUCH_TABLE").

Definition run_event (now : Z) (e : event) (d : database) : database :=
  match delete_older_than (ev_target e) (now - ev_older_than e) d with
  | Ok d' => d'
  | Err _ => d
  end.

(** One round of the scheduler at time [now]: every event fires once. *)
Definition run_events (now : Z) (d : database) : database :=
  fold_left (fun acc e => run_event now e acc) (events d) d.

(* ------------------------------------------------------------------ *)
(** *** Retained messages *)

Definition upsert_retained (t : string) (pl : bytes) (q : Z) : statement unit :=
  fun now d =>
    Ok (tt,
        with_retained
          (insert_on_duplicate
             (fun r => String.eqb (r_topic r) t)
             (fun r => {| r_id := r_id r; r_topic := r_topic r;
                          r_payload := pl; r_qos := q;
                          r_created_at := now |})
             (fun k => {| r_id := k; r_topic := t; r_payload := pl;
                          r_qos := q; r_created_at := now |})
             (aedes_retained d)) d).

(** Lines 156-170. *)
Definition storeRetained (p : persistence) (pkt : packet) (w : world)
  : result unit * world :=
  if negb (_ready p) then (Err not_ready, w)
  else
    execute p
      "INSERT INTO aedes_retained (topic, payload, qos) VALUES (?, ?, ?) ON DUPLICATE KEY UPDATE payload = VALUES(payload), qos = VALUES(qos), created_at = CURRENT_TIMESTAMP"
      (upsert_retained (topic pkt) (payload pkt) (qos pkt)) w.

Definition retained_of_row (r : retained_row) : retained_packet :=
  {| rp_topic := r_topic r; rp_payload := r_payload r; rp_qos := r_qos r |}.

(** An empty condition list leaves [WHERE] without a condition. *)
Definition select_retained_regexp (params : list string)
  : statement (list retained_row) :=
  fun _ d =>
    match params with
    | [] => Err syntax_error
    | _ :: _ =>
        match parse_all params with
        | Some res =>
            Ok (select_where (fun r => regexp_any res (r_topic r))
                             (aedes_retained d), d)
        | None => Err regexp_error
        end
    end.

Definition map_result {A B : Type} (f : A -> B) (r : result A) : result B :=
  match r with
  | Ok a => Ok (f a)
  | Err e => Err e
  end.

Definition then_ {A B : Type} (f : A -> B) (rw : result A * world)
  : result B * world :=
  (map_result f (fst rw), snd rw).

(** Lines 173-209. *)
Definition createRetainedStreamCombi (p : persistence) (patterns : list string)
           (w : world) : result (list retained_packet) * world :=
  if negb (_ready p) then (Err not_ready, w)
  else
    let conditions := map (fun _ : string => "topic REGEXP ?") patterns in
    let query := "SELECT topic, payload, qos FROM aedes_retained WHERE "
                 ++ join " OR " conditions in
    let params := map sqlPattern patterns in
    then_ (map retained_of_row)
          (execute p query (select_retained_regexp params) w).

(** Lines 631-633. *)
Definition createRetainedStream (p : persistence) (pattern : string)
           (w : world) : result (list retained_packet) * world :=
  createRetainedStreamCombi p [pattern] w.

(* ------------------------------------------------------------------ *)
(** *** Subscriptions *)

(** The statement is prepared as it is written, [... VALUES ? ON DUPLICATE
    KEY UPDATE ...], and a lone placeholder is not a list of rows: the
    server rejects the text when it prepares it, whatever array is bound
    to the placeholder. *)
Definition upsert_subscriptions (values : list (string * string * Z))
  : statement unit :=
  fun _ _ => Err syntax_error.

(** Lines 212-227. *)
Definition addSubscriptions (p : persistence) (c : client)
           (subs : list subscription) (w : world) : result client * world :=
  if negb (_ready p) then (Err not_ready, w)
  else
    let values := map (fun sub => (id c, sub_topic sub, sub_qos sub)) subs in
    then_ (fun _ : unit => c)
          (execute p
             "INSERT INTO aedes_subscriptions (client_id, topic, qos) VALUES ? ON DUPLICATE KEY UPDATE qos = VALUES(qos), created_at = CURRENT_TIMESTAMP"
             (upsert_subscriptions values) w).

Definition delete_subscriptions (c : string) (topics : list string)
  : statement unit :=
  fun _ d =>
    Ok (tt,
        with_subscriptions
          (delete_where
             (fun r => String.eqb (s_client_id r) c
                       && existsb (String.eqb (s_topic r)) topics)
             (aedes_subscriptions d)) d).

(** Lines 230-246. *)
Definition removeSubscriptions (p : persistence) (c : client)
           (topics : list string) (w : world) : result client * world :=
  if negb (_ready p) then (Err not_ready, w)
  else if (List.length topics =? 0)%nat then (Ok c, w)
  else
    let placeholders := join "," (map (fun _ : string => "?") topics) in
    let query := "DELETE FROM aedes_subscriptions WHERE client_id = ? AND topic IN ("
                 ++ placeholders ++ ")" in
    then_ (fun _ : unit => c)
          (execute p query (delete_subscriptions (id c) topics) w).

Definition select_subscriptions_by_client (c : string)
  : statement (list subscription_row) :=
  fun _ d =>
    Ok (select_where (fun r => String.eqb (s_client_id r) c)
                     (aedes_subscriptions d), d).

(** Lines 249-265. *)
Definition subscriptionsByClient (p : persistence) (c : client) (w : world)
  : result (list subscription * client) * world :=
  if negb (_ready p) then (Err not_ready, w)
  else
    then_ (fun rs =>
             (map (fun r => {| sub_topic := s_topic r; sub_qos := s_qos r |}) rs,
              c))
          (execute p
             "SELECT topic, qos FROM aedes_subscriptions WHERE client_id = ?"
             (select_subscriptions_by_client (id c)) w).

Definition count_subscriptions : statement Z :=
  fun _ d => Ok (Z.of_nat (List.length (rows (aedes_subscriptions d))), d).

Definition count_distinct_clients : statement Z :=
  fun _ d =>
    Ok (Z.of_nat
          (List.length (nodup string_dec
                         (map s_client_id (rows (aedes_subscriptions d))))),
        d).

(** Lines 268-285: both statements are sent, then both results are read. *)
Definition countOffline (p : persistence) (w : world)
  : result (Z * Z) * world :=
  if negb (_ready p) then (Err not_ready, w)
  else
    let (r1, w1) :=
      execute p "SELECT COUNT(*) as count FROM aedes_subscriptions"
              count_subscriptions w in
    let (r2, w2) :=
      execute p
        "SELECT COUNT(DISTINCT client_id) as count FROM aedes_subscriptions"
        count_distinct_clients w1 in
    match r1, r2 with
    | Ok numSubscriptions, Ok numClients =>
        (Ok (numSubscriptions, numClients), w2)
    | Err e, _ => (Err e, w2)
    | _, Err e => (Err e, w2)
    end.

Definition select_subscriptions_regexp (pat : string)
  : statement (list subscription_row) :=
  fun _ d =>
    match Regexp.parse pat with
    | Some re =>
        Ok (select_where
              (fun r => Regexp.matches re (list_ascii_of_string (s_topic r)))
              (aedes_subscriptions d), d)
    | None => Err regexp_error
    end.

Definition client_subscription_of_row (r : subscription_row)
  : client_subscription :=
  {| cs_clientId := s_client_id r; cs_topic := s_topic r; cs_qos := s_qos r |}.

(** Lines 288-310. *)
Definition subscriptionsByTopic (p : persistence) (pattern : string)
           (w : world) : result (list client_subscription) * world :=
  if negb (_ready p) then (Err not_ready, w)
  else
    then_ (map client_subscription_of_row)
          (execute p
             "SELECT client_id, topic, qos FROM aedes_subscriptions WHERE topic REGEXP ?"
             (select_subscriptions_regexp (sqlPattern pattern)) w).

Definition delete_client_subscriptions (c : string) : statement unit :=
  fun _ d =>
    Ok (tt,
        with_subscriptions
          (delete_where (fun r => String.eqb (s_client_id r) c)
                        (aedes_subscriptions d)) d).

(** Lines 313-323. *)
Definition cleanSubscriptions (p : persistence) (c : client) (w : world)
  : result client * world :=
  if negb (_ready p) then (Err not_ready, w)
  else
    then_ (fun _ : unit => c)
          (execute p "DELETE FROM aedes_subscriptions WHERE client_id = ?"
                   (delete_client_subscriptions (id c)) w).

Definition select_clients_by_topic (t : string) : statement (list string) :=
  fun _ d =>
    Ok (nodup string_dec
              (map s_client_id
                   (select_where (fun r => String.eqb (s_topic r) t)
                                 (aedes_subscriptions d))), d).

(** Lines 589-610. *)
Definition getClientList (p : persistence) (t : string) (w : world)
  : result (list string) * world :=
  if negb (_ready p) then (Err not_ready, w)
  else
    execute p
      "SELECT DISTINCT client_id FROM aedes_subscriptions WHERE topic = ?"
      (select_clients_by_topic t) w.

(* ------------------------------------------------------------------ *)
(** *** Offline delivery queue *)

Definition outgoing_values := (string * option Z * string * bytes * Z * bool * bool)%type.

(** [... VALUES ?] again: the text is prepared as it is written and the
    server rejects it, whatever rows are bound to the placeholder. *)
Definition insert_outgoing (values : list outgoing_values) : statement unit :=
  fun _ _ => Err syntax_error.

(** Lines 326-353. *)
Definition outgoingEnqueueCombi (p : persistence)
           (subs : list client_subscription) (pkt : packet) (w : world)
  : result unit * world :=
  if negb (_ready p) then (Err not_ready, w)
  else
    let values :=
      map (fun sub =>
             (cs_clientId sub, or_null (messageId pkt), topic pkt, payload pkt,
              qos pkt, or_false (retain pkt), or_false (dup pkt))) subs in
    if (List.length values =? 0)%nat then (Ok tt, w)
    else
      execute p
        "INSERT INTO aedes_outgoing (client_id, message_id, topic, payload, qos, retain_flag, dup_flag) VALUES ?"
        (insert_outgoing values) w.

(** Lines 636-638. *)
Definition outgoingEnqueue (p : persistence) (sub : client_subscription)
           (pkt : packet) (w : world) : result unit * world :=
  outgoingEnqueueCombi p [sub] pkt w.

Definition update_outgoing (m : Z) (dp : bool) (c t : string) (pl : bytes)
  : statement unit :=
  fun _ d =>
    Ok (tt,
        with_outgoing
          (update_where
             (fun r => String.eqb (o_client_id r) c
                       && String.eqb (o_topic r) t
                       && bytes_eqb (o_payload r) pl)
             (fun r => {| o_id := o_id r; o_client_id := o_client_id r;
                          o_message_id := Some m; o_topic := o_topic r;
                          o_payload := o_payload r; o_qos := o_qos r;
                          o_retain_flag := o_retain_flag r;
                          o_dup_flag := dp;
                          o_created_at := o_created_at r |})
             (aedes_outgoing d)) d).

(** Lines 356-376.  [packet.messageId] is bound as it is. *)
Definition outgoingUpdate (p : persistence) (c : client) (pkt : packet)
           (w : world) : result unit * world :=
  if negb (_ready p) then (Err not_ready, w)
  else
    match messageId pkt with
    | Some m =>
        execute p
          "UPDATE aedes_outgoing SET message_id = ?, dup_flag = ? WHERE client_id = ? AND topic = ? AND payload = ?"
          (update_outgoing m (or_false (dup pkt)) (id c) (topic pkt)
                           (payload pkt)) w
    | None => (Err bind_undefined, w)
    end.

Definition delete_outgoing (c : string) (m : Z) : statement unit :=
  fun _ d =>
    Ok (tt,
        with_outgoing
          (delete_where
             (fun r => String.eqb (o_client_id r) c
                       && sql_eq_int (o_message_id r) m)
             (aedes_outgoing d)) d).

(** Lines 379-389. *)
Definition outgoingClearMessageId (p : persistence) (c : client)
           (pkt : packet) (w : world) : result packet * world :=
  if negb (_ready p) then (Err not_ready, w)
  else
    match messageId pkt with
    | Some m =>
        then_ (fun _ : unit => pkt)
              (execute p
                 "DELETE FROM aedes_outgoing WHERE client_id = ? AND message_id = ?"
                 (delete_outgoing (id c) m) w)
    | None => (Err bind_undefined, w)
    end.

Definition select_outgoing (c : string) : statement (list outgoing_row) :=
  fun _ d =>
    Ok (order_by o_id
                 (select_where (fun r => String.eqb (o_client_id r) c)
                               (aedes_outgoing d)), d).

Definition outgoing_of_row (r : outgoing_row) : outgoing_packet :=
  {| op_messageId := o_message_id r;
     op_topic := o_topic r;
     op_payload := o_payload r;
     op_qos := o_qos r;
     op_retain := o_retain_flag r;
     op_dup := o_dup_flag r |}.

(** Lines 392-420. *)
Definition outgoingStream (p : persistence) (c : client) (w : world)
  : result (list outgoing_packet) * world :=
  if negb (_ready p) then (Err not_ready, w)
  else
    then_ (map outgoing_of_row)
          (execute p "SELECT * FROM aedes_outgoing WHERE client_id = ? ORDER BY id"
                   (select_outgoing (id c)) w).

(* ------------------------------------------------------------------ *)
(** *** Incoming packets *)

Definition upsert_incoming (c : string) (m : Z) (t : string) (pl : bytes)
           (q : Z) : statement unit :=
  fun now d =>
    Ok (tt,
        with_incoming
          (insert_on_duplicate
             (fun r => String.eqb (i_client_id r) c && (i_message_id r =? m))
             (fun r => {| i_id := i_id r; i_client_id := i_client_id r;
                          i_message_id := i_message_id r; i_topic := t;
                          i_payload := pl; i_qos := q;
                          i_created_at := i_created_at r |})
             (fun k => {| i_id := k; i_client_id := c; i_message_id := m;
                          i_topic := t; i_payload := pl; i_qos := q;
                          i_created_at := now |})
             (aedes_incoming d)) d).

(** Lines 423-443. *)
Definition incomingStorePacket (p : persistence) (c : client) (pkt : packet)
           (w : world) : result packet * world :=
  if negb (_ready p) then (Err not_ready, w)
  else
    match messageId pkt with
    | Some m =>
        then_ (fun _ : unit => pkt)
              (execute p
                 "INSERT INTO aedes_incoming (client_id, message_id, topic, payload, qos) VALUES (?, ?, ?, ?, ?) ON DUPLICATE KEY UPDATE topic = VALUES(topic), payload = VALUES(payload), qos = VALUES(qos)"
                 (upsert_incoming (id c) m (topic pkt) (payload pkt) (qos pkt))
                 w)
    | None => (Err bind_undefined, w)
    end.

Definition select_incoming (c : string) (m : Z) : statement (list incoming_row) :=
  fun _ d =>
    Ok (select_where
          (fun r => String.eqb (i_client_id r) c && (i_message_id r =? m))
          (aedes_incoming d), d).

Definition incoming_of_row (r : incoming_row) : incoming_packet :=
  {| ip_messageId := i_message_id r;
     ip_topic := i_topic r;
     ip_payload := i_payload r;
     ip_qos := i_qos r |}.

Definition and_then {A B : Type} (f : A -> result B) (rw : result A * world)
  : result B * world :=
  (match fst rw with
   | Ok a => f a
   | Err e => Err e
   end, snd rw).

(** Lines 446-467. *)
Definition incomingGetPacket (p : persistence) (c : client) (pkt : packet)
           (w : world) : result incoming_packet * world :=
  if negb (_ready p) then (Err not_ready, w)
  else
    match messageId pkt with
    | Some m =>
        and_then
          (fun rs =>
             match rs with
             | [] => Err packet_not_found
             | row :: _ => Ok (incoming_of_row row)
             end)
          (execute p
             "SELECT * FROM aedes_incoming WHERE client_id = ? AND message_id = ?"
             (select_incoming (id c) m) w)
    | None => (Err bind_undefined, w)
    end.

Definition delete_incoming (c : string) (m : Z) : statement unit :=
  fun _ d =>
    Ok (tt,
        with_incoming
          (delete_where
             (fun r => String.eqb (i_client_id r) c && (i_message_id r =? m))
             (aedes_incoming d)) d).

(** Lines 470-480. *)
Definition incomingDelPacket (p : persistence) (c : client) (pkt : packet)
           (w : world) : result packet * world :=
  if negb (_ready p) then (Err not_ready, w)
  else
    match messageId pkt with
    | Some m =>
        then_ (fun _ : unit => pkt)
              (execute p
                 "DELETE FROM aedes_incoming WHERE client_id = ? AND message_id = ?"
                 (delete_incoming (id c) m) w)
    | None => (Err bind_undefined, w)
    end.

(* ------------------------------------------------------------------ *)
(** *** Wills *)

Definition upsert_will (c t : string) (pl : bytes) (q : Z) (rt : bool)
           (b : option string) : statement unit :=
  fun now d =>
    Ok (tt,
        with_will
          (insert_on_duplicate
             (fun r => String.eqb (w_client_id r) c)
             (fun r => {| w_id := w_id r; w_client_id := w_client_id r;
                          w_topic := t; w_payload := pl; w_qos := q;
                          w_retain_flag := rt; w_broker_id := b;
                          w_created_at := now |})
             (fun k => {| w_id := k; w_client_id := c; w_topic := t;
                          w_payload := pl; w_qos := q; w_retain_flag := rt;
                          w_broker_id := b; w_created_at := now |})
             (aedes_will d)) d).

(** Lines 483-510. *)
Definition putWill (p : persistence) (c : client) (pkt : packet) (w : world)
  : result unit * world :=
  if negb (_ready p) then (Err not_ready, w)
  else
    execute p
      "INSERT INTO aedes_will (client_id, topic, payload, qos, retain_flag, broker_id) VALUES (?, ?, ?, ?, ?, ?) ON DUPLICATE KEY UPDATE topic = VALUES(topic), payload = VALUES(payload), qos = VALUES(qos), retain_flag = VALUES(retain_flag), broker_id = VALUES(broker_id), created_at = CURRENT_TIMESTAMP"
      (upsert_will (id c) (topic pkt) (payload pkt) (qos pkt)
                   (or_false (retain pkt))
                   (match client_broker c with
                    | Some b => Some (broker_id b)
                    | None => None
                    end)) w.

Definition select_will (c : string) : statement (list will_row) :=
  fun _ d =>
    Ok (select_where (fun r => String.eqb (w_client_id r) c) (aedes_will d), d).

Definition will_of_row (r : will_row) : will_packet :=
  {| wp_topic := w_topic r;
     wp_payload := w_payload r;
     wp_qos := w_qos r;
     wp_retain := w_retain_flag r |}.

(** Lines 513-534: [cb(null, null)] when there is no row. *)
Definition getWill (p : persistence) (c : client) (w : world)
  : result (option will_packet) * world :=
  if negb (_ready p) then (Err not_ready, w)
  else
    then_ (fun rs =>
             match rs with
             | [] => None
             | row :: _ => Some (will_of_row row)
             end)
          (execute p "SELECT * FROM aedes_will WHERE client_id = ?"
                   (select_will (id c)) w).

Definition delete_will (c : string) : statement unit :=
  fun _ d =>
    Ok (tt,
        with_will
          (delete_where (fun r => String.eqb (w_client_id r) c) (aedes_will d))
          d).

(** Lines 537-547. *)
Definition delWill (p : persistence) (c : client) (w : world)
  : result unit * world :=
  if negb (_ready p) then (Err not_ready, w)
  else
    execute p "DELETE FROM aedes_will WHERE client_id = ?"
            (delete_will (id c)) w.

Definition select_will_by_brokers (brokerIds : list string)
  : statement (list will_row) :=
  fun _ d =>
    Ok (select_where (fun r => sql_in (w_broker_id r) brokerIds) (aedes_will d),
        d).

Definition will_entry_of_row (r : will_row) : will_entry :=
  {| we_clientId := w_client_id r;
     we_topic := w_topic r;
     we_payload := w_payload r;
     we_qos := w_qos r;
     we_retain := w_retain_flag r;
     we_brokerId := w_broker_id r |}.

(** [Object.keys(brokers)] for an object given by its entries. *)
Definition Object_keys {B : Type} (brokers : list (string * B)) : list string :=
  nodup string_dec (map fst brokers).

(** Lines 550-586. *)
Definition streamWill {B : Type} (p : persistence)
           (brokers : list (string * B)) (w : world)
  : result (list will_entry) * world :=
  if negb (_ready p) then (Err not_ready, w)
  else
    let brokerIds := Object_keys brokers in
    if (List.length brokerIds =? 0)%nat then (Ok [], w)
    else
      let placeholders := join "," (map (fun _ : string => "?") brokerIds) in
      let query := "SELECT * FROM aedes_will WHERE broker_id IN ("
                   ++ placeholders ++ ")" in
      then_ (map will_entry_of_row)
            (execute p query (select_will_by_brokers brokerIds) w).

(* ------------------------------------------------------------------ *)
(** *** Shutdown *)

(** Lines 613-628.  The two flags are set before the pool is asked to
    end; a rejection of [pool.end()] is passed to the callback (line 624),
    and the pool takes no statement afterwards either way. *)
Definition destroy (p : persistence) (w : world)
  : result unit * persistence * world :=
  if _closed p then (Ok tt, p, w)
  else
    (match pool p, pool_end w with
     | Some _, Some e => Err e
     | _, _ => Ok tt
     end,
     {| connectionConfig := connectionConfig p;
        ttl := ttl p;
        pool := match pool p with
                | Some _ => Some PoolEnded
                | None => None
                end;
        _ready := false;
        _closed := true |},
     w).

(* ================================================================== *)
(** ** The public operations as one interface *)

Inductive request : Type :=
| StoreRetained (pkt : packet)
| CreateRetainedStreamCombi (patterns : list string)
| CreateRetainedStream (pattern : string)
| AddSubscriptions (c : client) (subs : list subscription)
| RemoveSubscriptions (c : client) (topics : list string)
| SubscriptionsByClient (c : client)
| CountOffline
| SubscriptionsByTopic (pattern : string)
| CleanSubscriptions (c : client)
| OutgoingEnqueueCombi (subs : list client_subscription) (pkt : packet)
| OutgoingEnqueue (sub : client_subscription) (pkt : packet)
| OutgoingUpdate (c : client) (pkt : packet)
| OutgoingClearMessageId (c : client) (pkt : packet)
| OutgoingStream (c : client)
| IncomingStorePacket (c : client) (pkt : packet)
| IncomingGetPacket (c : client) (pkt : packet)
| IncomingDelPacket (c : client) (pkt : packet)
| PutWill (c : client) (pkt : packet)
| GetWill (c : client)
| DelWill (c : client)
| StreamWill (brokers : list (string * Z))
| GetClientList (t : string)
| Destroy.

Inductive response : Type :=
| RUnit (r : result unit)
| RClient (r : result client)
| RPacket (r : result packet)
| RSubscriptions (r : result (list subscription * client))
| RClientSubscriptions (r : result (list client_subscription))
| RCounts (r : result (Z * Z))
| RRetained (r : result (list retained_packet))
| ROutgoing (r : result (list outgoing_packet))
| RIncoming (r : result incoming_packet)
| RWill (r : result (option will_packet))
| RWills (r : result (list will_entry))
| RClientIds (r : result (list string)).

Definition failure_of {A : Type} (r : result A) : option error :=
  match r with
  | Ok _ => None
  | Err e => Some e
  end.

(** The error an operation ended with, if it did. *)
Definition failure (r : response) : option error :=
  match r with
  | RUnit r => failure_of r
  | RClient r => failure_of r
  | RPacket r => failure_of r
  | RSubscriptions r => failure_of r
  | RClientSubscriptions r => failure_of r
  | RCounts r => failure_of r
  | RRetained r => failure_of r
  | ROutgoing r => failure_of r
  | RIncoming r => failure_of r
  | RWill r => failure_of r
  | RWills r => failure_of r
  | RClientIds r => failure_of r
  end.

Definition answer {A : Type} (wrap : result A -> response) (p : persistence)
           (rw : result A * world) : response * persistence * world :=
  (wrap (fst rw), p, snd rw).

Definition call (rq : request) (p : persistence) (w : world)
  : response * persistence * world :=
  match rq with
  | StoreRetained pkt => answer RUnit p (storeRetained p pkt w)
  | CreateRetainedStreamCombi pats =>
      answer RRetained p (createRetainedStreamCombi p pats w)
  | CreateRetainedStream pat => answer RRetained p (createRetainedStream p pat w)
  | AddSubscriptions c subs => answer RClient p (addSubscriptions p c subs w)
  | RemoveSubscriptions c topics =>
      answer RClient p (removeSubscriptions p c topics w)
  | SubscriptionsByClient c =>
      answer RSubscriptions p (subscriptionsByClient p c w)
  | CountOffline => answer RCounts p (countOffline p w)
  | SubscriptionsByTopic pat =>
      answer RClientSubscriptions p (subscriptionsByTopic p pat w)
  | CleanSubscriptions c => answer RClient p (cleanSubscriptions p c w)
  | OutgoingEnqueueCombi subs pkt =>
      answer RUnit p (outgoingEnqueueCombi p subs pkt w)
  | OutgoingEnqueue sub pkt => answer RUnit p (outgoingEnqueue p sub pkt w)
  | OutgoingUpdate c pkt => answer RUnit p (outgoingUpdate p c pkt w)
  | OutgoingClearMessageId c pkt =>
      answer RPacket p (outgoingClearMessageId p c pkt w)
  | OutgoingStream c => answer ROutgoing p (outgoingStream p c w)
  | IncomingStorePacket c pkt =>
      answer RPacket p (incomingStorePacket p c pkt w)
  | IncomingGetPacket c pkt =>
      answer RIncoming p (incomingGetPacket p c pkt w)
  | IncomingDelPacket c pkt => answer RPacket p (incomingDelPacket p c pkt w)
  | PutWill c pkt => answer RUnit p (putWill p c pkt w)
  | GetWill c => answer RWill p (getWill p c w)
  | DelWill c => answer RUnit p (delWill p c w)
  | StreamWill brokers => answer RWills p (streamWill p brokers w)
  | GetClientList t => answer RClientIds p (getClientList p t w)
  | Destroy =>
      match destroy p w with
      | (r, p', w') => (RUnit r, p', w')
      end
  end.

(** What can happen to a persistence object once it is constructed: the
    broker calls an operation, the provisioning started by the constructor
    settles, the clock advances or the scheduler fires the events. *)
Inductive step : Type :=
| Call (rq : request)
| SetupCompletes
| Tick (seconds : Z)
| Scheduler.

Definition advance (seconds : Z) (w : world) : world :=
  {| db := db w; clock := clock w + Z.max 0 seconds; executed := executed w;
     provisioning := provisioning w; pool_end := pool_end w |}.

Definition run (s : step) (pw : persistence * world) : persistence * world :=
  match s with
  | Call rq =>
      match call rq (fst pw) (snd pw) with
      | (_, p', w') => (p', w')
      end
  | SetupCompletes => _setup (fst pw) (snd pw)
  | Tick n => (fst pw, advance n (snd pw))
  | Scheduler => (fst pw, with_db (run_events (clock (snd pw)) (db (snd pw))) (snd pw))
  end.

Definition run_all (steps : list step) (pw : persistence * world)
  : persistence * world :=
  fold_left (fun acc s => run s acc) steps pw.

(** A fresh store on a server that accepts the statements of provisioning
    and a pool that ends without an error, and the life of an object on
    it. *)
Definition fresh_world : world :=
  {| db := empty_database; clock := 0; executed := [];
     provisioning := None; pool_end := None |}.

Definition reachable (opts : options) (pw : persistence * world) : Prop :=
  exists steps, pw = run_all steps (AedesPersistenceMySQL opts, fresh_world).

(* ================================================================== *)
(** ** Constraints of the schema *)

(** [PRIMARY KEY id] with [AUTO_INCREMENT]: keys grow along the storage
    order and stay below the next value. *)
Definition ascending {R : Type} (key : R -> Z) (t : table R) : Prop :=
  StronglySorted Z.lt (map key (rows t))
  /\ Forall (fun r => key r < auto_increment t) (rows t).

Record well_formed (d : database) : Prop := {
  wf_subscriptions_id : ascending s_id (aedes_subscriptions d);
  wf_retained_id : ascending r_id (aedes_retained d);
  wf_outgoing_id : ascending o_id (aedes_outgoing d);
  wf_incoming_id : ascending i_id (aedes_incoming d);
  wf_will_id : ascending w_id (aedes_will d);
  (* UNIQUE KEY unique_subscription (client_id, topic) *)
  wf_unique_subscription :
    NoDup (map (fun r => (s_client_id r, s_topic r))
               (rows (aedes_subscriptions d)));
  (* topic VARCHAR(512) NOT NULL UNIQUE *)
  wf_unique_retained : NoDup (map r_topic (rows (aedes_retained d)));
  (* UNIQUE KEY unique_incoming (client_id, message_id) *)
  wf_unique_incoming :
    NoDup (map (fun r => (i_client_id r, i_message_id r))
               (rows (aedes_incoming d)));
  (* client_id VARCHAR(255) NOT NULL UNIQUE *)
  wf_unique_will : NoDup (map w_client_id (rows (aedes_will d)))
}.

(* ================================================================== *)
(** ** Sample values *)

(** [Buffer.from(s)] *)
Definition Buffer_from (s : string) : bytes :=
  map byte_of_ascii (list_ascii_of_string s).

Definition default_options : options :=
  {| opt_host := None; opt_port := None; opt_user := None;
     opt_password := None; opt_database := None; opt_ttl := None |}.

(** An object whose provisioning has completed on a fresh store. *)
Definition ready_persistence : persistence :=
  fst (_setup (AedesPersistenceMySQL default_options) fresh_world).

Definition publish (t pl : string) (q : Z) : packet :=
  {| topic := t; payload := Buffer_from pl; qos := q;
     messageId := None; retain := None; dup := None |}.

Definition client_c1 : client := {| id := "c1"; client_broker := None |}.
Definition client_c2 : client := {| id := "c2"; client_broker := None |}.

(* ================================================================== *)
(** ** Notions used by the properties *)

(** *** States of the persistence object *)

(** The pool of an object is ended exactly when the object is closed. *)
Definition pool_inv (p : persistence) : Prop :=
  pool p = Some (if _closed p then PoolEnded else PoolOpen).

(** An object that passes the gate with a usable pool. *)
Definition serving (p : persistence) : Prop :=
  _ready p = true /\ pool p = Some PoolOpen.

(** The step at which the broker calls [destroy]. *)
Definition is_destroy (s : step) : bool :=
  match s with
  | Call Destroy => true
  | _ => false
  end.

(** Two outcomes a caller can tell apart. *)
Definition distinguishable (a b : option error) : Prop := a <> b.

(** [{ ttl: { subscriptions: n } }] *)
Definition options_with_subscription_ttl (n : Z) : options :=
  {| opt_host := None; opt_port := None; opt_user := None;
     opt_password := None; opt_database := None;
     opt_ttl := Some {| opt_packets := None; opt_subscriptions := Some n |} |}.

(** *** Keys *)

(** The condition [client_id = ? AND message_id = ?]. *)
Definition incoming_key (c : client) (m : Z) (r : incoming_row) : bool :=
  String.eqb (i_client_id r) (id c) && (i_message_id r =? m).

(** The incoming relation after [incomingStorePacket]. *)
Definition stored_incoming (now : Z) (c : client) (m : Z) (pkt : packet)
           (t : table incoming_row) : table incoming_row :=
  insert_on_duplicate
    (fun r => String.eqb (i_client_id r) (id c) && (i_message_id r =? m))
    (fun r => {| i_id := i_id r; i_client_id := i_client_id r;
                 i_message_id := i_message_id r; i_topic := topic pkt;
                 i_payload := payload pkt; i_qos := qos pkt;
                 i_created_at := i_created_at r |})
    (fun k => {| i_id := k; i_client_id := id c; i_message_id := m;
                 i_topic := topic pkt; i_payload := payload pkt;
                 i_qos := qos pkt; i_created_at := now |})
    t.

(** A QoS 2 packet with message id 7. *)
Definition pubrel_7 : packet :=
  {| topic := "a/b"; payload := Buffer_from "42"; qos := 2;
     messageId := Some 7; retain := None; dup := None |}.

(** *** Topics and filters level by level *)

(** The levels of a topic or of a filter: its parts between separators. *)
Fixpoint levels (s : list ascii) : list (list ascii) :=
  match s with
  | [] => [[]]
  | c :: s' =>
      if Ascii.eqb c "/" then [] :: levels s'
      else match levels s' with
           | l :: ls => (c :: l) :: ls
           | [] => [[c]]
           end
  end.

(** [levels] undone. *)
Fixpoint unlevels (ls : list (list ascii)) : list ascii :=
  match ls with
  | [] => []
  | [l] => l
  | l :: rest => l ++ "/"%char :: unlevels rest
  end.

Definition chars_eqb (a b : list ascii) : bool :=
  if list_eq_dec ascii_dec a b then true else false.

Definition is_plus (l : list ascii) : bool := chars_eqb l ["+"%char].
Definition is_hash (l : list ascii) : bool := chars_eqb l ["#"%char].

(** A character that stands for itself both in a filter and in a pattern. *)
Definition ordinary (c : ascii) : bool :=
  negb (Regexp.special c) && negb (Ascii.eqb c "#").

(** A well-formed filter over ordinary characters: every level is [+] or
    literal, and the last one may be [#]. *)
Fixpoint levels_ok (ls : list (list ascii)) : bool :=
  match ls with
  | [] => true
  | [l] => is_plus l || is_hash l || forallb ordinary l
  | l :: rest => (is_plus l || forallb ordinary l) && levels_ok rest
  end.

Definition filter_ok (f : string) : bool :=
  levels_ok (levels (list_ascii_of_string f)).

(** One level of the filter against one level of the topic: [+] takes any
    non-empty level, a literal level takes itself. *)
Definition level_accepts (f t : list ascii) : bool :=
  if is_plus f then negb (chars_eqb t []) else chars_eqb f t.

(** What the pattern of [index.js] amounts to, level by level: one topic
    level per filter level, and a final [#] takes one or more levels. *)
Fixpoint levels_accept (fs ts : list (list ascii)) : bool :=
  match fs, ts with
  | [], [] => true
  | f :: fs', t :: ts' =>
      match fs' with
      | [] => if is_hash f then true
              else level_accepts f t && levels_accept fs' ts'
      | _ :: _ => level_accepts f t && levels_accept fs' ts'
      end
  | _, _ => false
  end.

Definition filter_accepts (f t : string) : bool :=
  levels_accept (levels (list_ascii_of_string f))
                (levels (list_ascii_of_string t)).

(** The reading of the specification: [+] is exactly one run of
    non-separator characters, and [#], legal as the final token only, is
    zero or more remaining levels. *)
Fixpoint spec_levels_accept (fs ts : list (list ascii)) : bool :=
  match fs with
  | [] => match ts with
          | [] => true
          | _ :: _ => false
          end
  | f :: fs' =>
      if is_hash f && match fs' with [] => true | _ :: _ => false end
      then true
      else match ts with
           | t :: ts' => level_accepts f t && spec_levels_accept fs' ts'
           | [] => false
           end
  end.

Definition spec_accepts (f t : string) : bool :=
  spec_levels_accept (levels (list_ascii_of_string f))
                     (levels (list_ascii_of_string t)).

(** *** The pattern read back *)

(** The text a filter character becomes in the pattern. *)
Definition expand (c : ascii) : list ascii :=
  if Ascii.eqb c "+" then list_ascii_of_string "[^/]+"
  else if Ascii.eqb c "#" then list_ascii_of_string ".*"
  else [c].

(** The piece that text is read as. *)
Definition piece_of (c : ascii) : Regexp.piece :=
  if Ascii.eqb c "+" then Regexp.PAtom (Regexp.ASet true ["/"%char]) Regexp.QPlus
  else if Ascii.eqb c "#" then Regexp.PAtom Regexp.AAny Regexp.QStar
  else Regexp.PAtom (Regexp.ALit c) Regexp.QOne.

(** A filter character whose text is read back as [piece_of] says. *)
Definition token_ok (c : ascii) : bool :=
  Ascii.eqb c "+" || Ascii.eqb c "#" || ordinary c.

(** The first level of a topic and what follows its separator. *)
Fixpoint first_level (t : list ascii) : list ascii :=
  match t with
  | [] => []
  | c :: r => if Ascii.eqb c "/" then [] else c :: first_level r
  end.

Fixpoint after_sep (t : list ascii) : option (list ascii) :=
  match t with
  | [] => None
  | c :: r => if Ascii.eqb c "/" then Some r else after_sep r
  end.

Definition no_sep (l : list ascii) : bool :=
  forallb (fun c => negb (Ascii.eqb c "/")) l.

(** A continuation that only looks at whether the subject is at the end
    of a level. *)
Definition boundary (K : list Regexp.piece)
           (kont : option (list ascii) -> bool) : Prop :=
  forall b t,
    Regexp.match_here K b t
    = match t with
      | [] => kont None
      | c :: r => if Ascii.eqb c "/" then kont (Some r) else false
      end.

Definition at_end (o : option (list ascii)) : bool :=
  match o with
  | None => true
  | Some _ => false
  end.

Definition at_sep (K : list Regexp.piece) (o : option (list ascii)) : bool :=
  match o with
  | None => false
  | Some r => Regexp.match_here K false r
  end.

(** *** Statements and constraints *)

(** A statement that keeps the constraints whenever it succeeds. *)
Definition keeps_constraints {A : Type} (run : statement A) : Prop :=
  forall now d a d',
    well_formed d -> run now d = Ok (a, d') -> well_formed d'.

(** A statement that only reads. *)
Definition reads_only {A : Type} (run : statement A) : Prop :=
  forall now d a d', run now d = Ok (a, d') -> d' = d.

(** *** Subscriptions, queues and wills as their readers see them *)

(** [{ topic, qos }] of a row, as [subscriptionsByClient] builds it. *)
Definition subscription_of_row (r : subscription_row) : subscription :=
  {| sub_topic := s_topic r; sub_qos := s_qos r |}.

(** What [outgoingUpdate] makes of a queued packet of its client. *)
Definition updated (pkt : packet) (m : Z) (o : outgoing_packet)
  : outgoing_packet :=
  if String.eqb (op_topic o) (topic pkt)
     && bytes_eqb (op_payload o) (payload pkt)
  then {| op_messageId := Some m;
          op_topic := op_topic o;
          op_payload := op_payload o;
          op_qos := op_qos o;
          op_retain := op_retain o;
          op_dup := or_false (dup pkt) |}
  else o.

(** The packet [getWill] hands over after [putWill]. *)
Definition will_of_packet (pkt : packet) : will_packet :=
  {| wp_topic := topic pkt;
     wp_payload := payload pkt;
     wp_qos := qos pkt;
     wp_retain := or_false (retain pkt) |}.

(** A client served by the broker [b]. *)
Definition client_of_broker (c b : string) : client :=
  {| id := c; client_broker := Some {| broker_id := b |} |}.

(** *** A store with some history *)

(** Rows of the subscription relation and of the queue, as a writer of
    these relations leaves them: keys from 1 on. *)
Definition holding_subscriptions (rs : list subscription_row) (w : world)
  : world :=
  with_db (with_subscriptions
             {| rows := rs; auto_increment := 1 + Z.of_nat (List.length rs) |}
             (db w)) w.

Definition holding_outgoing (rs : list outgoing_row) (w : world) : world :=
  with_db (with_outgoing
             {| rows := rs; auto_increment := 1 + Z.of_nat (List.length rs) |}
             (db w)) w.

Definition subscription_row_of (k : Z) (c t : string) (q : Z)
  : subscription_row :=
  {| s_id := k; s_client_id := c; s_topic := t; s_qos := q;
     s_created_at := 0 |}.

Definition queued (k : Z) (c : string) (pkt : packet) : outgoing_row :=
  {| o_id := k; o_client_id := c; o_message_id := or_null (messageId pkt);
     o_topic := topic pkt; o_payload := payload pkt; o_qos := qos pkt;
     o_retain_flag := or_false (retain pkt); o_dup_flag := or_false (dup pkt);
     o_created_at := 0 |}.

Definition client_c3 : client := client_of_broker "c3" "broker-1".

Definition sample_subscriptions : list subscription_row :=
  [subscription_row_of 1 "c1" "a/b" 0;
   subscription_row_of 2 "c1" "a/+" 1;
   subscription_row_of 3 "c2" "a/b" 2].

Definition sample_queue : list outgoing_row :=
  [queued 1 "c1" (publish "a/b" "first" 1);
   queued 2 "c1" (publish "a/c" "second" 1)].

Definition sample_steps : list step :=
  [SetupCompletes;
   Call (StoreRetained (publish "a/b" "on" 1));
   Call (StoreRetained (publish "a/c" "off" 0));
   Call (IncomingStorePacket client_c1 pubrel_7);
   Call (PutWill client_c1 (publish "last/c1" "gone" 1));
   Call (PutWill client_c3 (publish "last/c3" "gone" 0))].

(** The store that holds the sample subscriptions and the sample queue,
    after the sample steps. *)
Definition sample_world : world :=
  snd (run_all sample_steps
         (AedesPersistenceMySQL default_options,
          holding_outgoing sample_queue
            (holding_subscriptions sample_subscriptions fresh_world))).

(** The packet [first] of the sample queue, now with message id 11. *)
Definition first_with_id : packet :=
  {| topic := "a/b"; payload := Buffer_from "first"; qos := 1;
     messageId := Some 11; retain := None; dup := Some true |}.

(* ================================================================== *)
(** * Properties *)

(** ** The lifecycle gate *)

Lemma call_keeps_object (rq : request) (p : persistence) (w : world) :
  rq <> Destroy -> snd (fst (call rq p w)) = p.
Proof.
  destruct rq; intros Hrq; try reflexivity.
  now contradiction Hrq.
Qed.

Lemma gate_rejects (rq : request) (p : persistence) (w : world) :
  _ready p = false ->
  rq <> Destroy ->
  snd (call rq p w) = w
  /\ failure (fst (fst (call rq p w))) = Some not_ready.
Proof.
  intros Hr Hrq.
  destruct rq; try (now contradiction Hrq); cbn [call answer];
    unfold storeRetained, createRetainedStream, createRetainedStreamCombi,
      addSubscriptions, removeSubscriptions, subscriptionsByClient,
      countOffline, subscriptionsByTopic, cleanSubscriptions,
      outgoingEnqueue, outgoingEnqueueCombi, outgoingUpdate,
      outgoingClearMessageId, outgoingStream, incomingStorePacket,
      incomingGetPacket, incomingDelPacket, putWill, getWill, delWill,
      streamWill, getClientList;
    rewrite ?Hr; cbn; auto.
Qed.

Lemma destroy_again (p : persistence) (w : world) :
  _closed p = true -> destroy p w = (Ok tt, p, w).
Proof. intros Hc. unfold destroy. now rewrite Hc. Qed.

Lemma destroy_closes (p : persistence) (w : world) :
  _closed (snd (fst (destroy p w))) = true.
Proof. unfold destroy. destruct (_closed p) eqn:Hc; cbn; auto. Qed.

Lemma destroy_world (p : persistence) (w : world) : snd (destroy p w) = w.
Proof. unfold destroy. destruct (_closed p); reflexivity. Qed.

Lemma setup_flags (p : persistence) (w : world) :
  _closed (fst (_setup p w)) = _closed p
  /\ pool (fst (_setup p w)) = pool p.
Proof.
  unfold _setup, _createTables.
  destruct (provisioning w); [split; reflexivity|].
  destruct (subscriptions (ttl p)) as [n|]; [destruct (0 <? n)|];
    split; reflexivity.
Qed.

Lemma run_call (rq : request) (pw : persistence * world) :
  rq <> Destroy -> fst (run (Call rq) pw) = fst pw.
Proof.
  intros Hrq. cbn [run].
  pose proof (call_keeps_object rq (fst pw) (snd pw) Hrq) as Hk.
  destruct (call rq (fst pw) (snd pw)) as [[r p'] w']. exact Hk.
Qed.

Lemma run_destroy (pw : persistence * world) :
  run (Call Destroy) pw
  = (snd (fst (destroy (fst pw) (snd pw))), snd pw).
Proof.
  cbn [run call].
  pose proof (destroy_world (fst pw) (snd pw)) as Hw.
  destruct (destroy (fst pw) (snd pw)) as [[r p'] w']. cbn in *. now subst.
Qed.

Lemma request_eq_destroy (rq : request) : {rq = Destroy} + {rq <> Destroy}.
Proof. destruct rq; (now left) || (right; discriminate). Qed.

Lemma run_all_app (xs ys : list step) (pw : persistence * world) :
  run_all (xs ++ ys) pw = run_all ys (run_all xs pw).
Proof. unfold run_all. apply fold_left_app. Qed.

(** Only [destroy] closes an object, and nothing opens it again. *)
Lemma run_keeps_open (s : step) (pw : persistence * world) :
  s <> Call Destroy ->
  _closed (fst (run s pw)) = _closed (fst pw).
Proof.
  intros Hs. destruct s as [rq| |n|]; try reflexivity.
  - rewrite run_call; [reflexivity|]. intros ->. now apply Hs.
  - cbn [run]. apply setup_flags.
Qed.

Lemma run_keeps_closed (s : step) (pw : persistence * world) :
  _closed (fst pw) = true -> _closed (fst (run s pw)) = true.
Proof.
  intros Hc. destruct s as [rq| |n|]; try assumption.
  - destruct (request_eq_destroy rq) as [->|Hrq].
    + rewrite run_destroy. apply destroy_closes.
    + now rewrite run_call.
  - cbn [run]. now rewrite (proj1 (setup_flags _ _)).
Qed.

Lemma run_all_keeps_closed (steps : list step) (pw : persistence * world) :
  _closed (fst pw) = true -> _closed (fst (run_all steps pw)) = true.
Proof.
  revert pw. induction steps as [|s steps IH]; intros pw Hc; cbn.
  - assumption.
  - apply IH. now apply run_keeps_closed.
Qed.

(** Only the completion of provisioning makes an object ready. *)
Lemma run_keeps_not_ready (s : step) (pw : persistence * world) :
  s <> SetupCompletes ->
  _ready (fst pw) = false -> _ready (fst (run s pw)) = false.
Proof.
  intros Hs Hr. destruct s as [rq| |n|]; try assumption.
  - destruct (request_eq_destroy rq) as [->|Hrq].
    + rewrite run_destroy. unfold destroy.
      destruct (_closed (fst pw)); [assumption|reflexivity].
    + now rewrite run_call.
  - now contradiction Hs.
Qed.

Lemma run_all_keeps_not_ready (steps : list step) (pw : persistence * world) :
  ~ In SetupCompletes steps ->
  _ready (fst pw) = false -> _ready (fst (run_all steps pw)) = false.
Proof.
  revert pw. induction steps as [|s steps IH]; intros pw Hn Hr; cbn.
  - assumption.
  - apply IH.
    + intros Hin. apply Hn. now right.
    + apply run_keeps_not_ready; [|assumption].
      intros ->. apply Hn. now left.
Qed.

Lemma run_all_keeps_open (steps : list step) (pw : persistence * world) :
  ~ In (Call Destroy) steps ->
  _closed (fst (run_all steps pw)) = _closed (fst pw).
Proof.
  revert pw. induction steps as [|s steps IH]; intros pw Hn; cbn.
  - reflexivity.
  - rewrite IH.
    + apply run_keeps_open. intros ->. apply Hn. now left.
    + intros Hin. apply Hn. now right.
Qed.

(** The pool is ended by [destroy] and by nothing else. *)
Lemma run_keeps_pool_inv (s : step) (pw : persistence * world) :
  pool_inv (fst pw) -> pool_inv (fst (run s pw)).
Proof.
  unfold pool_inv. intros Hinv. destruct s as [rq| |n|]; try assumption.
  - destruct (request_eq_destroy rq) as [->|Hrq].
    + rewrite run_destroy. unfold destroy.
      destruct (_closed (fst pw)) eqn:Hc; cbn.
      * now rewrite Hc.
      * now rewrite Hinv.
    + now rewrite run_call.
  - cbn [run]. destruct (setup_flags (fst pw) (snd pw)) as [-> ->].
    assumption.
Qed.

Lemma run_all_keeps_pool_inv (steps : list step) (pw : persistence * world) :
  pool_inv (fst pw) -> pool_inv (fst (run_all steps pw)).
Proof.
  revert pw. induction steps as [|s steps IH]; intros pw Hc; cbn.
  - assumption.
  - apply IH. now apply run_keeps_pool_inv.
Qed.

Lemma constructor_pool_inv (opts : options) :
  pool_inv (AedesPersistenceMySQL opts).
Proof. reflexivity. Qed.

(** What the server and the driver will answer does not change. *)
Lemma call_keeps_answers (rq : request) (p : persistence) (w : world) :
  provisioning (snd (call rq p w)) = provisioning w
  /\ pool_end (snd (call rq p w)) = pool_end w.
Proof.
  assert (He : forall A (q : persistence) sql (st : statement A) v,
             provisioning (snd (execute q sql st v)) = provisioning v
             /\ pool_end (snd (execute q sql st v)) = pool_end v).
  { intros A q sql st v. unfold execute.
    destruct (pool q) as [[|]|]; [|split; reflexivity..].
    destruct (st (clock v) (db v)) as [[a d]|e]; split; reflexivity. }
  destruct (request_eq_destroy rq) as [->|Hrq].
  { cbn [call]. pose proof (destroy_world p w) as Hw.
    destruct (destroy p w) as [[r p'] w']. cbn in *. subst w'.
    split; reflexivity. }
  destruct rq; try (now contradiction Hrq); cbn [call answer snd];
    unfold storeRetained, createRetainedStream, createRetainedStreamCombi,
      addSubscriptions, removeSubscriptions, subscriptionsByClient,
      countOffline, subscriptionsByTopic, cleanSubscriptions,
      outgoingEnqueue, outgoingEnqueueCombi, outgoingUpdate,
      outgoingClearMessageId, outgoingStream, incomingStorePacket,
      incomingGetPacket, incomingDelPacket, putWill, getWill, delWill,
      streamWill, getClientList, then_, and_then;
    try (destruct (negb (_ready p)); [split; reflexivity|];
         pose proof (He _ p "SELECT COUNT(*) as count FROM aedes_subscriptions"
                        count_subscriptions w) as H1;
         destruct (execute p "SELECT COUNT(*) as count FROM aedes_subscriptions"
                           count_subscriptions w) as [r1 w1];
         pose proof (He _ p "SELECT COUNT(DISTINCT client_id) as count FROM aedes_subscriptions"
                        count_distinct_clients w1) as H2;
         destruct (execute p "SELECT COUNT(DISTINCT client_id) as count FROM aedes_subscriptions"
                           count_distinct_clients w1) as [r2 w2];
         cbn [snd] in *; destruct H1 as [<- <-];
         destruct r1; destruct r2; exact H2);
    repeat match goal with
      | |- context [if ?b then _ else _] => destruct b
      | |- context [match ?x with _ => _ end] =>
          lazymatch x with
          | execute _ _ _ _ => fail
          | _ => destruct x eqn:?
          end
      end;
    cbn [fst snd];
    try (split; reflexivity);
    try apply He.
Qed.

Lemma run_keeps_answers (s : step) (pw : persistence * world) :
  provisioning (snd (run s pw)) = provisioning (snd pw)
  /\ pool_end (snd (run s pw)) = pool_end (snd pw).
Proof.
  destruct s as [rq| |n|]; cbn [run]; try (split; reflexivity).
  - pose proof (call_keeps_answers rq (fst pw) (snd pw)) as H.
    destruct (call rq (fst pw) (snd pw)) as [[r p'] w']. exact H.
  - unfold _setup, _createTables.
    destruct (provisioning (snd pw)) eqn:E; [cbn; rewrite E; now split|].
    destruct (subscriptions (ttl (fst pw))) as [n|]; [destruct (0 <? n)|];
      cbn; rewrite ?E; split; reflexivity.
Qed.

Lemma run_all_keeps_answers (steps : list step) (pw : persistence * world) :
  provisioning (snd (run_all steps pw)) = provisioning (snd pw)
  /\ pool_end (snd (run_all steps pw)) = pool_end (snd pw).
Proof.
  revert pw. induction steps as [|s steps IH]; intros pw.
  - split; reflexivity.
  - change (run_all (s :: steps) pw) with (run_all steps (run s pw)).
    destruct (IH (run s pw)) as [-> ->]. apply run_keeps_answers.
Qed.

Lemma ready_persistence_serving : serving ready_persistence.
Proof. split; reflexivity. Qed.

(** C3, as stated, fails: the error [storeRetained] reports on an object
    that was ready and has been destroyed is the very error it reports on an
    object whose provisioning has not completed; [index.js] has no error
    of its own for the closed state. *)
Lemma closed_outcome_is_not_ready :
  let initializing := AedesPersistenceMySQL default_options in
  let closed := snd (fst (destroy ready_persistence fresh_world)) in
  let pkt := publish "a/b" "42" 1 in
  ~ distinguishable
      (failure (fst (fst (call (StoreRetained pkt) closed fresh_world))))
      (failure (fst (fst (call (StoreRetained pkt) initializing fresh_world)))).
Proof.
  cbv zeta. unfold distinguishable. intros H. apply H. reflexivity.
Qed.

(** C3, amended: take any history of an object up to its first [destroy],
    and any continuation in which the provisioning started by the
    constructor does not settle any more.  Every operation other than
    [destroy] then reports the "MySQL persistence not ready" error, the very
    error it reports on the object as constructed, sends no statement and
    leaves the store as it is; a later [destroy] succeeds and does
    nothing. *)
Theorem after_destroy_not_ready :
  forall (opts : options) (w0 : world) (before after : list step)
         (rq : request),
    ~ In (Call Destroy) before ->
    ~ In SetupCompletes after ->
    let pw := run_all (before ++ Call Destroy :: after)
                      (AedesPersistenceMySQL opts, w0) in
    let out := call rq (fst pw) (snd pw) in
    snd out = snd pw
    /\ failure (fst (fst out))
       = match rq with
         | Destroy => None
         | _ => Some not_ready
         end
    /\ failure (fst (fst (call rq (AedesPersistenceMySQL opts) w0)))
       = match rq with
         | Destroy => pool_end w0
         | _ => Some not_ready
         end.
Proof.
  intros opts w0 before after rq Hb Ha pw out.
  set (x := run_all before (AedesPersistenceMySQL opts, w0)).
  assert (Hpw : pw = run_all after (run (Call Destroy) x)).
  { subst pw x. now rewrite run_all_app. }
  assert (Hopen : _closed (fst x) = false).
  { subst x. now rewrite run_all_keeps_open. }
  assert (Hc : _closed (fst pw) = true).
  { rewrite Hpw. apply run_all_keeps_closed.
    rewrite run_destroy. apply destroy_closes. }
  assert (Hr : _ready (fst pw) = false).
  { rewrite Hpw. apply run_all_keeps_not_ready; [assumption|].
    rewrite run_destroy. unfold destroy. now rewrite Hopen. }
  destruct (request_eq_destroy rq) as [->|Hrq].
  - subst out. cbn [call]. rewrite (destroy_again _ _ Hc). cbn.
    repeat split. unfold destroy. cbn. now destruct (pool_end w0).
  - destruct (gate_rejects rq (fst pw) (snd pw) Hr Hrq) as [Hw Hf].
    destruct (gate_rejects rq (AedesPersistenceMySQL opts) w0 eq_refl Hrq)
      as [_ Hf0].
    subst out. rewrite Hw, Hf, Hf0.
    destruct rq; try (now contradiction Hrq); repeat split.
Qed.

Lemma after_destroy_not_ready_witness :
  let opts := default_options in
  let w0 := fresh_world in
  let pkt := publish "a/b" "42" 1 in
  let before := [SetupCompletes; Call (StoreRetained pkt)] in
  let after := [Tick 5; Call (StoreRetained pkt); Call Destroy] in
  let rq := StoreRetained pkt in
  let pw := run_all (before ++ Call Destroy :: after)
                    (AedesPersistenceMySQL opts, w0) in
  let out := call rq (fst pw) (snd pw) in
  snd out = snd pw
  /\ failure (fst (fst out)) = Some not_ready
  /\ failure (fst (fst (call rq (AedesPersistenceMySQL opts) w0)))
     = Some not_ready.
Proof.
  exact (after_destroy_not_ready
           default_options fresh_world
           [SetupCompletes; Call (StoreRetained (publish "a/b" "42" 1))]
           [Tick 5; Call (StoreRetained (publish "a/b" "42" 1)); Call Destroy]
           (StoreRetained (publish "a/b" "42" 1))
           ltac:(cbn; intuition discriminate)
           ltac:(cbn; intuition discriminate)).
Defined.

(* ------------------------------------------------------------------ *)
(** ** The expiry event *)

Lemma cleanup_event_spares_subscriptions (now n : Z) (d : database) :
  aedes_subscriptions (run_event now (cleanup_event n) d)
  = aedes_subscriptions d.
Proof. reflexivity. Qed.

(** The same event, had it named the provisioned relation, would remove
    the subscriptions older than its interval and keep the others. *)
Lemma event_on_provisioned_relation (now n : Z) (name : string) (d : database) :
  rows (aedes_subscriptions
          (run_event now
             {| ev_name := name; ev_every := 3600;
                ev_target := "aedes_subscriptions"; ev_older_than := n |} d))
  = filter (fun r => negb (s_created_at r <? now - n))
           (rows (aedes_subscriptions d)).
Proof. reflexivity. Qed.


(** C7: with [ttl.subscriptions = 600], provisioning installs the event
    [aedes_cleanup_subscriptions], but its statement names the relation
    [subscriptions] while the relation provisioned at lines 69-80 is
    [aedes_subscriptions]: a subscription row of second 0 is still there
    after the scheduler has fired at second 10000. *)
Theorem ttl_event_names_another_relation :
  let p := AedesPersistenceMySQL (options_with_subscription_ttl 600) in
  let stored :=
    holding_subscriptions
      [{| s_id := 1; s_client_id := "c1"; s_topic := "a/b"; s_qos := 1;
          s_created_at := 0 |}] fresh_world in
  let pw := run_all [SetupCompletes; Tick 10000; Scheduler] (p, stored) in
  events (db (snd pw))
  = [{| ev_name := "aedes_cleanup_subscriptions"; ev_every := 3600;
        ev_target := "subscriptions"; ev_older_than := 600 |}]
  /\ clock (snd pw) = 10000
  /\ rows (aedes_subscriptions (db (snd pw)))
     = [{| s_id := 1; s_client_id := "c1"; s_topic := "a/b"; s_qos := 1;
           s_created_at := 0 |}]
  /\ (forall now d,
        aedes_subscriptions (run_event now (cleanup_event 600) d)
        = aedes_subscriptions d).
Proof.
  cbv zeta. repeat split.
Qed.

(* ------------------------------------------------------------------ *)
(** ** The topic matcher on the examples of the specification *)

(** C2: [a/#] is compiled to [^a/.*$], which accepts [a/b] and [a/b/c] but
    not the parent level [a], which the reading of the specification
    accepts; a retained message at [a] is not delivered for the filter
    [a/#]. *)
Theorem hash_filter_misses_parent_level :
  sqlPattern "a/#" = "^a/.*$"
  /\ topic_matches "a/#" "a/b" = Some true
  /\ topic_matches "a/#" "a/b/c" = Some true
  /\ topic_matches "a/#" "a" = Some false
  /\ spec_accepts "a/#" "a" = true
  /\ (let p := ready_persistence in
      let w1 := snd (storeRetained p (publish "a" "1" 0) fresh_world) in
      let w2 := snd (storeRetained p (publish "a/b" "2" 0) w1) in
      let w3 := snd (storeRetained p (publish "a/b/c" "3" 0) w2) in
      fst (createRetainedStreamCombi p ["a/#"] w3)
      = Ok [{| rp_topic := "a/b"; rp_payload := Buffer_from "2"; rp_qos := 0 |};
            {| rp_topic := "a/b/c"; rp_payload := Buffer_from "3"; rp_qos := 0 |}]).
Proof.
  cbv zeta. repeat split; vm_compute; reflexivity.
Qed.

(** C1: the characters of a filter are copied into the pattern as they
    are.  The topic [a.b] also selects the subscription to [axb], and the
    topic [$SYS/up] does not select the subscription to [$SYS/up]. *)
Theorem literal_characters_are_not_escaped :
  sqlPattern "a.b" = "^a.b$"
  /\ sqlPattern "$SYS/up" = "^$SYS/up$"
  /\ (let p := ready_persistence in
      let w2 := holding_subscriptions
                  [{| s_id := 1; s_client_id := "c1"; s_topic := "a.b";
                      s_qos := 1; s_created_at := 0 |};
                   {| s_id := 2; s_client_id := "c2"; s_topic := "axb";
                      s_qos := 0; s_created_at := 0 |}] fresh_world in
      fst (subscriptionsByTopic p "a.b" w2)
      = Ok [{| cs_clientId := "c1"; cs_topic := "a.b"; cs_qos := 1 |};
            {| cs_clientId := "c2"; cs_topic := "axb"; cs_qos := 0 |}])
  /\ (let p := ready_persistence in
      let w1 := holding_subscriptions
                  [{| s_id := 1; s_client_id := "c1"; s_topic := "$SYS/up";
                      s_qos := 1; s_created_at := 0 |}] fresh_world in
      rows (aedes_subscriptions (db w1))
      = [{| s_id := 1; s_client_id := "c1"; s_topic := "$SYS/up"; s_qos := 1;
            s_created_at := 0 |}]
      /\ fst (subscriptionsByTopic p "$SYS/up" w1) = Ok []).
Proof.
  cbv zeta. repeat split; vm_compute; reflexivity.
Qed.

(** C4: a retained message stored at [$SYS/up] is not found again by
    [createRetainedStreamCombi(['$SYS/up'])], and one stored at [a.b] comes
    back together with the one stored at [axb]; the row for a topic is
    replaced by a second [storeRetained]. *)
Theorem retained_round_trip_breaks_on_pattern_characters :
  (let p := ready_persistence in
   let w1 := snd (storeRetained p (publish "$SYS/up" "42" 1) fresh_world) in
   rows (aedes_retained (db w1))
   = [{| r_id := 1; r_topic := "$SYS/up"; r_payload := Buffer_from "42";
         r_qos := 1; r_created_at := 0 |}]
   /\ fst (createRetainedStreamCombi p ["$SYS/up"] w1) = Ok [])
  /\ (let p := ready_persistence in
      let w1 := snd (storeRetained p (publish "axb" "1" 0) fresh_world) in
      let w2 := snd (storeRetained p (publish "a.b" "2" 1) w1) in
      fst (createRetainedStreamCombi p ["a.b"] w2)
      = Ok [{| rp_topic := "axb"; rp_payload := Buffer_from "1"; rp_qos := 0 |};
            {| rp_topic := "a.b"; rp_payload := Buffer_from "2"; rp_qos := 1 |}])
  /\ (let p := ready_persistence in
      let w1 := snd (storeRetained p (publish "a/b" "1" 0) fresh_world) in
      let w2 := snd (storeRetained p (publish "a/b" "2" 1) w1) in
      rows (aedes_retained (db w2))
      = [{| r_id := 1; r_topic := "a/b"; r_payload := Buffer_from "2";
            r_qos := 1; r_created_at := 0 |}]).
Proof.
  cbv zeta. repeat split; vm_compute; reflexivity.
Qed.

(* ------------------------------------------------------------------ *)
(** ** Statements on one relation *)

Section TableFacts.
Context {R : Type}.
Implicit Types (t : table R) (conflict cond : R -> bool) (update : R -> R).

Lemma filter_none (f : R -> bool) (l : list R) :
  (forall x, In x l -> f x = false) -> filter f l = [].
Proof.
  induction l as [|x l IH]; intros H; cbn; [reflexivity|].
  rewrite (H x (or_introl eq_refl)). apply IH. intros y Hy. apply H. now right.
Qed.

Lemma existsb_false (f : R -> bool) (l : list R) :
  existsb f l = false -> forall x, In x l -> f x = false.
Proof.
  intros H x Hx. destruct (f x) eqn:E; [|reflexivity].
  assert (existsb f l = true) by (apply existsb_exists; eauto). congruence.
Qed.

Lemma insert_on_duplicate_in conflict update fresh t r :
  In r (rows (insert_on_duplicate conflict update fresh t)) ->
  (exists x, In x (rows t)
             /\ r = (if conflict x then update x else x)
             /\ existsb conflict (rows t) = true)
  \/ (existsb conflict (rows t) = false
      /\ (In r (rows t) \/ r = fresh (auto_increment t))).
Proof.
  unfold insert_on_duplicate, insert.
  destruct (existsb conflict (rows t)) eqn:E; cbn; intros H.
  - left. apply in_map_iff in H. destruct H as (x & <- & Hx). eauto.
  - right. split; [reflexivity|]. apply in_app_or in H.
    destruct H as [H|[H|[]]]; auto.
Qed.

Lemma insert_on_duplicate_stores conflict update fresh t :
  (forall x, conflict x = true -> conflict (update x) = true) ->
  conflict (fresh (auto_increment t)) = true ->
  exists r, In r (rows (insert_on_duplicate conflict update fresh t))
            /\ conflict r = true
            /\ ((exists x, In x (rows t) /\ conflict x = true /\ r = update x)
                \/ r = fresh (auto_increment t)).
Proof.
  intros Hu Hf. unfold insert_on_duplicate, insert.
  destruct (existsb conflict (rows t)) eqn:E; cbn.
  - apply existsb_exists in E. destruct E as (x & Hx & Hc).
    exists (update x). repeat split; eauto.
    apply in_map_iff. exists x. now rewrite Hc.
  - exists (fresh (auto_increment t)). repeat split; auto.
    apply in_or_app. right. now left.
Qed.

End TableFacts.

(* ------------------------------------------------------------------ *)
(** ** Lookups without a row *)

Lemma execute_serving {A : Type} (p : persistence) (sql : string)
      (run : statement A) (w : world) :
  serving p ->
  execute p sql run w
  = match run (clock w) (db w) with
    | Ok (a, d) => (Ok a, with_db d (logged sql w))
    | Err e => (Err e, logged sql w)
    end.
Proof. intros [_ Hp]. unfold execute. now rewrite Hp. Qed.



(* ------------------------------------------------------------------ *)
(** ** Wills without an owning broker *)

(** C10: [putWill] for a client without [broker] stores the will with a
    null [broker_id]; every row of that client then has a null
    [broker_id], and [streamWill] delivers, for any [brokers], only wills
    with a non-null [brokerId], none of which belongs to that client. *)
Theorem will_without_broker_is_never_streamed :
  forall (B : Type) (p : persistence) (w : world) (c : client) (pkt : packet)
         (brokers : list (string * B)),
    serving p ->
    client_broker c = None ->
    let w1 := snd (putWill p c pkt w) in
    fst (putWill p c pkt w) = Ok tt
    /\ (exists r, In r (rows (aedes_will (db w1)))
                  /\ w_client_id r = id c
                  /\ w_broker_id r = None
                  /\ w_topic r = topic pkt
                  /\ w_payload r = payload pkt)
    /\ (forall r, In r (rows (aedes_will (db w1))) ->
                  w_client_id r = id c -> w_broker_id r = None)
    /\ (exists items,
          fst (streamWill p brokers w1) = Ok items
          /\ forall e, In e items ->
                       we_brokerId e <> None /\ we_clientId e <> id c).
Proof.
  intros B p w c pkt brokers Hs Hb w1.
  pose proof Hs as [Hr _].
  assert (Hput : putWill p c pkt w
                 = (Ok tt,
                    with_db
                      (with_will
                         (insert_on_duplicate
                            (fun r => String.eqb (w_client_id r) (id c))
                            (fun r => {| w_id := w_id r;
                                         w_client_id := w_client_id r;
                                         w_topic := topic pkt;
                                         w_payload := payload pkt;
                                         w_qos := qos pkt;
                                         w_retain_flag := or_false (retain pkt);
                                         w_broker_id := None;
                                         w_created_at := clock w |})
                            (fun k => {| w_id := k; w_client_id := id c;
                                         w_topic := topic pkt;
                                         w_payload := payload pkt;
                                         w_qos := qos pkt;
                                         w_retain_flag := or_false (retain pkt);
                                         w_broker_id := None;
                                         w_created_at := clock w |})
                            (aedes_will (db w))) (db w))
                      (logged
                         "INSERT INTO aedes_will (client_id, topic, payload, qos, retain_flag, broker_id) VALUES (?, ?, ?, ?, ?, ?) ON DUPLICATE KEY UPDATE topic = VALUES(topic), payload = VALUES(payload), qos = VALUES(qos), retain_flag = VALUES(retain_flag), broker_id = VALUES(broker_id), created_at = CURRENT_TIMESTAMP"
                         w))).
  { unfold putWill. rewrite Hr, Hb. cbn [negb].
    rewrite execute_serving by assumption. reflexivity. }
  assert (Hall : forall r, In r (rows (aedes_will (db w1))) ->
                           w_client_id r = id c -> w_broker_id r = None).
  { subst w1. rewrite Hput. cbn [snd db with_db with_will aedes_will].
    intros r Hin Hc. apply insert_on_duplicate_in in Hin.
    destruct Hin as [(x & Hx & -> & _)|(He & [Hx| ->])].
    - destruct (String.eqb_spec (w_client_id x) (id c)); [reflexivity|].
      contradiction.
    - apply (existsb_false _ _ He) in Hx. cbn in Hx.
      apply String.eqb_neq in Hx. contradiction.
    - reflexivity. }
  repeat split.
  - now rewrite Hput.
  - subst w1. rewrite Hput. cbn [snd db with_db with_will aedes_will].
    destruct (insert_on_duplicate_stores
                (fun r => String.eqb (w_client_id r) (id c))
                (fun r => {| w_id := w_id r; w_client_id := w_client_id r;
                             w_topic := topic pkt; w_payload := payload pkt;
                             w_qos := qos pkt;
                             w_retain_flag := or_false (retain pkt);
                             w_broker_id := None; w_created_at := clock w |})
                (fun k => {| w_id := k; w_client_id := id c;
                             w_topic := topic pkt; w_payload := payload pkt;
                             w_qos := qos pkt;
                             w_retain_flag := or_false (retain pkt);
                             w_broker_id := None; w_created_at := clock w |})
                (aedes_will (db w)))
      as (r & Hin & Hc & Hshape).
    + intros x Hx. exact Hx.
    + cbn. apply String.eqb_refl.
    + exists r. split; [exact Hin|].
      apply String.eqb_eq in Hc.
      destruct Hshape as [(x & _ & _ & ->)| ->]; cbn; auto.
  - exact Hall.
  - unfold streamWill. rewrite Hr. cbn [negb].
    destruct (List.length (Object_keys brokers) =? 0)%nat.
    + exists []. split; [reflexivity|]. intros e [].
    + rewrite execute_serving by assumption.
      unfold select_will_by_brokers, then_. cbn [fst map_result].
      eexists. split; [reflexivity|].
      intros e He. apply in_map_iff in He. destruct He as (r & <- & Hin).
      unfold select_where in Hin. apply filter_In in Hin.
      destruct Hin as [Hin Hsel]. cbn.
      assert (Hnn : w_broker_id r <> None).
      { intros E. rewrite E in Hsel. discriminate. }
      split; [exact Hnn|].
      intros Hc. apply Hnn. now apply Hall.
Qed.

Lemma will_without_broker_is_never_streamed_witness :
  let pkt := publish "last/will" "gone" 1 in
  let w1 := snd (putWill ready_persistence client_c1 pkt fresh_world) in
  fst (putWill ready_persistence client_c1 pkt fresh_world) = Ok tt
  /\ (exists r, In r (rows (aedes_will (db w1)))
                /\ w_client_id r = "c1"
                /\ w_broker_id r = None
                /\ w_topic r = "last/will"
                /\ w_payload r = Buffer_from "gone")
  /\ (forall r, In r (rows (aedes_will (db w1))) ->
                w_client_id r = "c1" -> w_broker_id r = None)
  /\ (exists items,
        fst (streamWill ready_persistence [("broker-1", 0); ("null", 0)] w1)
        = Ok items
        /\ forall e, In e items ->
                     we_brokerId e <> None /\ we_clientId e <> "c1").
Proof.
  apply (@will_without_broker_is_never_streamed Z ready_persistence fresh_world
           client_c1 (publish "last/will" "gone" 1)
           [("broker-1", 0); ("null", 0)]).
  - split; reflexivity.
  - reflexivity.
Defined.

(* ------------------------------------------------------------------ *)
(** ** Unique keys *)

Section UniqueKeys.
Context {R K : Type}.
Variable ukey : R -> K.

Lemma unique_select (cond : R -> bool) (k : K) (l : list R) (r : R) :
  NoDup (map ukey l) ->
  (forall x, cond x = true <-> ukey x = k) ->
  In r l -> cond r = true ->
  filter cond l = [r].
Proof.
  intros Hnd Hcond. induction l as [|x l IH]; intros Hin Hr; [contradiction|].
  cbn in Hnd. inversion Hnd as [|? ? Hnotin Hnd']; subst.
  cbn. destruct Hin as [->|Hin].
  - rewrite Hr. f_equal. apply filter_none.
    intros y Hy. destruct (cond y) eqn:E; [|reflexivity].
    exfalso. apply Hnotin.
    apply Hcond in E. apply Hcond in Hr. rewrite Hr, <- E.
    now apply in_map.
  - destruct (cond x) eqn:E.
    + exfalso. apply Hnotin.
      apply Hcond in E. apply Hcond in Hr. rewrite E, <- Hr.
      now apply in_map.
    + now apply IH.
Qed.

Lemma NoDup_map_filter (f : R -> bool) (l : list R) :
  NoDup (map ukey l) -> NoDup (map ukey (filter f l)).
Proof.
  induction l as [|x l IH]; intros Hnd; cbn; [constructor|].
  cbn in Hnd. inversion Hnd as [|? ? Hnotin Hnd']; subst.
  destruct (f x); cbn; [constructor|]; auto.
  intros Hin. apply Hnotin. apply in_map_iff in Hin.
  destruct Hin as (y & Hy & Hin). apply filter_In in Hin.
  apply in_map_iff. exists y. tauto.
Qed.

Lemma map_key_update (cond : R -> bool) (update : R -> R) (l : list R) :
  (forall r, ukey (update r) = ukey r) ->
  map ukey (map (fun r => if cond r then update r else r) l) = map ukey l.
Proof.
  intros Hu. rewrite map_map. apply map_ext.
  intros r. destruct (cond r); auto.
Qed.

Lemma NoDup_insert_on_duplicate (conflict : R -> bool) (update : R -> R)
      (fresh : Z -> R) (t : table R) :
  (forall r, ukey (update r) = ukey r) ->
  (forall r, conflict r = true <-> ukey r = ukey (fresh (auto_increment t))) ->
  NoDup (map ukey (rows t)) ->
  NoDup (map ukey (rows (insert_on_duplicate conflict update fresh t))).
Proof.
  intros Hu Hc Hnd. unfold insert_on_duplicate, insert.
  destruct (existsb conflict (rows t)) eqn:E; cbn.
  - now rewrite map_key_update.
  - rewrite map_app. cbn.
    apply NoDup_app; [assumption|repeat constructor; intros []|].
    intros k Hk [<-|[]].
    apply in_map_iff in Hk. destruct Hk as (x & Hx & Hin).
    apply Hc in Hx. pose proof (existsb_false _ _ E x Hin). congruence.
Qed.

End UniqueKeys.

(* ------------------------------------------------------------------ *)
(** ** The incoming store *)

Lemma incoming_key_spec (c : client) (m : Z) (r : incoming_row) :
  incoming_key c m r = true
  <-> (i_client_id r, i_message_id r) = (id c, m).
Proof.
  unfold incoming_key. rewrite andb_true_iff, String.eqb_eq, Z.eqb_eq.
  split; [intros [-> ->]; reflexivity|intros E; now inversion E].
Qed.

Lemma incomingStorePacket_serving (p : persistence) (c : client) (pkt : packet)
      (m : Z) (w : world) :
  serving p -> messageId pkt = Some m ->
  exists w', incomingStorePacket p c pkt w = (Ok pkt, w')
             /\ db w'
                = with_incoming
                    (stored_incoming (clock w) c m pkt (aedes_incoming (db w)))
                    (db w)
             /\ clock w' = clock w.
Proof.
  intros Hs Hm. pose proof Hs as [Hr _].
  unfold incomingStorePacket. rewrite Hr, Hm. cbn [negb].
  rewrite execute_serving by assumption.
  eexists. split; [reflexivity|]. split; reflexivity.
Qed.

(** After a store, every row under the key carries the packet. *)
Lemma stored_incoming_rows (now : Z) (c : client) (m : Z) (pkt : packet)
      (t : table incoming_row) (r : incoming_row) :
  In r (rows (stored_incoming now c m pkt t)) ->
  incoming_key c m r = true ->
  i_topic r = topic pkt /\ i_payload r = payload pkt /\ i_qos r = qos pkt.
Proof.
  unfold stored_incoming. intros Hin Hk.
  apply insert_on_duplicate_in in Hin.
  destruct Hin as [(x & Hx & -> & _)|(He & [Hx| ->])].
  - unfold incoming_key in Hk.
    destruct (String.eqb (i_client_id x) (id c) && (i_message_id x =? m)) eqn:E.
    + cbn. auto.
    + congruence.
  - apply (existsb_false _ _ He) in Hx. unfold incoming_key in Hk. congruence.
  - cbn. auto.
Qed.

Lemma stored_incoming_again (now now' : Z) (c : client) (m : Z) (pkt : packet)
      (t : table incoming_row) :
  stored_incoming now' c m pkt (stored_incoming now c m pkt t)
  = stored_incoming now c m pkt t.
Proof.
  set (t1 := stored_incoming now c m pkt t).
  assert (Hex : existsb (incoming_key c m) (rows t1) = true).
  { destruct (insert_on_duplicate_stores
                (incoming_key c m)
                (fun r => {| i_id := i_id r; i_client_id := i_client_id r;
                             i_message_id := i_message_id r;
                             i_topic := topic pkt; i_payload := payload pkt;
                             i_qos := qos pkt;
                             i_created_at := i_created_at r |})
                (fun k => {| i_id := k; i_client_id := id c;
                             i_message_id := m; i_topic := topic pkt;
                             i_payload := payload pkt; i_qos := qos pkt;
                             i_created_at := now |}) t)
      as (r & Hin & Hk & _).
    - intros x Hx. exact Hx.
    - unfold incoming_key. cbn. now rewrite String.eqb_refl, Z.eqb_refl.
    - apply existsb_exists. exists r. split; assumption. }
  unfold stored_incoming at 1. unfold insert_on_duplicate.
  fold (incoming_key c m). rewrite Hex.
  destruct t1 as [rs k] eqn:Et. cbn [rows auto_increment]. f_equal.
  assert (Hrows : forall r, In r rs -> incoming_key c m r = true ->
                            i_topic r = topic pkt /\ i_payload r = payload pkt
                            /\ i_qos r = qos pkt).
  { intros r Hin. apply (stored_incoming_rows now c m pkt t).
    fold t1. rewrite Et. exact Hin. }
  clear Hex Et. induction rs as [|r rs IH]; cbn; [reflexivity|].
  rewrite IH by (intros x Hx; apply Hrows; now right). f_equal.
  pose proof (Hrows r (or_introl eq_refl)) as Hr. unfold incoming_key in Hr.
  destruct (String.eqb (i_client_id r) (id c) && (i_message_id r =? m));
    [|reflexivity].
  destruct (Hr eq_refl) as (<- & <- & <-).
  now destruct r.
Qed.

(** C6: storing the same packet twice under (client, message id) leaves the
    store exactly as the first store left it, with exactly one row under
    that key, and [incomingGetPacket], asked with any packet that carries
    the message id, hands the stored packet back. *)
Theorem store_incoming_twice :
  forall (p : persistence) (w : world) (c : client) (pkt lookup : packet)
         (m : Z),
    serving p ->
    well_formed (db w) ->
    messageId pkt = Some m ->
    messageId lookup = Some m ->
    let w1 := snd (incomingStorePacket p c pkt w) in
    let w2 := snd (incomingStorePacket p c pkt w1) in
    fst (incomingStorePacket p c pkt w) = Ok pkt
    /\ fst (incomingStorePacket p c pkt w1) = Ok pkt
    /\ db w2 = db w1
    /\ (exists r,
          select_where (incoming_key c m) (aedes_incoming (db w2)) = [r]
          /\ i_topic r = topic pkt
          /\ i_payload r = payload pkt
          /\ i_qos r = qos pkt)
    /\ fst (incomingGetPacket p c lookup w2)
       = Ok {| ip_messageId := m; ip_topic := topic pkt;
               ip_payload := payload pkt; ip_qos := qos pkt |}.
Proof.
  intros p w c pkt lookup m Hs Hwf Hm Hl w1 w2.
  destruct (incomingStorePacket_serving p c pkt m w Hs Hm)
    as (w1' & E1 & Hdb1 & Hck1).
  assert (Ew1 : w1 = w1') by (subst w1; now rewrite E1). 
  destruct (incomingStorePacket_serving p c pkt m w1 Hs Hm)
    as (w2' & E2 & Hdb2 & Hck2).
  assert (Ew2 : w2 = w2') by (subst w2; now rewrite E2).
  rewrite <- Ew1 in Hdb1. rewrite <- Ew2 in Hdb2.
  assert (Hsame : db w2 = db w1).
  { rewrite Hdb2, Hdb1. cbn [with_incoming aedes_incoming].
    rewrite stored_incoming_again. reflexivity. }
  set (t1 := stored_incoming (clock w) c m pkt (aedes_incoming (db w))).
  assert (Ht1 : aedes_incoming (db w2) = t1) by (rewrite Hsame, Hdb1; reflexivity).
  assert (Hnd : NoDup (map (fun r => (i_client_id r, i_message_id r)) (rows t1))).
  { apply NoDup_insert_on_duplicate.
    - reflexivity.
    - intros r. cbn. apply (incoming_key_spec c m r).
    - apply Hwf. }
  destruct (insert_on_duplicate_stores
              (incoming_key c m)
              (fun r => {| i_id := i_id r; i_client_id := i_client_id r;
                           i_message_id := i_message_id r;
                           i_topic := topic pkt; i_payload := payload pkt;
                           i_qos := qos pkt;
                           i_created_at := i_created_at r |})
              (fun k => {| i_id := k; i_client_id := id c;
                           i_message_id := m; i_topic := topic pkt;
                           i_payload := payload pkt; i_qos := qos pkt;
                           i_created_at := clock w |}) (aedes_incoming (db w)))
    as (r & Hin & Hk & _).
  { intros x Hx. exact Hx. }
  { unfold incoming_key. cbn. now rewrite String.eqb_refl, Z.eqb_refl. }
  fold (stored_incoming (clock w) c m pkt (aedes_incoming (db w))) in Hin.
  fold t1 in Hin.
  assert (Hsel : select_where (incoming_key c m) t1 = [r]).
  { unfold select_where.
    apply (unique_select (fun r => (i_client_id r, i_message_id r))
                         (incoming_key c m) (id c, m)); auto.
    intros x. apply incoming_key_spec. }
  destruct (stored_incoming_rows (clock w) c m pkt _ r Hin Hk) as (Ht & Hp & Hq).
  repeat split.
  - now rewrite E1.
  - fold w1. now rewrite E2.
  - exact Hsame.
  - exists r. rewrite Ht1. auto.
  - pose proof Hs as [Hr _].
    unfold incomingGetPacket. rewrite Hr, Hl. cbn [negb].
    rewrite execute_serving by assumption.
    unfold select_incoming, and_then. cbn [fst].
    rewrite Ht1. fold (incoming_key c m). rewrite Hsel.
    unfold incoming_of_row. rewrite Ht, Hp, Hq.
    apply incoming_key_spec in Hk. inversion Hk as [[Hc Hmid]].
    reflexivity.
Qed.

Lemma empty_database_well_formed : well_formed empty_database.
Proof.
  split; try (split; constructor); constructor.
Qed.

Lemma store_incoming_twice_witness :
  let w1 := snd (incomingStorePacket ready_persistence client_c1 pubrel_7
                   fresh_world) in
  let w2 := snd (incomingStorePacket ready_persistence client_c1 pubrel_7 w1) in
  fst (incomingStorePacket ready_persistence client_c1 pubrel_7 fresh_world)
  = Ok pubrel_7
  /\ fst (incomingStorePacket ready_persistence client_c1 pubrel_7 w1)
     = Ok pubrel_7
  /\ db w2 = db w1
  /\ (exists r,
        select_where (incoming_key client_c1 7) (aedes_incoming (db w2)) = [r]
        /\ i_topic r = "a/b"
        /\ i_payload r = Buffer_from "42"
        /\ i_qos r = 2)
  /\ fst (incomingGetPacket ready_persistence client_c1
            {| topic := EmptyString; payload := []; qos := 0;
               messageId := Some 7; retain := None; dup := None |} w2)
     = Ok {| ip_messageId := 7; ip_topic := "a/b";
             ip_payload := Buffer_from "42"; ip_qos := 2 |}.
Proof.
  apply (@store_incoming_twice ready_persistence fresh_world client_c1
           pubrel_7
           {| topic := EmptyString; payload := []; qos := 0;
              messageId := Some 7; retain := None; dup := None |} 7).
  - split; reflexivity.
  - exact empty_database_well_formed.
  - reflexivity.
  - reflexivity.
Defined.

(* ------------------------------------------------------------------ *)
(** ** The offline queue *)

Section Ordering.
Context {R : Type}.
Variable key : R -> Z.

Lemma order_by_sorted (l : list R) :
  StronglySorted Z.lt (map key l) -> order_by key l = l.
Proof.
  induction l as [|x l IH]; intros Hs; [reflexivity|].
  cbn in Hs. inversion Hs as [|? ? Hs' Hall]; subst.
  unfold order_by in *. cbn. rewrite (IH Hs').
  destruct l as [|y l]; [reflexivity|].
  cbn. inversion Hall as [|? ? Hlt _]; subst.
  apply Z.ltb_lt in Hlt. now rewrite Hlt.
Qed.

Lemma sorted_filter (f : R -> bool) (l : list R) :
  StronglySorted Z.lt (map key l) ->
  StronglySorted Z.lt (map key (filter f l)).
Proof.
  induction l as [|x l IH]; intros Hs; cbn; [constructor|].
  cbn in Hs. inversion Hs as [|? ? Hs' Hall]; subst.
  destruct (f x); cbn; [|auto].
  constructor; [auto|].
  rewrite Forall_forall in *. intros k Hk. apply Hall.
  apply in_map_iff in Hk. destruct Hk as (y & <- & Hy).
  apply filter_In in Hy. apply in_map. tauto.
Qed.

Lemma sorted_app (l1 l2 : list Z) :
  StronglySorted Z.lt l1 -> StronglySorted Z.lt l2 ->
  (forall a b, In a l1 -> In b l2 -> a < b) ->
  StronglySorted Z.lt (l1 ++ l2).
Proof.
  induction l1 as [|x l1 IH]; intros H1 H2 Hlt; cbn; [assumption|].
  inversion H1 as [|? ? H1' Hall]; subst.
  constructor.
  - apply IH; auto. intros a b Ha Hb. apply Hlt; [now right|assumption].
  - apply Forall_app. split; [assumption|].
    apply Forall_forall. intros b Hb. apply Hlt; [now left|assumption].
Qed.

Lemma ascending_insert (fresh : Z -> R) (t : table R) :
  (forall k, key (fresh k) = k) ->
  ascending key t -> ascending key (insert fresh t).
Proof.
  intros Hk [Hs Hb]. unfold ascending, insert. cbn [rows auto_increment].
  split.
  - rewrite map_app. apply sorted_app; [assumption|repeat constructor|].
    intros a b Ha [<-|[]]. rewrite Hk.
    apply in_map_iff in Ha. destruct Ha as (r & <- & Hr).
    rewrite Forall_forall in Hb. now apply Hb.
  - apply Forall_app. split.
    + eapply Forall_impl; [|exact Hb]. cbn. intros r Hr. lia.
    + repeat constructor. rewrite Hk. lia.
Qed.

Lemma ascending_map (cond : R -> bool) (update : R -> R) (t : table R) :
  (forall r, key (update r) = key r) ->
  ascending key t -> ascending key (update_where cond update t).
Proof.
  intros Hu [Hs Hb]. unfold ascending, update_where. cbn [rows auto_increment].
  split.
  - now rewrite map_key_update.
  - apply Forall_map. eapply Forall_impl; [|exact Hb].
    cbn. intros r Hr. destruct (cond r); [rewrite Hu|]; assumption.
Qed.

Lemma ascending_insert_on_duplicate (conflict : R -> bool) (update : R -> R)
      (fresh : Z -> R) (t : table R) :
  (forall r, key (update r) = key r) ->
  (forall k, key (fresh k) = k) ->
  ascending key t -> ascending key (insert_on_duplicate conflict update fresh t).
Proof.
  intros Hu Hk Ha. unfold insert_on_duplicate.
  destruct (existsb conflict (rows t)).
  - now apply (ascending_map conflict update t).
  - now apply ascending_insert.
Qed.

Lemma ascending_delete_where (cond : R -> bool) (t : table R) :
  ascending key t -> ascending key (delete_where cond t).
Proof.
  intros [Hs Hb]. unfold ascending, delete_where. cbn [rows auto_increment].
  split.
  - now apply sorted_filter.
  - rewrite Forall_forall in *. intros r Hr. apply Hb.
    apply filter_In in Hr. tauto.
Qed.

End Ordering.

Lemma outgoingStream_serving (p : persistence) (c : client) (w : world) :
  serving p ->
  ascending o_id (aedes_outgoing (db w)) ->
  fst (outgoingStream p c w)
  = Ok (map outgoing_of_row
            (filter (fun r => String.eqb (o_client_id r) (id c))
                    (rows (aedes_outgoing (db w))))).
Proof.
  intros Hs [Hsorted _]. pose proof Hs as [Hr _].
  unfold outgoingStream. rewrite Hr. cbn [negb].
  rewrite execute_serving by assumption.
  unfold select_outgoing, select_where, then_. cbn.
  rewrite order_by_sorted; [reflexivity|].
  now apply sorted_filter.
Qed.

(** What becomes of the statement of [outgoingEnqueueCombi] on a serving
    object: it is sent, and the server rejects it. *)
Lemma outgoingEnqueueCombi_serving (p : persistence)
      (sub : client_subscription) (subs : list client_subscription)
      (pkt : packet) (w : world) :
  serving p ->
  outgoingEnqueueCombi p (sub :: subs) pkt w
  = (Err syntax_error,
     logged "INSERT INTO aedes_outgoing (client_id, message_id, topic, payload, qos, retain_flag, dup_flag) VALUES ?" w).
Proof.
  intros Hs. pose proof Hs as [Hr _].
  unfold outgoingEnqueueCombi. rewrite Hr. cbn [negb map List.length Nat.eqb].
  now rewrite execute_serving by assumption.
Qed.

Lemma outgoingStream_reads (p : persistence) (c : client) (w w' : world) :
  db w' = db w -> clock w' = clock w ->
  fst (outgoingStream p c w') = fst (outgoingStream p c w).
Proof.
  intros Hd Hc. unfold outgoingStream, then_, execute.
  destruct (negb (_ready p)); [reflexivity|].
  destruct (pool p) as [[|]|]; try reflexivity.
  rewrite Hd, Hc.
  now destruct (select_outgoing (id c) (clock w) (db w)) as [[a d]|e].
Qed.

(** C5: [outgoingEnqueueCombi] sends [INSERT ... VALUES ?] through
    [pool.execute]; the text is prepared as it is written and the server
    rejects it.  On a ready object over a fresh store, [P1] and then [P2]
    enqueued for the client [c1] both end with the error of the server, the
    queue stays empty and [outgoingStream] delivers neither of them.  On any
    object and any store, a call with at least one subscription fails and
    leaves the store and the stream of every client as they were. *)
Theorem enqueued_packets_are_not_stored :
  (let p := ready_persistence in
   let to_c1 := {| cs_clientId := "c1"; cs_topic := "a/+"; cs_qos := 1 |} in
   let P1 := publish "a/b" "first" 1 in
   let P2 := publish "a/c" "second" 1 in
   let w1 := snd (outgoingEnqueueCombi p [to_c1] P1 fresh_world) in
   let w2 := snd (outgoingEnqueueCombi p [to_c1] P2 w1) in
   fst (outgoingEnqueueCombi p [to_c1] P1 fresh_world) = Err syntax_error
   /\ fst (outgoingEnqueueCombi p [to_c1] P2 w1) = Err syntax_error
   /\ executed w2
      = ["INSERT INTO aedes_outgoing (client_id, message_id, topic, payload, qos, retain_flag, dup_flag) VALUES ?";
         "INSERT INTO aedes_outgoing (client_id, message_id, topic, payload, qos, retain_flag, dup_flag) VALUES ?"]
   /\ rows (aedes_outgoing (db w2)) = []
   /\ fst (outgoingStream p client_c1 w2) = Ok [])
  /\ (forall (p : persistence) (w : world) (sub : client_subscription)
             (subs : list client_subscription) (pkt : packet) (c : client),
        let out := outgoingEnqueueCombi p (sub :: subs) pkt w in
        (exists e, fst out = Err e)
        /\ db (snd out) = db w
        /\ fst (outgoingStream p c (snd out)) = fst (outgoingStream p c w)).
Proof.
  split; [cbv zeta; repeat split|].
  intros p w sub subs pkt c out.
  assert (H : (exists e, fst out = Err e)
              /\ db (snd out) = db w /\ clock (snd out) = clock w).
  { subst out. unfold outgoingEnqueueCombi, execute, insert_outgoing.
    destruct (negb (_ready p)); [cbn; eauto|].
    cbn [map List.length Nat.eqb].
    destruct (pool p) as [[|]|]; cbn; eauto. }
  destruct H as (He & Hd & Hc).
  repeat split; try assumption.
  now apply outgoingStream_reads.
Qed.

(* ------------------------------------------------------------------ *)
(** ** The topic matcher, level by level *)

Lemma list_ascii_of_string_app (a b : string) :
  list_ascii_of_string (a ++ b)
  = (list_ascii_of_string a ++ list_ascii_of_string b)%list.
Proof. induction a as [|c a IH]; cbn; [reflexivity|now rewrite IH]. Qed.

Lemma sqlPattern_chars (f : string) :
  list_ascii_of_string (sqlPattern f)
  = ("^"%char :: flat_map expand (list_ascii_of_string f) ++ ["$"%char])%list.
Proof.
  unfold sqlPattern. cbn. f_equal.
  rewrite list_ascii_of_string_app. cbn. f_equal.
  induction f as [|c f IH]; [reflexivity|].
  cbn [replace_all list_ascii_of_string flat_map].
  unfold expand at 1.
  destruct (Ascii.eqb c "+") eqn:Eplus.
  - cbn. now rewrite IH.
  - cbn [replace_all]. destruct (Ascii.eqb c "#") eqn:Ehash.
    + cbn. now rewrite IH.
    + cbn. now rewrite IH.
Qed.

Lemma special_false (c : ascii) :
  Regexp.special c = false ->
  Ascii.eqb c "\" = false /\ Ascii.eqb c "^" = false
  /\ Ascii.eqb c "$" = false /\ Ascii.eqb c "." = false
  /\ Ascii.eqb c "|" = false /\ Ascii.eqb c "?" = false
  /\ Ascii.eqb c "*" = false /\ Ascii.eqb c "+" = false
  /\ Ascii.eqb c "[" = false.
Proof.
  unfold Regexp.special. cbn [existsb]. intros H.
  repeat (apply orb_false_iff in H; destruct H as [? H]).
  repeat split; assumption.
Qed.

Lemma parse_tokens (f : list ascii) :
  forallb token_ok f = true ->
  forall done_ cur rest,
    Regexp.parse_from Regexp.MTop done_ cur (flat_map expand f ++ rest)
    = Regexp.parse_from Regexp.MTop done_ (rev (map piece_of f) ++ cur) rest.
Proof.
  induction f as [|c f IH]; intros Hok done_ cur rest; [reflexivity|].
  cbn in Hok. apply andb_true_iff in Hok. destruct Hok as [Hc Hf].
  cbn [flat_map map rev]. rewrite <- !app_assoc. cbn [app].
  unfold expand at 1, piece_of at 2.
  destruct (Ascii.eqb c "+") eqn:Eplus.
  - cbn. now rewrite IH.
  - destruct (Ascii.eqb c "#") eqn:Ehash.
    + cbn. now rewrite IH.
    + unfold token_ok in Hc. rewrite Eplus, Ehash in Hc. cbn in Hc.
      unfold ordinary in Hc. apply andb_true_iff in Hc. destruct Hc as [Hs _].
      apply negb_true_iff in Hs.
      destruct (special_false c Hs)
        as (H1 & H2 & H3 & H4 & H5 & H6 & H7 & H8 & H9).
      cbn [app Regexp.parse_from].
      rewrite H1, H2, H3, H4, H5, H6, H7, H8, H9, Hs.
      now rewrite IH.
Qed.

Lemma parse_sqlPattern (f : string) :
  forallb token_ok (list_ascii_of_string f) = true ->
  Regexp.parse (sqlPattern f)
  = Some [(Regexp.PBol :: map piece_of (list_ascii_of_string f)
             ++ [Regexp.PEol])%list].
Proof.
  intros Hok. unfold Regexp.parse. rewrite sqlPattern_chars.
  cbn [Regexp.parse_from Ascii.eqb]. cbn.
  rewrite (parse_tokens _ Hok). cbn.
  rewrite rev_app_distr, rev_involutive. reflexivity.
Qed.

Lemma search_unanchored (ps : list Regexp.piece) (s : list ascii) :
  Regexp.search (Regexp.PBol :: ps) false s = false.
Proof. induction s as [|c s IH]; cbn; [reflexivity|exact IH]. Qed.

Lemma matches_anchored (ps : list Regexp.piece) (s : list ascii) :
  Regexp.matches [Regexp.PBol :: ps] s = Regexp.match_here ps true s.
Proof.
  unfold Regexp.matches. cbn [existsb]. rewrite orb_false_r.
  destruct s as [|c s]; cbn.
  - now rewrite orb_false_r.
  - fold (Regexp.search (Regexp.PBol :: ps) false s).
    now rewrite search_unanchored, orb_false_r.
Qed.

Lemma chars_eqb_spec (a b : list ascii) : reflect (a = b) (chars_eqb a b).
Proof.
  unfold chars_eqb. destruct (list_eq_dec ascii_dec a b); now constructor.
Qed.

Lemma chars_eqb_cons (x y : ascii) (a b : list ascii) :
  chars_eqb (x :: a) (y :: b) = Ascii.eqb x y && chars_eqb a b.
Proof.
  destruct (chars_eqb_spec (x :: a) (y :: b)) as [E|N].
  - inversion E; subst. rewrite Ascii.eqb_refl.
    now destruct (chars_eqb_spec b b).
  - destruct (Ascii.eqb_spec x y) as [->|]; [|reflexivity].
    destruct (chars_eqb_spec a b) as [->|]; [|reflexivity].
    now contradiction N.
Qed.

Lemma boundary_eol : boundary [Regexp.PEol] at_end.
Proof. intros b [|c r]; cbn; [reflexivity|now destruct (Ascii.eqb c "/")]. Qed.

Lemma boundary_sep (K : list Regexp.piece) :
  boundary (Regexp.PAtom (Regexp.ALit "/") Regexp.QOne :: K) (at_sep K).
Proof.
  intros b [|c r]; [reflexivity|].
  cbn [Regexp.match_here Regexp.atom_ok at_sep].
  rewrite (Ascii.eqb_sym "/" c). now destruct (Ascii.eqb c "/").
Qed.

Lemma piece_of_ordinary (c : ascii) :
  ordinary c = true ->
  piece_of c = Regexp.PAtom (Regexp.ALit c) Regexp.QOne.
Proof.
  unfold ordinary, piece_of. intros H. apply andb_true_iff in H.
  destruct H as [Hs Hh]. apply negb_true_iff in Hs, Hh.
  destruct (special_false c Hs) as (_ & _ & _ & _ & _ & _ & _ & Hp & _).
  now rewrite Hp, Hh.
Qed.

Lemma match_literal_level (l : list ascii) (K : list Regexp.piece)
      (kont : option (list ascii) -> bool) :
  boundary K kont ->
  forallb ordinary l = true ->
  no_sep l = true ->
  forall b t,
    Regexp.match_here (map piece_of l ++ K) b t
    = chars_eqb l (first_level t) && kont (after_sep t).
Proof.
  intros HK. induction l as [|x l IH]; intros Hord Hsep b t.
  - cbn [map app]. rewrite HK. destruct t as [|c r]; [reflexivity|].
    cbn [first_level after_sep]. destruct (Ascii.eqb c "/"); reflexivity.
  - cbn in Hord, Hsep. apply andb_true_iff in Hord, Hsep.
    destruct Hord as [Hx Hord]. destruct Hsep as [Hxs Hsep].
    apply negb_true_iff in Hxs.
    cbn [map app]. rewrite (piece_of_ordinary x Hx).
    cbn [Regexp.match_here Regexp.atom_ok].
    destruct t as [|c r]; [reflexivity|].
    cbn [first_level after_sep].
    destruct (Ascii.eqb_spec x c) as [<-|Hne].
    + rewrite Hxs, chars_eqb_cons, Ascii.eqb_refl. cbn [andb].
      now apply IH.
    + cbn [andb]. destruct (Ascii.eqb c "/").
      * reflexivity.
      * rewrite chars_eqb_cons.
        destruct (Ascii.eqb_spec x c); [contradiction|reflexivity].
Qed.

Lemma star_to_boundary (K : list Regexp.piece)
      (kont : option (list ascii) -> bool) :
  boundary K kont ->
  forall b r,
    Regexp.star_from (Regexp.ASet true ["/"%char]) (Regexp.match_here K) b r
    = kont (after_sep r).
Proof.
  intros HK b r. revert b. induction r as [|c r IH]; intros b.
  - cbn. rewrite HK. now rewrite orb_false_r.
  - cbn [Regexp.star_from after_sep]. rewrite HK.
    cbn [Regexp.atom_ok Regexp.in_items]. rewrite orb_false_r.
    rewrite (Ascii.eqb_sym "/" c).
    destruct (Ascii.eqb c "/"); cbn.
    + now rewrite orb_false_r.
    + apply IH.
Qed.

Lemma match_plus_level (K : list Regexp.piece)
      (kont : option (list ascii) -> bool) :
  boundary K kont ->
  forall b t,
    Regexp.match_here (map piece_of ["+"%char] ++ K) b t
    = negb (chars_eqb (first_level t) []) && kont (after_sep t).
Proof.
  intros HK b t. cbn [map app piece_of Ascii.eqb Bool.eqb].
  cbn [Regexp.match_here].
  destruct t as [|c r]; [reflexivity|].
  cbn [first_level after_sep Regexp.atom_ok Regexp.in_items].
  rewrite orb_false_r, (Ascii.eqb_sym "/" c).
  destruct (Ascii.eqb c "/"); [reflexivity|].
  cbn. apply (star_to_boundary _ _ HK).
Qed.

Lemma match_hash_level (b : bool) (t : list ascii) :
  Regexp.match_here (map piece_of ["#"%char] ++ [Regexp.PEol]) b t = true.
Proof.
  cbn [map app piece_of Ascii.eqb Bool.eqb]. cbn [Regexp.match_here].
  revert b. induction t as [|c r IH]; intros b; [reflexivity|].
  cbn [Regexp.star_from Regexp.atom_ok]. cbn. apply IH.
Qed.

Lemma levels_unfold (t : list ascii) :
  levels t
  = first_level t :: match after_sep t with
                     | Some r => levels r
                     | None => []
                     end.
Proof.
  induction t as [|c r IH]; [reflexivity|].
  cbn [levels first_level after_sep].
  destruct (Ascii.eqb c "/"); [reflexivity|].
  now rewrite IH.
Qed.

Lemma unlevels_levels (t : list ascii) : unlevels (levels t) = t.
Proof.
  induction t as [|c r IH]; [reflexivity|].
  cbn [levels]. pose proof (levels_unfold r) as Hu.
  destruct (levels r) as [|l ls]; [discriminate|].
  destruct (Ascii.eqb_spec c "/") as [->|].
  - change (unlevels ([] :: l :: ls)) with ("/"%char :: unlevels (l :: ls)).
    now rewrite IH.
  - destruct ls as [|l' ls]; cbn [unlevels app] in *; now rewrite <- IH.
Qed.

Lemma levels_no_sep (t : list ascii) : Forall (fun l => no_sep l = true) (levels t).
Proof.
  induction t as [|c r IH]; [repeat constructor|].
  cbn [levels]. destruct (Ascii.eqb c "/") eqn:E.
  - constructor; [reflexivity|assumption].
  - destruct (levels r) as [|l ls]; [repeat constructor; cbn; now rewrite E|].
    inversion IH; subst. constructor; [|assumption].
    cbn. now rewrite E.
Qed.

Lemma ordinary_token (l : list ascii) :
  forallb ordinary l = true -> forallb token_ok l = true.
Proof.
  induction l as [|c l IH]; cbn; [reflexivity|]. intros H.
  apply andb_true_iff in H. destruct H as [Hc Hl].
  unfold token_ok at 1. rewrite Hc, orb_true_r. now apply IH.
Qed.

Lemma level_tokens (l : list ascii) :
  is_plus l || is_hash l || forallb ordinary l = true ->
  forallb token_ok l = true.
Proof.
  unfold is_plus, is_hash. intros H.
  destruct (chars_eqb_spec l ["+"%char]) as [E|_]; [now rewrite E|].
  destruct (chars_eqb_spec l ["#"%char]) as [E|_]; [now rewrite E|].
  now apply ordinary_token.
Qed.

Lemma levels_tokens (ls : list (list ascii)) :
  levels_ok ls = true -> forallb token_ok (unlevels ls) = true.
Proof.
  induction ls as [|l ls IH]; [reflexivity|].
  destruct ls as [|l' ls].
  - cbn [levels_ok unlevels]. apply level_tokens.
  - intros H.
    change (levels_ok (l :: l' :: ls))
      with ((is_plus l || forallb ordinary l) && levels_ok (l' :: ls)) in H.
    change (unlevels (l :: l' :: ls))
      with (l ++ "/"%char :: unlevels (l' :: ls))%list.
    apply andb_true_iff in H. destruct H as [Hl Hrest].
    rewrite forallb_app. cbn [forallb].
    rewrite (IH Hrest). change (token_ok "/") with true.
    rewrite !andb_true_r.
    apply level_tokens. rewrite <- orb_assoc.
    apply orb_true_iff in Hl. destruct Hl as [->| ->];
      [reflexivity|now rewrite !orb_true_r].
Qed.

Lemma levels_accept_nil (ls ts : list (list ascii)) :
  ls <> [] -> ts = [] -> levels_accept ls ts = false.
Proof. intros Hne ->. destruct ls; [contradiction|reflexivity]. Qed.

Lemma match_levels (ls : list (list ascii)) :
  ls <> [] ->
  levels_ok ls = true ->
  Forall (fun l => no_sep l = true) ls ->
  forall b t,
    Regexp.match_here (map piece_of (unlevels ls) ++ [Regexp.PEol]) b t
    = levels_accept ls (levels t).
Proof.
  induction ls as [|l ls IH]; intros Hne Hok Hsep b t; [contradiction|].
  inversion Hsep as [|? ? Hl Hsep']; subst.
  rewrite (levels_unfold t).
  destruct ls as [|l' ls].
  - (* the last level *)
    cbn [unlevels levels_ok levels_accept] in *.
    destruct (is_hash l) eqn:Ehash.
    + unfold is_hash in Ehash.
      destruct (chars_eqb_spec l ["#"%char]) as [E|]; [|discriminate].
      rewrite E. apply match_hash_level.
    + unfold level_accepts. destruct (is_plus l) eqn:Eplus.
      * unfold is_plus in Eplus.
        destruct (chars_eqb_spec l ["+"%char]) as [E|]; [|discriminate].
        rewrite E, (match_plus_level _ _ boundary_eol). f_equal.
        destruct (after_sep t) as [r|]; [|reflexivity].
        now rewrite (levels_unfold r).
      * cbn [orb] in Hok.
        rewrite (match_literal_level l _ _ boundary_eol Hok Hl). f_equal.
        destruct (after_sep t) as [r|]; [|reflexivity].
        now rewrite (levels_unfold r).
  - (* a level followed by a separator *)
    assert (Hrest : forall r,
               Regexp.match_here
                 (map piece_of (unlevels (l' :: ls)) ++ [Regexp.PEol]) false r
               = levels_accept (l' :: ls) (levels r)).
    { intros r. apply IH; [discriminate| |assumption].
      cbn [levels_ok] in Hok. apply andb_true_iff in Hok. tauto. }
    change (unlevels (l :: l' :: ls))
      with (l ++ "/"%char :: unlevels (l' :: ls))%list.
    rewrite map_app. cbn [map]. rewrite <- app_assoc. cbn [app].
    change (piece_of "/") with (Regexp.PAtom (Regexp.ALit "/") Regexp.QOne).
    change (levels_ok (l :: l' :: ls))
      with ((is_plus l || forallb ordinary l) && levels_ok (l' :: ls)) in Hok.
    apply andb_true_iff in Hok. destruct Hok as [Hlok _].
    change (levels_accept (l :: l' :: ls)
              (first_level t :: match after_sep t with
                                 | Some r => levels r
                                 | None => []
                                 end))
      with (level_accepts l (first_level t)
            && levels_accept (l' :: ls)
                 match after_sep t with
                 | Some r => levels r
                 | None => []
                 end).
    unfold level_accepts. destruct (is_plus l) eqn:Eplus.
    + unfold is_plus in Eplus.
      destruct (chars_eqb_spec l ["+"%char]) as [E|]; [|discriminate].
      rewrite E, (match_plus_level _ _ (boundary_sep _)). f_equal.
      destruct (after_sep t) as [r|]; [apply Hrest|reflexivity].
    + cbn [orb] in Hlok.
      rewrite (match_literal_level l _ _ (boundary_sep _) Hlok Hl). f_equal.
      destruct (after_sep t) as [r|]; [apply Hrest|reflexivity].
Qed.

(** On a well-formed filter over ordinary characters, the pattern built by
    [index.js] accepts a topic exactly when the levels of the filter accept
    the levels of the topic. *)
Lemma topic_matches_levels (f t : string) :
  filter_ok f = true ->
  topic_matches f t = Some (filter_accepts f t).
Proof.
  unfold filter_ok, filter_accepts, topic_matches, Regexp.regexp_like.
  intros Hok.
  pose proof (levels_tokens _ Hok) as Htok.
  rewrite unlevels_levels in Htok.
  rewrite (parse_sqlPattern f Htok), matches_anchored. f_equal.
  rewrite <- (unlevels_levels (list_ascii_of_string f)) at 1.
  apply match_levels.
  - rewrite levels_unfold. discriminate.
  - exact Hok.
  - apply levels_no_sep.
Qed.

(** Without [#], the pattern and the reading of the specification agree. *)
Lemma spec_agrees_without_hash (fs ts : list (list ascii)) :
  existsb is_hash fs = false ->
  levels_accept fs ts = spec_levels_accept fs ts.
Proof.
  revert ts. induction fs as [|f fs IH]; intros ts H.
  - destruct ts; reflexivity.
  - cbn [existsb] in H. apply orb_false_iff in H. destruct H as [Hf Hfs].
    cbn [levels_accept spec_levels_accept]. rewrite Hf. cbn [andb].
    destruct ts as [|t ts]; [reflexivity|].
    rewrite (IH ts Hfs). now destruct fs.
Qed.

(** On a filter whose levels are [+], a last [#] or words of ordinary
    characters, the pattern built by [index.js] accepts a topic exactly
    when the levels of the filter accept the levels of the topic one by
    one, a [+] taking exactly one non-empty level; a level never holds a
    separator, and without [#] this is the reading of the
    specification. *)
Lemma plus_level_on_ordinary_filters (f t : string) :
  filter_ok f = true ->
  topic_matches f t = Some (filter_accepts f t)
  /\ (existsb is_hash (levels (list_ascii_of_string f)) = false ->
      filter_accepts f t = spec_accepts f t)
  /\ Forall (fun l => no_sep l = true) (levels (list_ascii_of_string t)).
Proof.
  intros Hok. split; [now apply topic_matches_levels|].
  split; [intros Hh; now apply spec_agrees_without_hash|].
  apply levels_no_sep.
Qed.

(** C9: [a/+/c] is compiled to [^a/[^/]+/c$], which accepts [a/b/c] and
    rejects [a/b/x/c].  The other characters of a filter are copied into
    the pattern as they are, so a [+] does not take one level in every
    filter: [$SYS/+] is compiled to [^$SYS/[^/]+$], which rejects
    [$SYS/up], and [+/a|b] is compiled to [^[^/]+/a|b$], which accepts
    the four levels of [x/a/y/z]; a retained message at [$SYS/up] is not
    delivered for [$SYS/+], and the one at [x/a/y/z] is delivered for
    [+/a|b]. *)
Theorem plus_misses_levels_in_filters_with_pattern_characters :
  sqlPattern "a/+/c" = "^a/[^/]+/c$"
  /\ topic_matches "a/+/c" "a/b/c" = Some true
  /\ topic_matches "a/+/c" "a/b/x/c" = Some false
  /\ sqlPattern "$SYS/+" = "^$SYS/[^/]+$"
  /\ topic_matches "$SYS/+" "$SYS/up" = Some false
  /\ spec_accepts "$SYS/+" "$SYS/up" = true
  /\ sqlPattern "+/a|b" = "^[^/]+/a|b$"
  /\ topic_matches "+/a|b" "x/a/y/z" = Some true
  /\ spec_accepts "+/a|b" "x/a/y/z" = false
  /\ (let p := ready_persistence in
      let w1 := snd (storeRetained p (publish "$SYS/up" "1" 0) fresh_world) in
      let w2 := snd (storeRetained p (publish "x/a/y/z" "2" 0) w1) in
      fst (createRetainedStreamCombi p ["$SYS/+"] w2) = Ok []
      /\ fst (createRetainedStreamCombi p ["+/a|b"] w2)
         = Ok [{| rp_topic := "x/a/y/z"; rp_payload := Buffer_from "2";
                  rp_qos := 0 |}]).
Proof.
  cbv zeta. repeat split; vm_compute; reflexivity.
Qed.

(* ------------------------------------------------------------------ *)
(** ** Topics made of ordinary characters *)

Lemma ordinary_levels (s : list ascii) :
  forallb ordinary s = true ->
  Forall (fun l => forallb ordinary l = true) (levels s).
Proof.
  induction s as [|c s IH]; intros H; [repeat constructor|].
  cbn in H. apply andb_true_iff in H. destruct H as [Hc Hs].
  specialize (IH Hs). cbn [levels].
  destruct (Ascii.eqb c "/"); [constructor; [reflexivity|assumption]|].
  destruct (levels s) as [|l ls]; [repeat constructor; cbn; now rewrite Hc|].
  inversion IH; subst. constructor; [|assumption].
  cbn. now rewrite Hc.
Qed.

Lemma ordinary_levels_ok (ls : list (list ascii)) :
  Forall (fun l => forallb ordinary l = true) ls -> levels_ok ls = true.
Proof.
  induction ls as [|l ls IH]; intros H; [reflexivity|].
  inversion H as [|? ? Hl Hls]; subst.
  destruct ls as [|l' ls].
  - cbn [levels_ok]. now rewrite Hl, orb_true_r.
  - change (levels_ok (l :: l' :: ls))
      with ((is_plus l || forallb ordinary l) && levels_ok (l' :: ls)).
    now rewrite Hl, orb_true_r, IH.
Qed.

Lemma ordinary_level_accepts (l t : list ascii) :
  forallb ordinary l = true ->
  is_hash l = false /\ level_accepts l t = chars_eqb l t.
Proof.
  intros H. unfold level_accepts, is_hash, is_plus.
  split.
  - destruct (chars_eqb_spec l ["#"%char]) as [E|]; [|reflexivity].
    rewrite E in H. discriminate.
  - destruct (chars_eqb_spec l ["+"%char]) as [E|]; [|reflexivity].
    rewrite E in H. discriminate.
Qed.

Lemma ordinary_levels_accept (ls ts : list (list ascii)) :
  Forall (fun l => forallb ordinary l = true) ls ->
  levels_accept ls ts = true <-> ls = ts.
Proof.
  intros H. revert ts. induction H as [|l ls Hl Hls IH]; intros ts.
  - destruct ts; cbn; split; congruence.
  - destruct ts as [|t ts]; [cbn; split; congruence|].
    destruct (ordinary_level_accepts l t Hl) as [Hh Ha].
    assert (E : levels_accept (l :: ls) (t :: ts)
                = chars_eqb l t && levels_accept ls ts).
    { cbn [levels_accept]. rewrite Hh, Ha. now destruct ls. }
    rewrite E, andb_true_iff, IH.
    destruct (chars_eqb_spec l t); split.
    + intros [_ ->]. now subst.
    + intros E'. inversion E'. auto.
    + intros [? _]. discriminate.
    + intros E'. inversion E'. contradiction.
Qed.

Lemma list_ascii_of_string_inj (a b : string) :
  list_ascii_of_string a = list_ascii_of_string b -> a = b.
Proof.
  intros H. rewrite <- (string_of_list_ascii_of_string a).
  rewrite <- (string_of_list_ascii_of_string b). now rewrite H.
Qed.

(** A filter of ordinary characters accepts the topic equal to it and no
    other. *)
Lemma ordinary_topic_exact (T t : string) :
  forallb ordinary (list_ascii_of_string T) = true ->
  topic_matches T t = Some (String.eqb T t).
Proof.
  intros H. pose proof (ordinary_levels _ H) as Hl.
  rewrite topic_matches_levels
    by (unfold filter_ok; now apply ordinary_levels_ok).
  f_equal. unfold filter_accepts.
  destruct (String.eqb_spec T t) as [->|Hne].
  - now apply ordinary_levels_accept.
  - destruct (levels_accept _ _) eqn:E; [|reflexivity].
    exfalso. apply Hne. apply list_ascii_of_string_inj.
    apply (ordinary_levels_accept _ _ Hl) in E.
    rewrite <- (unlevels_levels (list_ascii_of_string T)).
    rewrite <- (unlevels_levels (list_ascii_of_string t)).
    now rewrite E.
Qed.

(** For a topic of ordinary characters, [subscriptionsByTopic] returns
    the subscriptions stored for exactly that topic. *)
Lemma subscriptionsByTopic_ordinary (p : persistence) (T : string) (w : world) :
  serving p ->
  forallb ordinary (list_ascii_of_string T) = true ->
  fst (subscriptionsByTopic p T w)
  = Ok (map client_subscription_of_row
            (filter (fun r => String.eqb T (s_topic r))
                    (rows (aedes_subscriptions (db w))))).
Proof.
  intros Hs HT. pose proof Hs as [Hr _].
  unfold subscriptionsByTopic. rewrite Hr. cbn [negb].
  rewrite execute_serving by assumption.
  unfold select_subscriptions_regexp, select_where, then_.
  pose proof (fun t => ordinary_topic_exact T t HT) as Hm.
  unfold topic_matches, Regexp.regexp_like in Hm.
  destruct (Regexp.parse (sqlPattern T)) as [re|] eqn:Ep.
  - cbn. do 2 f_equal. apply filter_ext. intros r.
    specialize (Hm (s_topic r)). now inversion Hm.
  - specialize (Hm EmptyString). discriminate.
Qed.

(* ------------------------------------------------------------------ *)
(** ** The schema constraints are kept *)

Lemma well_formed_with_subscriptions (t : table subscription_row) (d : database) :
  well_formed d -> ascending s_id t ->
  NoDup (map (fun r => (s_client_id r, s_topic r)) (rows t)) ->
  well_formed (with_subscriptions t d).
Proof. intros [] ? ?. split; assumption. Qed.

Lemma well_formed_with_retained (t : table retained_row) (d : database) :
  well_formed d -> ascending r_id t -> NoDup (map r_topic (rows t)) ->
  well_formed (with_retained t d).
Proof. intros [] ? ?. split; assumption. Qed.

Lemma well_formed_with_outgoing (t : table outgoing_row) (d : database) :
  well_formed d -> ascending o_id t -> well_formed (with_outgoing t d).
Proof. intros [] ?. split; assumption. Qed.

Lemma well_formed_with_incoming (t : table incoming_row) (d : database) :
  well_formed d -> ascending i_id t ->
  NoDup (map (fun r => (i_client_id r, i_message_id r)) (rows t)) ->
  well_formed (with_incoming t d).
Proof. intros [] ? ?. split; assumption. Qed.

Lemma well_formed_with_will (t : table will_row) (d : database) :
  well_formed d -> ascending w_id t -> NoDup (map w_client_id (rows t)) ->
  well_formed (with_will t d).
Proof. intros [] ? ?. split; assumption. Qed.

Lemma well_formed_with_events (es : list event) (d : database) :
  well_formed d -> well_formed (with_events es d).
Proof. intros []. split; assumption. Qed.

Ltac ok_inversion :=
  match goal with
  | H : Ok _ = Ok _ |- _ => inversion H; subst; clear H
  | H : Err _ = Ok _ |- _ => discriminate H
  end.

Lemma upsert_retained_keeps (t : string) (pl : bytes) (q : Z) :
  keeps_constraints (upsert_retained t pl q).
Proof.
  intros now d a d' Hwf H. unfold upsert_retained in H. ok_inversion.
  apply well_formed_with_retained; [assumption| |].
  - apply ascending_insert_on_duplicate; [reflexivity|reflexivity|apply Hwf].
  - apply NoDup_insert_on_duplicate; [reflexivity| |apply Hwf].
    intros r. cbn. apply String.eqb_eq.
Qed.

Lemma subscription_key_spec (c t : string) (r : subscription_row) :
  String.eqb (s_client_id r) c && String.eqb (s_topic r) t = true
  <-> (s_client_id r, s_topic r) = (c, t).
Proof.
  rewrite andb_true_iff, !String.eqb_eq.
  split; [intros [-> ->]; reflexivity|intros E; now inversion E].
Qed.

Lemma upsert_subscriptions_keeps (values : list (string * string * Z)) :
  keeps_constraints (upsert_subscriptions values).
Proof. intros now d a d' Hwf H. discriminate H. Qed.

Lemma delete_subscriptions_keeps (c : string) (topics : list string) :
  keeps_constraints (delete_subscriptions c topics).
Proof.
  intros now d a d' Hwf H. unfold delete_subscriptions in H. ok_inversion.
  apply well_formed_with_subscriptions; [assumption| |].
  - apply ascending_delete_where, Hwf.
  - apply NoDup_map_filter, Hwf.
Qed.

Lemma delete_client_subscriptions_keeps (c : string) :
  keeps_constraints (delete_client_subscriptions c).
Proof.
  intros now d a d' Hwf H. unfold delete_client_subscriptions in H.
  ok_inversion.
  apply well_formed_with_subscriptions; [assumption| |].
  - apply ascending_delete_where, Hwf.
  - apply NoDup_map_filter, Hwf.
Qed.

Lemma insert_outgoing_keeps (values : list outgoing_values) :
  keeps_constraints (insert_outgoing values).
Proof. intros now d a d' Hwf H. discriminate H. Qed.

Lemma update_outgoing_keeps (m : Z) (dp : bool) (c t : string) (pl : bytes) :
  keeps_constraints (update_outgoing m dp c t pl).
Proof.
  intros now d a d' Hwf H. unfold update_outgoing in H. ok_inversion.
  apply well_formed_with_outgoing; [assumption|].
  apply ascending_map; [reflexivity|apply Hwf].
Qed.

Lemma delete_outgoing_keeps (c : string) (m : Z) :
  keeps_constraints (delete_outgoing c m).
Proof.
  intros now d a d' Hwf H. unfold delete_outgoing in H. ok_inversion.
  apply well_formed_with_outgoing; [assumption|].
  apply ascending_delete_where, Hwf.
Qed.

Lemma upsert_incoming_keeps (c : string) (m : Z) (t : string) (pl : bytes)
      (q : Z) :
  keeps_constraints (upsert_incoming c m t pl q).
Proof.
  intros now d a d' Hwf H. unfold upsert_incoming in H. ok_inversion.
  apply well_formed_with_incoming; [assumption| |].
  - apply ascending_insert_on_duplicate; [reflexivity|reflexivity|apply Hwf].
  - apply NoDup_insert_on_duplicate; [reflexivity| |apply Hwf].
    intros r. cbn. rewrite andb_true_iff, String.eqb_eq, Z.eqb_eq.
    split; [intros [-> ->]; reflexivity|intros E; now inversion E].
Qed.

Lemma delete_incoming_keeps (c : string) (m : Z) :
  keeps_constraints (delete_incoming c m).
Proof.
  intros now d a d' Hwf H. unfold delete_incoming in H. ok_inversion.
  apply well_formed_with_incoming; [assumption| |].
  - apply ascending_delete_where, Hwf.
  - apply NoDup_map_filter, Hwf.
Qed.

Lemma upsert_will_keeps (c t : string) (pl : bytes) (q : Z) (rt : bool)
      (b : option string) :
  keeps_constraints (upsert_will c t pl q rt b).
Proof.
  intros now d a d' Hwf H. unfold upsert_will in H. ok_inversion.
  apply well_formed_with_will; [assumption| |].
  - apply ascending_insert_on_duplicate; [reflexivity|reflexivity|apply Hwf].
  - apply NoDup_insert_on_duplicate; [reflexivity| |apply Hwf].
    intros r. cbn. apply String.eqb_eq.
Qed.

Lemma delete_will_keeps (c : string) : keeps_constraints (delete_will c).
Proof.
  intros now d a d' Hwf H. unfold delete_will in H. ok_inversion.
  apply well_formed_with_will; [assumption| |].
  - apply ascending_delete_where, Hwf.
  - apply NoDup_map_filter, Hwf.
Qed.

Lemma reads_only_keeps {A : Type} (run : statement A) :
  reads_only run -> keeps_constraints run.
Proof. intros Hro now d a d' Hwf H. now rewrite (Hro now d a d' H). Qed.

Lemma execute_keeps {A : Type} (p : persistence) (sql : string)
      (run : statement A) (w : world) :
  keeps_constraints run ->
  well_formed (db w) -> well_formed (db (snd (execute p sql run w))).
Proof.
  intros Hk Hwf. unfold execute.
  destruct (pool p) as [[|]|]; try assumption.
  destruct (run (clock w) (db w)) as [[a d]|e] eqn:E; cbn; [|assumption].
  exact (Hk _ _ _ _ Hwf E).
Qed.

Lemma delete_older_than_keeps (target : string) (cutoff : Z) (d d' : database) :
  well_formed d -> delete_older_than target cutoff d = Ok d' -> well_formed d'.
Proof.
  intros Hwf H. unfold delete_older_than in H.
  repeat match type of H with
         | (if ?c then _ else _) = _ => destruct c
         end; try discriminate; ok_inversion.
  - apply well_formed_with_subscriptions; [assumption| |].
    + apply ascending_delete_where, Hwf.
    + apply NoDup_map_filter, Hwf.
  - apply well_formed_with_retained; [assumption| |].
    + apply ascending_delete_where, Hwf.
    + apply NoDup_map_filter, Hwf.
  - apply well_formed_with_outgoing; [assumption|].
    apply ascending_delete_where, Hwf.
  - apply well_formed_with_incoming; [assumption| |].
    + apply ascending_delete_where, Hwf.
    + apply NoDup_map_filter, Hwf.
  - apply well_formed_with_will; [assumption| |].
    + apply ascending_delete_where, Hwf.
    + apply NoDup_map_filter, Hwf.
Qed.

Lemma run_events_keeps (now : Z) (d : database) :
  well_formed d -> well_formed (run_events now d).
Proof.
  unfold run_events. generalize (events d) as es. intros es. revert d.
  induction es as [|e es IH]; intros d Hwf; cbn; [assumption|].
  apply IH. unfold run_event.
  destruct (delete_older_than _ _ d) as [d'|] eqn:E; [|assumption].
  exact (delete_older_than_keeps _ _ _ _ Hwf E).
Qed.

Lemma setup_keeps_constraints (p : persistence) (w : world) :
  well_formed (db w) -> well_formed (db (snd (_setup p w))).
Proof.
  intros Hwf. unfold _setup, _createTables.
  destruct (provisioning w); [assumption|].
  destruct (subscriptions (ttl p)) as [n|]; [|assumption].
  destruct (0 <? n); [|assumption].
  cbn. unfold create_event_if_not_exists.
  destruct (existsb _ _); [assumption|].
  now apply well_formed_with_events.
Qed.

Ltac reads :=
  apply reads_only_keeps;
  let H := fresh "H" in
  intros ? ? ? ? H;
  cbv beta delta [select_retained_regexp select_subscriptions_by_client
                  count_subscriptions count_distinct_clients
                  select_subscriptions_regexp select_clients_by_topic
                  select_outgoing select_incoming select_will
                  select_will_by_brokers] in H;
  repeat match type of H with
         | match ?x with _ => _ end = _ => destruct x
         end;
  try discriminate H; now inversion H.

Lemma call_keeps_constraints (rq : request) (p : persistence) (w : world) :
  well_formed (db w) -> well_formed (db (snd (call rq p w))).
Proof.
  intros Hwf.
  destruct rq; cbn [call answer snd];
    unfold createRetainedStream, outgoingEnqueue;
    unfold storeRetained, createRetainedStreamCombi,
      addSubscriptions, removeSubscriptions, subscriptionsByClient,
      subscriptionsByTopic, cleanSubscriptions,
      outgoingEnqueueCombi, outgoingUpdate,
      outgoingClearMessageId, outgoingStream, incomingStorePacket,
      incomingGetPacket, incomingDelPacket, putWill, getWill, delWill,
      streamWill, getClientList;
    try (destruct (negb (_ready p)); [assumption|]);
    try (destruct (messageId pkt); [|assumption]);
    cbn [snd then_ and_then];
    try (apply execute_keeps; [|assumption]).
  - apply upsert_retained_keeps.
  - reads.
  - reads.
  - apply upsert_subscriptions_keeps.
  - destruct (List.length topics =? 0)%nat; [assumption|].
    cbn [snd then_]. apply execute_keeps; [|assumption].
    apply delete_subscriptions_keeps.
  - reads.
  - unfold countOffline. destruct (negb (_ready p)); [assumption|].
    destruct (execute p _ count_subscriptions w) as [r1 w1] eqn:E1.
    destruct (execute p _ count_distinct_clients w1) as [r2 w2] eqn:E2.
    assert (H1 : well_formed (db w1)).
    { replace w1 with (snd (execute p
        "SELECT COUNT(*) as count FROM aedes_subscriptions"
        count_subscriptions w)) by now rewrite E1.
      apply execute_keeps; [reads|assumption]. }
    assert (H2 : well_formed (db w2)).
    { replace w2 with (snd (execute p
        "SELECT COUNT(DISTINCT client_id) as count FROM aedes_subscriptions"
        count_distinct_clients w1)) by now rewrite E2.
      apply execute_keeps; [reads|assumption]. }
    destruct r1, r2; assumption.
  - reads.
  - apply delete_client_subscriptions_keeps.
  - destruct (List.length _ =? 0)%nat; [assumption|].
    apply execute_keeps; [|assumption]. apply insert_outgoing_keeps.
  - apply insert_outgoing_keeps.
  - apply update_outgoing_keeps.
  - apply delete_outgoing_keeps.
  - reads.
  - apply upsert_incoming_keeps.
  - reads.
  - apply delete_incoming_keeps.
  - apply upsert_will_keeps.
  - reads.
  - apply delete_will_keeps.
  - destruct (List.length _ =? 0)%nat; [assumption|].
    cbn [snd then_]. apply execute_keeps; [reads|assumption].
  - reads.
  - unfold destroy. destruct (_closed p); assumption.
Qed.

Lemma run_keeps_constraints (s : step) (pw : persistence * world) :
  well_formed (db (snd pw)) -> well_formed (db (snd (run s pw))).
Proof.
  intros Hwf. destruct s as [rq| |n|]; cbn [run].
  - pose proof (call_keeps_constraints rq (fst pw) (snd pw) Hwf) as H.
    destruct (call rq (fst pw) (snd pw)) as [[r p'] w']. exact H.
  - now apply setup_keeps_constraints.
  - exact Hwf.
  - cbn. now apply run_events_keeps.
Qed.

Lemma run_all_keeps_constraints (steps : list step) (pw : persistence * world) :
  well_formed (db (snd pw)) -> well_formed (db (snd (run_all steps pw))).
Proof.
  revert pw. induction steps as [|s steps IH]; intros pw Hwf; cbn;
    [assumption|].
  apply IH. now apply run_keeps_constraints.
Qed.

(** Every store reached from a fresh one satisfies the constraints of the
    schema. *)
Lemma reachable_well_formed (opts : options) (pw : persistence * world) :
  reachable opts pw -> well_formed (db (snd pw)).
Proof.
  intros [steps ->].
  apply run_all_keeps_constraints. exact empty_database_well_formed.
Qed.

(** For a topic of ordinary characters the retained store gives back
    what was stored last, and nothing else: whatever the store held for
    the topic before, one row is left for it. *)
Lemma retained_round_trip_ordinary (p : persistence) (w : world) (pkt : packet) :
  serving p ->
  well_formed (db w) ->
  forallb ordinary (list_ascii_of_string (topic pkt)) = true ->
  let w1 := snd (storeRetained p pkt w) in
  fst (storeRetained p pkt w) = Ok tt
  /\ fst (createRetainedStreamCombi p [topic pkt] w1)
     = Ok [{| rp_topic := topic pkt; rp_payload := payload pkt;
              rp_qos := qos pkt |}].
Proof.
  intros Hs Hwf HT w1. pose proof Hs as [Hr _].
  set (conflict := fun r => String.eqb (r_topic r) (topic pkt)).
  set (update := fun r => {| r_id := r_id r; r_topic := r_topic r;
                             r_payload := payload pkt; r_qos := qos pkt;
                             r_created_at := clock w |}).
  set (fresh := fun k => {| r_id := k; r_topic := topic pkt;
                            r_payload := payload pkt; r_qos := qos pkt;
                            r_created_at := clock w |}).
  set (t1 := insert_on_duplicate conflict update fresh (aedes_retained (db w))).
  assert (Hstore : storeRetained p pkt w
                   = (Ok tt,
                      with_db (with_retained t1 (db w))
                        (logged
                           "INSERT INTO aedes_retained (topic, payload, qos) VALUES (?, ?, ?) ON DUPLICATE KEY UPDATE payload = VALUES(payload), qos = VALUES(qos), created_at = CURRENT_TIMESTAMP"
                           w))).
  { unfold storeRetained. rewrite Hr. cbn [negb].
    rewrite execute_serving by assumption. reflexivity. }
  split; [now rewrite Hstore|].
  subst w1. rewrite Hstore. cbn [snd].
  unfold createRetainedStreamCombi. rewrite Hr. cbn [negb].
  rewrite execute_serving by assumption.
  cbn [map join db with_db with_retained aedes_retained clock logged].
  unfold select_retained_regexp, select_where, then_. cbn [parse_all].
  pose proof (fun t => ordinary_topic_exact (topic pkt) t HT) as Hm.
  unfold topic_matches, Regexp.regexp_like in Hm.
  destruct (Regexp.parse (sqlPattern (topic pkt))) as [re|] eqn:Ep;
    [|specialize (Hm EmptyString); discriminate].
  cbn [fst map_result aedes_retained].
  destruct (insert_on_duplicate_stores conflict update fresh
              (aedes_retained (db w))) as (r & Hin & Hc & Hshape).
  { intros x Hx. exact Hx. }
  { subst conflict fresh. cbn. apply String.eqb_refl. }
  fold t1 in Hin.
  assert (Hsel : filter (fun r => regexp_any [re] (r_topic r)) (rows t1) = [r]).
  { rewrite (filter_ext _ (fun x => String.eqb (topic pkt) (r_topic x))).
    - apply (unique_select r_topic _ (topic pkt)).
      + subst t1. apply NoDup_insert_on_duplicate; [reflexivity| |apply Hwf].
        intros x. subst conflict fresh. cbn. apply String.eqb_eq.
      + intros x. rewrite String.eqb_eq. split; congruence.
      + exact Hin.
      + subst conflict. cbn in Hc. now rewrite String.eqb_sym.
    - intros x. unfold regexp_any. cbn [existsb]. rewrite orb_false_r.
      specialize (Hm (r_topic x)). now inversion Hm. }
  change (aedes_retained (with_retained t1 (db w))) with t1.
  rewrite Hsel. cbn [map]. do 2 f_equal.
  subst conflict. cbn in Hc. apply String.eqb_eq in Hc.
  unfold retained_of_row.
  destruct Hshape as [(x & _ & Hx & ->)| ->]; subst update fresh; cbn in *.
  - apply String.eqb_eq in Hx. now rewrite Hx.
  - reflexivity.
Qed.

(* ================================================================== *)
(** * Further properties of [index.js] *)

(** ** What a serving object sends *)

Lemma sample_rows_well_formed :
  well_formed
    (db (holding_outgoing sample_queue
           (holding_subscriptions sample_subscriptions fresh_world))).
Proof.
  assert (Hnil : forall (R : Type) (key : R -> Z),
             ascending key (empty_table R)).
  { intros R key. split; constructor. }
  constructor; cbn; try apply Hnil; try (constructor; fail);
    try (split; repeat constructor; fail).
  repeat constructor; cbn; intuition discriminate.
Qed.

Lemma sample_world_well_formed : well_formed (db sample_world).
Proof.
  apply run_all_keeps_constraints. exact sample_rows_well_formed.
Qed.

Lemma then_fst {A B : Type} (f : A -> B) (rw : result A * world) :
  fst (then_ f rw) = map_result f (fst rw).
Proof. reflexivity. Qed.

Lemma then_snd {A B : Type} (f : A -> B) (rw : result A * world) :
  snd (then_ f rw) = snd rw.
Proof. reflexivity. Qed.

Lemma subscriptionsByClient_serving (p : persistence) (c : client) (w : world) :
  serving p ->
  subscriptionsByClient p c w
  = (Ok (map subscription_of_row
             (filter (fun r => String.eqb (s_client_id r) (id c))
                     (rows (aedes_subscriptions (db w)))), c),
     logged "SELECT topic, qos FROM aedes_subscriptions WHERE client_id = ?" w).
Proof.
  intros Hs. pose proof Hs as [Hr _].
  unfold subscriptionsByClient. rewrite Hr. cbn [negb].
  rewrite execute_serving by assumption.
  unfold select_subscriptions_by_client, then_, select_where. cbn.
  destruct w; reflexivity.
Qed.


Section OtherRows.
Context {R : Type}.

(** Rows that a statement does not address are read as before. *)
Lemma filter_insert_on_duplicate_other (f conflict : R -> bool)
      (update : R -> R) (fresh : Z -> R) (t : table R) :
  (forall r, conflict r = true -> f r = false /\ f (update r) = false) ->
  f (fresh (auto_increment t)) = false ->
  filter f (rows (insert_on_duplicate conflict update fresh t))
  = filter f (rows t).
Proof.
  intros Hc Hf. unfold insert_on_duplicate, insert.
  destruct (existsb conflict (rows t)); cbn [rows].
  - induction (rows t) as [|r rs IH]; cbn; [reflexivity|].
    destruct (conflict r) eqn:E.
    + destruct (Hc r E) as [H1 H2]. now rewrite H1, H2.
    + now rewrite IH.
  - rewrite filter_app. cbn. rewrite Hf. apply app_nil_r.
Qed.

Lemma filter_filter (f g : R -> bool) (l : list R) :
  filter f (filter g l) = filter (fun r => g r && f r) l.
Proof.
  induction l as [|r l IH]; cbn; [reflexivity|].
  destruct (g r); cbn; [destruct (f r)|]; now rewrite IH.
Qed.

Lemma filter_all (f : R -> bool) (l : list R) :
  (forall x, In x l -> f x = true) -> filter f l = l.
Proof.
  induction l as [|x l IH]; intros H; cbn; [reflexivity|].
  rewrite (H x (or_introl eq_refl)). f_equal. apply IH.
  intros y Hy. apply H. now right.
Qed.

End OtherRows.

(* ------------------------------------------------------------------ *)
(** ** Subscriptions *)

Lemma subscriptionsByTopic_reads (p : persistence) (t : string) (w w' : world) :
  db w' = db w -> clock w' = clock w ->
  fst (subscriptionsByTopic p t w') = fst (subscriptionsByTopic p t w).
Proof.
  intros Hd Hc. unfold subscriptionsByTopic, then_, execute.
  destruct (negb (_ready p)); [reflexivity|].
  destruct (pool p) as [[|]|]; try reflexivity.
  rewrite Hd, Hc.
  now destruct (select_subscriptions_regexp _ (clock w) (db w)) as [[a d]|e].
Qed.

(** X1: on a serving object [addSubscriptions] stores nothing, whatever
    the list: its statement [INSERT ... VALUES ? ON DUPLICATE KEY UPDATE
    ...] is sent and the server rejects it, the callback gets that error,
    the store is as it was, and what [subscriptionsByClient] and
    [subscriptionsByTopic] answer afterwards is what they answered
    before. *)
Theorem addSubscriptions_stores_nothing :
  forall (p : persistence) (w : world) (c : client) (subs : list subscription),
    serving p ->
    let out := addSubscriptions p c subs w in
    fst out = Err syntax_error
    /\ db (snd out) = db w
    /\ executed (snd out)
       = (executed w
            ++ ["INSERT INTO aedes_subscriptions (client_id, topic, qos) VALUES ? ON DUPLICATE KEY UPDATE qos = VALUES(qos), created_at = CURRENT_TIMESTAMP"])%list
    /\ (forall c', fst (subscriptionsByClient p c' (snd out))
                   = fst (subscriptionsByClient p c' w))
    /\ (forall t, fst (subscriptionsByTopic p t (snd out))
                  = fst (subscriptionsByTopic p t w)).
Proof.
  intros p w c subs Hs out. pose proof Hs as [Hr _].
  assert (E : out
              = (Err syntax_error,
                 logged "INSERT INTO aedes_subscriptions (client_id, topic, qos) VALUES ? ON DUPLICATE KEY UPDATE qos = VALUES(qos), created_at = CURRENT_TIMESTAMP" w)).
  { subst out. unfold addSubscriptions. rewrite Hr. cbn [negb].
    now rewrite execute_serving by assumption. }
  rewrite E. cbn [fst snd]. repeat split.
  - intros c'. now rewrite !subscriptionsByClient_serving by assumption.
  - intros t. now apply subscriptionsByTopic_reads.
Qed.

Lemma addSubscriptions_stores_nothing_witness :
  let p := ready_persistence in
  let w := sample_world in
  let c := client_c2 in
  let subs := [{| sub_topic := "a/b"; sub_qos := 1 |};
               {| sub_topic := "x/y"; sub_qos := 0 |}] in
  let out := addSubscriptions p c subs w in
  fst out = Err syntax_error
  /\ db (snd out) = db w
  /\ executed (snd out)
     = (executed w
          ++ ["INSERT INTO aedes_subscriptions (client_id, topic, qos) VALUES ? ON DUPLICATE KEY UPDATE qos = VALUES(qos), created_at = CURRENT_TIMESTAMP"])%list
  /\ (forall c', fst (subscriptionsByClient p c' (snd out))
                 = fst (subscriptionsByClient p c' w))
  /\ (forall t, fst (subscriptionsByTopic p t (snd out))
                = fst (subscriptionsByTopic p t w)).
Proof.
  exact (addSubscriptions_stores_nothing
           ready_persistence sample_world client_c2
           [{| sub_topic := "a/b"; sub_qos := 1 |};
            {| sub_topic := "x/y"; sub_qos := 0 |}]
           ready_persistence_serving).
Defined.

Lemma filter_map_commute {A B : Type} (f : B -> bool) (g : A -> B) (l : list A) :
  filter f (map g l) = map g (filter (fun x => f (g x)) l).
Proof.
  induction l as [|x l IH]; cbn; [reflexivity|].
  destruct (f (g x)); cbn; now rewrite IH.
Qed.

Lemma removeSubscriptions_serving (p : persistence) (c : client)
      (topics : list string) (w : world) :
  serving p ->
  exists w',
    removeSubscriptions p c topics w = (Ok c, w')
    /\ rows (aedes_subscriptions (db w'))
       = filter (fun r => negb (String.eqb (s_client_id r) (id c)
                                && existsb (String.eqb (s_topic r)) topics))
                (rows (aedes_subscriptions (db w)))
    /\ (topics = [] -> w' = w).
Proof.
  intros Hs. pose proof Hs as [Hr _].
  unfold removeSubscriptions. rewrite Hr. cbn [negb].
  destruct topics as [|t ts].
  - exists w. cbn. split; [reflexivity|]. split; [|reflexivity].
    symmetry. apply filter_all. intros r _. now rewrite andb_false_r.
  - cbn [List.length Nat.eqb].
    rewrite execute_serving by assumption.
    unfold delete_subscriptions, then_. cbn.
    eexists. split; [reflexivity|]. split; [reflexivity|discriminate].
Qed.

(** X2: after [removeSubscriptions] for a client, [subscriptionsByClient]
    lists what it listed before without the removed topics, in the same
    order; the list of any other client is the same as before; with an
    empty topic list nothing is sent and nothing changes. *)
Theorem removed_subscriptions_are_not_listed :
  forall (p : persistence) (w : world) (c : client) (topics : list string),
    serving p ->
    let w1 := snd (removeSubscriptions p c topics w) in
    fst (removeSubscriptions p c topics w) = Ok c
    /\ (exists before,
          fst (subscriptionsByClient p c w) = Ok (before, c)
          /\ fst (subscriptionsByClient p c w1)
             = Ok (filter (fun s => negb (existsb (String.eqb (sub_topic s))
                                                  topics)) before, c))
    /\ (forall c', id c' <> id c ->
                   fst (subscriptionsByClient p c' w1)
                   = fst (subscriptionsByClient p c' w))
    /\ (topics = [] -> w1 = w).
Proof.
  intros p w c topics Hs w1.
  destruct (removeSubscriptions_serving p c topics w Hs) as (w' & E & Hrows & He).
  assert (Ew : w1 = w') by (subst w1; now rewrite E). rewrite <- Ew in *.
  split; [now rewrite E|]. split; [|split; [|exact He]].
  - eexists. rewrite !subscriptionsByClient_serving by assumption. cbn [fst].
    split; [reflexivity|]. do 2 f_equal.
    rewrite Hrows, filter_map_commute, !filter_filter. f_equal.
    apply filter_ext. intros r. cbn.
    destruct (String.eqb (s_client_id r) (id c)); cbn; [|reflexivity].
    now rewrite andb_true_r.
  - intros c' Hc'. rewrite !subscriptionsByClient_serving by assumption.
    cbn [fst]. do 3 f_equal. rewrite Hrows, filter_filter.
    apply filter_ext. intros r.
    destruct (String.eqb_spec (s_client_id r) (id c')) as [E'|];
      [|now rewrite andb_false_r].
    rewrite andb_true_r, E'.
    now rewrite (proj2 (String.eqb_neq (id c') (id c)) Hc').
Qed.

Lemma removed_subscriptions_are_not_listed_witness :
  let p := ready_persistence in
  let w := sample_world in
  let c := client_c1 in
  let topics := ["a/b"; "no/such"] in
  let w1 := snd (removeSubscriptions p c topics w) in
  fst (removeSubscriptions p c topics w) = Ok c
  /\ (exists before,
        fst (subscriptionsByClient p c w) = Ok (before, c)
        /\ fst (subscriptionsByClient p c w1)
           = Ok (filter (fun s => negb (existsb (String.eqb (sub_topic s))
                                                topics)) before, c))
  /\ (forall c', id c' <> id c ->
                 fst (subscriptionsByClient p c' w1)
                 = fst (subscriptionsByClient p c' w))
  /\ (topics = [] -> w1 = w).
Proof.
  exact (removed_subscriptions_are_not_listed ready_persistence sample_world client_c1 (["a/b"; "no/such"])
           ready_persistence_serving).
Defined.

(** X3: after [cleanSubscriptions] for a client, [subscriptionsByClient]
    lists nothing for it, [getClientList] names it for no topic, and the
    list of any other client is the same as before. *)
Theorem cleaned_client_has_no_subscriptions :
  forall (p : persistence) (w : world) (c : client),
    serving p ->
    let w1 := snd (cleanSubscriptions p c w) in
    fst (cleanSubscriptions p c w) = Ok c
    /\ fst (subscriptionsByClient p c w1) = Ok ([], c)
    /\ (forall t, exists l, fst (getClientList p t w1) = Ok l /\ ~ In (id c) l)
    /\ (forall c', id c' <> id c ->
                   fst (subscriptionsByClient p c' w1)
                   = fst (subscriptionsByClient p c' w)).
Proof.
  intros p w c Hs w1. pose proof Hs as [Hr _].
  assert (E : cleanSubscriptions p c w
              = (Ok c,
                 with_db
                   (with_subscriptions
                      (delete_where
                         (fun r => String.eqb (s_client_id r) (id c))
                         (aedes_subscriptions (db w))) (db w))
                   (logged "DELETE FROM aedes_subscriptions WHERE client_id = ?"
                           w))).
  { unfold cleanSubscriptions. rewrite Hr. cbn [negb].
    rewrite execute_serving by assumption. reflexivity. }
  subst w1. rewrite E. cbn [fst snd].
  split; [reflexivity|]. split; [|split].
  - rewrite subscriptionsByClient_serving by assumption. cbn.
    rewrite filter_filter, filter_none; [reflexivity|].
    intros r _. now destruct (String.eqb (s_client_id r) (id c)).
  - intros t. unfold getClientList. rewrite Hr. cbn [negb].
    rewrite execute_serving by assumption.
    unfold select_clients_by_topic, select_where. cbn.
    eexists. split; [reflexivity|].
    rewrite nodup_In, in_map_iff. intros (r & Hc & Hin).
    apply filter_In in Hin. destruct Hin as [Hin _].
    apply filter_In in Hin. destruct Hin as [_ Hin].
    rewrite Hc, String.eqb_refl in Hin. discriminate.
  - intros c' Hc'. rewrite !subscriptionsByClient_serving by assumption.
    cbn. do 3 f_equal. rewrite filter_filter.
    apply filter_ext. intros r.
    destruct (String.eqb_spec (s_client_id r) (id c')) as [E'|];
      [|now rewrite andb_false_r].
    rewrite andb_true_r, E'.
    now rewrite (proj2 (String.eqb_neq (id c') (id c)) Hc').
Qed.

Lemma cleaned_client_has_no_subscriptions_witness :
  let p := ready_persistence in
  let w := sample_world in
  let c := client_c1 in
  let w1 := snd (cleanSubscriptions p c w) in
  fst (cleanSubscriptions p c w) = Ok c
  /\ fst (subscriptionsByClient p c w1) = Ok ([], c)
  /\ (forall t, exists l, fst (getClientList p t w1) = Ok l /\ ~ In (id c) l)
  /\ (forall c', id c' <> id c ->
                 fst (subscriptionsByClient p c' w1)
                 = fst (subscriptionsByClient p c' w)).
Proof.
  exact (cleaned_client_has_no_subscriptions ready_persistence sample_world client_c1
           ready_persistence_serving).
Defined.

Lemma nodup_length_le (l : list string) :
  (List.length (nodup string_dec l) <= List.length l)%nat.
Proof.
  induction l as [|x l IH]; cbn; [lia|].
  destruct (in_dec string_dec x l); cbn; lia.
Qed.

(** X4: [countOffline] sends its two statements and changes nothing; it
    answers the number of subscription rows and the number of distinct
    clients among them, which is at most the first and is zero exactly
    when the first is. *)
Theorem countOffline_counts :
  forall (p : persistence) (w : world),
    serving p ->
    exists numSubscriptions numClients,
      fst (countOffline p w) = Ok (numSubscriptions, numClients)
      /\ numSubscriptions
         = Z.of_nat (List.length (rows (aedes_subscriptions (db w))))
      /\ numClients
         = Z.of_nat (List.length
                       (nodup string_dec
                              (map s_client_id
                                   (rows (aedes_subscriptions (db w))))))
      /\ 0 <= numClients <= numSubscriptions
      /\ (numClients = 0 <-> numSubscriptions = 0)
      /\ db (snd (countOffline p w)) = db w
      /\ executed (snd (countOffline p w))
         = (executed w
              ++ ["SELECT COUNT(*) as count FROM aedes_subscriptions";
                  "SELECT COUNT(DISTINCT client_id) as count FROM aedes_subscriptions"])%list.
Proof.
  intros p w Hs. pose proof Hs as [Hr _].
  unfold countOffline. rewrite Hr. cbn [negb].
  rewrite execute_serving by assumption.
  unfold count_subscriptions. cbn.
  rewrite execute_serving by assumption.
  unfold count_distinct_clients. cbn.
  eexists. eexists. split; [reflexivity|]. split; [reflexivity|].
  split; [reflexivity|].
  pose proof (nodup_length_le (map s_client_id (rows (aedes_subscriptions (db w)))))
    as Hle.
  rewrite length_map in Hle.
  split; [lia|]. split; [|split; [reflexivity|now rewrite <- app_assoc]].
  destruct (rows (aedes_subscriptions (db w))) as [|r rs]; [cbn; tauto|].
  split; intros H0; exfalso.
  - assert (Hin : In (s_client_id r)
                     (nodup string_dec (map s_client_id (r :: rs))))
      by (apply nodup_In; now left).
    destruct (nodup string_dec (map s_client_id (r :: rs))); [contradiction|].
    cbn in H0. lia.
  - cbn in H0. lia.
Qed.

Lemma countOffline_counts_witness :
  let p := ready_persistence in
  let w := sample_world in
  exists numSubscriptions numClients,
    fst (countOffline p w) = Ok (numSubscriptions, numClients)
    /\ numSubscriptions
       = Z.of_nat (List.length (rows (aedes_subscriptions (db w))))
    /\ numClients
       = Z.of_nat (List.length
                     (nodup string_dec
                            (map s_client_id
                                 (rows (aedes_subscriptions (db w))))))
    /\ 0 <= numClients <= numSubscriptions
    /\ (numClients = 0 <-> numSubscriptions = 0)
    /\ db (snd (countOffline p w)) = db w
    /\ executed (snd (countOffline p w))
       = (executed w
            ++ ["SELECT COUNT(*) as count FROM aedes_subscriptions";
                "SELECT COUNT(DISTINCT client_id) as count FROM aedes_subscriptions"])%list.
Proof.
  exact (countOffline_counts ready_persistence sample_world
           ready_persistence_serving).
Defined.

(** X5: [getClientList] names each client once, and names exactly the
    clients that hold a subscription whose stored topic is equal to the
    given one. *)
Theorem getClientList_exact_topic :
  forall (p : persistence) (w : world) (t : string),
    serving p ->
    exists l,
      fst (getClientList p t w) = Ok l
      /\ NoDup l
      /\ (forall cid,
            In cid l
            <-> exists r, In r (rows (aedes_subscriptions (db w)))
                          /\ s_client_id r = cid /\ s_topic r = t)
      /\ db (snd (getClientList p t w)) = db w.
Proof.
  intros p w t Hs. pose proof Hs as [Hr _].
  unfold getClientList. rewrite Hr. cbn [negb].
  rewrite execute_serving by assumption.
  unfold select_clients_by_topic, select_where. cbn.
  eexists. split; [reflexivity|]. split; [apply NoDup_nodup|].
  split; [|reflexivity].
  intros cid. rewrite nodup_In, in_map_iff. split.
  - intros (r & Hc & Hin). apply filter_In in Hin. destruct Hin as [Hin Ht].
    apply String.eqb_eq in Ht. eauto.
  - intros (r & Hin & Hc & Ht). exists r. split; [exact Hc|].
    apply filter_In. split; [exact Hin|]. now apply String.eqb_eq.
Qed.

Lemma getClientList_exact_topic_witness :
  let p := ready_persistence in
  let w := sample_world in
  let t := "a/+" in
  exists l,
    fst (getClientList p t w) = Ok l
    /\ NoDup l
    /\ (forall cid,
          In cid l
          <-> exists r, In r (rows (aedes_subscriptions (db w)))
                        /\ s_client_id r = cid /\ s_topic r = t)
    /\ db (snd (getClientList p t w)) = db w.
Proof.
  exact (getClientList_exact_topic ready_persistence sample_world "a/+"
           ready_persistence_serving).
Defined.

(* ------------------------------------------------------------------ *)
(** ** The offline queue after its other operations *)

Section UpdatedRows.
Context {R : Type}.

Lemma filter_update_commute (f cond : R -> bool) (update : R -> R)
      (l : list R) :
  (forall r, f (update r) = f r) ->
  filter f (map (fun r => if cond r then update r else r) l)
  = map (fun r => if cond r then update r else r) (filter f l).
Proof.
  intros Hu. induction l as [|r l IH]; cbn; [reflexivity|].
  assert (E : f (if cond r then update r else r) = f r)
    by (destruct (cond r); auto).
  rewrite E. destruct (f r); cbn; now rewrite IH.
Qed.

Lemma map_update_other (f cond : R -> bool) (update : R -> R) (l : list R) :
  (forall r, cond r = true -> f r = false) ->
  map (fun r => if cond r then update r else r) (filter f l) = filter f l.
Proof.
  intros Hc. induction l as [|r l IH]; cbn; [reflexivity|].
  destruct (f r) eqn:E; cbn; [|exact IH].
  rewrite IH. destruct (cond r) eqn:Ec; [|reflexivity].
  rewrite (Hc r Ec) in E. discriminate.
Qed.

End UpdatedRows.

Lemma outgoingUpdate_serving (p : persistence) (c : client) (pkt : packet)
      (m : Z) (w : world) :
  serving p -> messageId pkt = Some m ->
  exists w',
    outgoingUpdate p c pkt w = (Ok tt, w')
    /\ db w'
       = with_outgoing
           (update_where
              (fun r => String.eqb (o_client_id r) (id c)
                        && String.eqb (o_topic r) (topic pkt)
                        && bytes_eqb (o_payload r) (payload pkt))
              (fun r => {| o_id := o_id r; o_client_id := o_client_id r;
                           o_message_id := Some m; o_topic := o_topic r;
                           o_payload := o_payload r; o_qos := o_qos r;
                           o_retain_flag := o_retain_flag r;
                           o_dup_flag := or_false (dup pkt);
                           o_created_at := o_created_at r |})
              (aedes_outgoing (db w))) (db w).
Proof.
  intros Hs Hm. pose proof Hs as [Hr _].
  unfold outgoingUpdate. rewrite Hr, Hm. cbn [negb].
  rewrite execute_serving by assumption.
  eexists. split; reflexivity.
Qed.

Lemma outgoingClearMessageId_serving (p : persistence) (c : client)
      (pkt : packet) (m : Z) (w : world) :
  serving p -> messageId pkt = Some m ->
  exists w',
    outgoingClearMessageId p c pkt w = (Ok pkt, w')
    /\ db w'
       = with_outgoing
           (delete_where
              (fun r => String.eqb (o_client_id r) (id c)
                        && sql_eq_int (o_message_id r) m)
              (aedes_outgoing (db w))) (db w).
Proof.
  intros Hs Hm. pose proof Hs as [Hr _].
  unfold outgoingClearMessageId. rewrite Hr, Hm. cbn [negb].
  rewrite execute_serving by assumption.
  eexists. split; reflexivity.
Qed.

Lemma stream_after_update (p : persistence) (c c' : client) (pkt : packet)
      (m : Z) (w : world) :
  serving p -> well_formed (db w) -> messageId pkt = Some m ->
  fst (outgoingStream p c' (snd (outgoingUpdate p c pkt w)))
  = map_result
      (fun l => if String.eqb (id c') (id c) then map (updated pkt m) l else l)
      (fst (outgoingStream p c' w)).
Proof.
  intros Hs Hwf Hm.
  destruct (outgoingUpdate_serving p c pkt m w Hs Hm) as (w' & E & Hdb).
  rewrite E. cbn [snd].
  assert (Ha : ascending o_id (aedes_outgoing (db w'))).
  { rewrite Hdb. cbn. apply ascending_map; [reflexivity|apply Hwf]. }
  rewrite !outgoingStream_serving by (assumption || apply Hwf).
  cbn [map_result]. f_equal. rewrite Hdb.
  cbn [aedes_outgoing with_outgoing update_where rows].
  rewrite filter_update_commute by reflexivity.
  destruct (String.eqb_spec (id c') (id c)) as [Ec|Ec].
  - rewrite !map_map. apply map_ext_in. intros r Hin.
    apply filter_In in Hin. destruct Hin as [_ Hc].
    rewrite Ec in Hc. rewrite Hc. cbn [andb].
    unfold updated, outgoing_of_row. cbn.
    now destruct (String.eqb (o_topic r) (topic pkt)
                  && bytes_eqb (o_payload r) (payload pkt)).
  - rewrite map_update_other; [reflexivity|].
    intros r Hr. apply andb_true_iff in Hr. destruct Hr as [Hr _].
    apply andb_true_iff in Hr. destruct Hr as [Hr _].
    apply String.eqb_eq in Hr. rewrite Hr.
    apply String.eqb_neq. congruence.
Qed.

Lemma stream_after_clear (p : persistence) (c c' : client) (pkt : packet)
      (m : Z) (w : world) :
  serving p -> well_formed (db w) -> messageId pkt = Some m ->
  fst (outgoingStream p c' (snd (outgoingClearMessageId p c pkt w)))
  = map_result
      (fun l => if String.eqb (id c') (id c)
                then filter (fun o => negb (sql_eq_int (op_messageId o) m)) l
                else l)
      (fst (outgoingStream p c' w)).
Proof.
  intros Hs Hwf Hm.
  destruct (outgoingClearMessageId_serving p c pkt m w Hs Hm) as (w' & E & Hdb).
  rewrite E. cbn [snd].
  assert (Ha : ascending o_id (aedes_outgoing (db w'))).
  { rewrite Hdb. cbn. apply ascending_delete_where, Hwf. }
  rewrite !outgoingStream_serving by (assumption || apply Hwf).
  cbn [map_result]. f_equal. rewrite Hdb.
  cbn [aedes_outgoing with_outgoing delete_where rows].
  rewrite filter_filter.
  destruct (String.eqb_spec (id c') (id c)) as [Ec|Ec].
  - rewrite filter_map_commute, filter_filter. f_equal.
    apply filter_ext. intros r. rewrite Ec. cbn.
    destruct (String.eqb (o_client_id r) (id c)); cbn; [|reflexivity].
    now rewrite andb_true_r.
  - f_equal. apply filter_ext. intros r.
    destruct (String.eqb_spec (o_client_id r) (id c')) as [E'|];
      [|now rewrite andb_false_r].
    rewrite andb_true_r, E'.
    now rewrite (proj2 (String.eqb_neq (id c') (id c)) Ec).
Qed.

(** X7: [outgoingUpdate] gives the message id and the dup flag of its
    packet to every queued packet of the client with the same topic and
    payload, and changes neither the order nor the length of the client's
    stream, nor the stream of any other client. *)
Theorem outgoingUpdate_keeps_the_order :
  forall (p : persistence) (w : world) (c c' : client) (pkt : packet) (m : Z),
    serving p ->
    well_formed (db w) ->
    messageId pkt = Some m ->
    let w1 := snd (outgoingUpdate p c pkt w) in
    fst (outgoingUpdate p c pkt w) = Ok tt
    /\ (exists before,
          fst (outgoingStream p c w) = Ok before
          /\ fst (outgoingStream p c w1) = Ok (map (updated pkt m) before))
    /\ (id c' <> id c ->
        fst (outgoingStream p c' w1) = fst (outgoingStream p c' w)).
Proof.
  intros p w c c' pkt m Hs Hwf Hm w1. subst w1.
  destruct (outgoingUpdate_serving p c pkt m w Hs Hm) as (w' & E & _).
  split; [now rewrite E|]. split.
  - rewrite (stream_after_update p c c pkt m w) by assumption.
    rewrite outgoingStream_serving by (assumption || apply Hwf).
    eexists. split; [reflexivity|]. cbn. now rewrite String.eqb_refl.
  - intros Hne. rewrite (stream_after_update p c c' pkt m w) by assumption.
    rewrite (proj2 (String.eqb_neq (id c') (id c)) Hne).
    now destruct (fst (outgoingStream p c' w)).
Qed.

Lemma outgoingUpdate_keeps_the_order_witness :
  let p := ready_persistence in
  let w := sample_world in
  let c := client_c1 in
  let c' := client_c2 in
  let pkt := first_with_id in
  let m := 11 in
  let w1 := snd (outgoingUpdate p c pkt w) in
  fst (outgoingUpdate p c pkt w) = Ok tt
  /\ (exists before,
        fst (outgoingStream p c w) = Ok before
        /\ fst (outgoingStream p c w1) = Ok (map (updated pkt m) before))
  /\ (id c' <> id c ->
      fst (outgoingStream p c' w1) = fst (outgoingStream p c' w)).
Proof.
  exact (outgoingUpdate_keeps_the_order ready_persistence sample_world client_c1 client_c2 first_with_id 11
           ready_persistence_serving sample_world_well_formed eq_refl).
Defined.

(** X8: [outgoingClearMessageId] removes from the client's stream the
    packets that carry the message id, keeps the others in their order,
    among them every packet without a message id, and leaves the stream of
    any other client as it was. *)
Theorem outgoingClearMessageId_removes_by_id :
  forall (p : persistence) (w : world) (c c' : client) (pkt : packet) (m : Z),
    serving p ->
    well_formed (db w) ->
    messageId pkt = Some m ->
    let w1 := snd (outgoingClearMessageId p c pkt w) in
    fst (outgoingClearMessageId p c pkt w) = Ok pkt
    /\ (exists before,
          fst (outgoingStream p c w) = Ok before
          /\ fst (outgoingStream p c w1)
             = Ok (filter (fun o => negb (sql_eq_int (op_messageId o) m)) before)
          /\ forall o, In o before -> op_messageId o = None ->
                       exists after, fst (outgoingStream p c w1) = Ok after
                                     /\ In o after)
    /\ (id c' <> id c ->
        fst (outgoingStream p c' w1) = fst (outgoingStream p c' w)).
Proof.
  intros p w c c' pkt m Hs Hwf Hm w1. subst w1.
  destruct (outgoingClearMessageId_serving p c pkt m w Hs Hm) as (w' & E & _).
  split; [now rewrite E|]. split.
  - rewrite (stream_after_clear p c c pkt m w) by assumption.
    rewrite outgoingStream_serving by (assumption || apply Hwf).
    eexists. split; [reflexivity|]. cbn [map_result].
    rewrite String.eqb_refl. split; [reflexivity|].
    intros o Hin Hnone. eexists. split; [reflexivity|].
    apply filter_In. split; [exact Hin|]. now rewrite Hnone.
  - intros Hne. rewrite (stream_after_clear p c c' pkt m w) by assumption.
    rewrite (proj2 (String.eqb_neq (id c') (id c)) Hne).
    now destruct (fst (outgoingStream p c' w)).
Qed.

Lemma outgoingClearMessageId_removes_by_id_witness :
  let p := ready_persistence in
  let w := sample_world in
  let c := client_c1 in
  let c' := client_c2 in
  let pkt := first_with_id in
  let m := 11 in
  let w1 := snd (outgoingClearMessageId p c pkt w) in
  fst (outgoingClearMessageId p c pkt w) = Ok pkt
  /\ (exists before,
        fst (outgoingStream p c w) = Ok before
        /\ fst (outgoingStream p c w1)
           = Ok (filter (fun o => negb (sql_eq_int (op_messageId o) m)) before)
        /\ forall o, In o before -> op_messageId o = None ->
                     exists after, fst (outgoingStream p c w1) = Ok after
                                   /\ In o after)
  /\ (id c' <> id c ->
      fst (outgoingStream p c' w1) = fst (outgoingStream p c' w)).
Proof.
  exact (outgoingClearMessageId_removes_by_id ready_persistence sample_world client_c1 client_c2 first_with_id 11
           ready_persistence_serving sample_world_well_formed eq_refl).
Defined.

Lemma bytes_eqb_refl (b : bytes) : bytes_eqb b b = true.
Proof. unfold bytes_eqb. now destruct (list_eq_dec Byte.byte_eq_dec b b). Qed.

Lemma sql_eq_int_refl (m : Z) : sql_eq_int (Some m) m = true.
Proof. cbn. apply Z.eqb_refl. Qed.

(** X9: queued packets that [outgoingUpdate] gives a message id and that
    [outgoingClearMessageId] then clears under that id are gone from the
    client's stream: what is left of the stream is, in its order, every
    packet that has neither the topic and payload of the update nor that
    message id. *)
Theorem update_then_clear :
  forall (p : persistence) (w : world) (c : client) (P : packet) (m : Z),
    serving p ->
    well_formed (db w) ->
    messageId P = Some m ->
    let w1 := snd (outgoingUpdate p c P w) in
    let w2 := snd (outgoingClearMessageId p c P w1) in
    exists before,
      fst (outgoingStream p c w) = Ok before
      /\ fst (outgoingStream p c w2)
         = Ok (filter
                 (fun o => negb (String.eqb (op_topic o) (topic P)
                                 && bytes_eqb (op_payload o) (payload P))
                           && negb (sql_eq_int (op_messageId o) m))
                 before).
Proof.
  intros p w c P m Hs Hwf Hm w1 w2.
  assert (Hwf1 : well_formed (db w1))
    by exact (call_keeps_constraints (OutgoingUpdate c P) p w Hwf).
  exists (map outgoing_of_row
              (filter (fun r => String.eqb (o_client_id r) (id c))
                      (rows (aedes_outgoing (db w))))).
  split; [exact (outgoingStream_serving p c w Hs (wf_outgoing_id _ Hwf))|].
  subst w2. rewrite (stream_after_clear p c c P m w1) by assumption.
  subst w1. rewrite (stream_after_update p c c P m w) by assumption.
  rewrite (outgoingStream_serving p c w Hs (wf_outgoing_id _ Hwf)).
  cbn [map_result]. rewrite String.eqb_refl. f_equal.
  generalize (map outgoing_of_row
                  (filter (fun r => String.eqb (o_client_id r) (id c))
                          (rows (aedes_outgoing (db w))))) as l.
  induction l as [|o l IH]; [reflexivity|].
  cbn [map filter]. rewrite IH. unfold updated.
  destruct (String.eqb (op_topic o) (topic P)
            && bytes_eqb (op_payload o) (payload P)); cbn [negb andb].
  - cbn [op_messageId]. now rewrite sql_eq_int_refl.
  - reflexivity.
Qed.

Lemma update_then_clear_witness :
  let p := ready_persistence in
  let w := sample_world in
  let c := client_c1 in
  let P := first_with_id in
  let m := 11 in
  let w1 := snd (outgoingUpdate p c P w) in
  let w2 := snd (outgoingClearMessageId p c P w1) in
  exists before,
    fst (outgoingStream p c w) = Ok before
    /\ fst (outgoingStream p c w2)
       = Ok (filter
               (fun o => negb (String.eqb (op_topic o) (topic P)
                               && bytes_eqb (op_payload o) (payload P))
                         && negb (sql_eq_int (op_messageId o) m))
               before).
Proof.
  exact (update_then_clear ready_persistence sample_world client_c1
           first_with_id 11
           ready_persistence_serving sample_world_well_formed eq_refl).
Defined.

(* ------------------------------------------------------------------ *)
(** ** Incoming packets after a delete *)

(** X10: after [incomingDelPacket] for a (client, message id) pair,
    [incomingGetPacket] for that pair fails with "Packet not found",
    whatever was stored under it; a packet stored under another pair is
    still handed over as before. *)
Theorem deleted_incoming_is_not_found :
  forall (p : persistence) (w : world) (c c' : client) (pkt pkt' : packet)
         (m m' : Z),
    serving p ->
    messageId pkt = Some m ->
    messageId pkt' = Some m' ->
    (id c', m') <> (id c, m) ->
    let w1 := snd (incomingDelPacket p c pkt w) in
    fst (incomingDelPacket p c pkt w) = Ok pkt
    /\ fst (incomingGetPacket p c pkt w1) = Err packet_not_found
    /\ fst (incomingGetPacket p c' pkt' w1) = fst (incomingGetPacket p c' pkt' w).
Proof.
  intros p w c c' pkt pkt' m m' Hs Hm Hm' Hne w1. pose proof Hs as [Hr _].
  assert (E : incomingDelPacket p c pkt w
              = (Ok pkt,
                 with_db
                   (with_incoming
                      (delete_where
                         (fun r => String.eqb (i_client_id r) (id c)
                                   && (i_message_id r =? m))
                         (aedes_incoming (db w))) (db w))
                   (logged
                      "DELETE FROM aedes_incoming WHERE client_id = ? AND message_id = ?"
                      w))).
  { unfold incomingDelPacket. rewrite Hr, Hm. cbn [negb].
    rewrite execute_serving by assumption. reflexivity. }
  subst w1. rewrite E. cbn [fst snd]. split; [reflexivity|].
  unfold incomingGetPacket. rewrite Hr, Hm, Hm'. cbn [negb].
  rewrite !execute_serving by assumption.
  unfold select_incoming, select_where, and_then. cbn.
  rewrite !filter_filter. split.
  - rewrite filter_none; [reflexivity|].
    intros r _.
    now destruct (String.eqb (i_client_id r) (id c) && (i_message_id r =? m)).
  - erewrite filter_ext; [reflexivity|].
    intros r. cbn.
    destruct (String.eqb_spec (i_client_id r) (id c')) as [E1|];
      [|now rewrite andb_false_r].
    destruct (Z.eqb_spec (i_message_id r) m') as [E2|];
      [|now rewrite andb_false_r].
    cbn. rewrite andb_true_r. apply negb_true_iff, andb_false_iff.
    destruct (String.eqb_spec (i_client_id r) (id c)) as [E3|]; [|now left].
    right. apply Z.eqb_neq. intros E4. apply Hne. congruence.
Qed.

Lemma deleted_incoming_is_not_found_witness :
  let p := ready_persistence in
  let w := sample_world in
  let c := client_c1 in
  let c' := client_c2 in
  let pkt := pubrel_7 in
  let pkt' := pubrel_7 in
  let m := 7 in
  let m' := 7 in
  let w1 := snd (incomingDelPacket p c pkt w) in
  fst (incomingDelPacket p c pkt w) = Ok pkt
  /\ fst (incomingGetPacket p c pkt w1) = Err packet_not_found
  /\ fst (incomingGetPacket p c' pkt' w1) = fst (incomingGetPacket p c' pkt' w).
Proof.
  exact (deleted_incoming_is_not_found ready_persistence sample_world client_c1 client_c2 pubrel_7 pubrel_7 7 7
           ready_persistence_serving eq_refl eq_refl ltac:(cbn; discriminate)).
Defined.

(* ------------------------------------------------------------------ *)
(** ** Wills *)

Lemma putWill_serving (p : persistence) (c : client) (pkt : packet) (w : world) :
  serving p ->
  exists w',
    putWill p c pkt w = (Ok tt, w')
    /\ aedes_will (db w')
       = insert_on_duplicate
           (fun r => String.eqb (w_client_id r) (id c))
           (fun r => {| w_id := w_id r; w_client_id := w_client_id r;
                        w_topic := topic pkt; w_payload := payload pkt;
                        w_qos := qos pkt;
                        w_retain_flag := or_false (retain pkt);
                        w_broker_id := match client_broker c with
                                       | Some b => Some (broker_id b)
                                       | None => None
                                       end;
                        w_created_at := clock w |})
           (fun k => {| w_id := k; w_client_id := id c;
                        w_topic := topic pkt; w_payload := payload pkt;
                        w_qos := qos pkt;
                        w_retain_flag := or_false (retain pkt);
                        w_broker_id := match client_broker c with
                                       | Some b => Some (broker_id b)
                                       | None => None
                                       end;
                        w_created_at := clock w |})
           (aedes_will (db w)).
Proof.
  intros Hs. pose proof Hs as [Hr _].
  unfold putWill. rewrite Hr. cbn [negb].
  rewrite execute_serving by assumption.
  eexists. split; reflexivity.
Qed.

Lemma getWill_serving (p : persistence) (c : client) (w : world) :
  serving p ->
  fst (getWill p c w)
  = Ok match filter (fun r => String.eqb (w_client_id r) (id c))
                    (rows (aedes_will (db w))) with
       | [] => None
       | row :: _ => Some (will_of_row row)
       end.
Proof.
  intros Hs. pose proof Hs as [Hr _].
  unfold getWill. rewrite Hr. cbn [negb].
  rewrite execute_serving by assumption. reflexivity.
Qed.

(** The rows of a client after [putWill] carry the new will. *)
Lemma put_will_rows (p : persistence) (c : client) (pkt : packet) (w : world)
      (r : will_row) :
  serving p ->
  In r (rows (aedes_will (db (snd (putWill p c pkt w))))) ->
  w_client_id r = id c ->
  will_of_row r = will_of_packet pkt
  /\ w_broker_id r = match client_broker c with
                     | Some b => Some (broker_id b)
                     | None => None
                     end.
Proof.
  intros Hs Hin Hc.
  destruct (putWill_serving p c pkt w Hs) as (w' & E & Hdb).
  rewrite E in Hin. cbn [snd] in Hin. rewrite Hdb in Hin.
  apply insert_on_duplicate_in in Hin.
  destruct Hin as [(x & Hx & -> & _)|(He & [Hx| ->])].
  - destruct (String.eqb_spec (w_client_id x) (id c)); [|contradiction].
    split; reflexivity.
  - apply (existsb_false _ _ He) in Hx. cbn in Hx.
    apply String.eqb_neq in Hx. contradiction.
  - split; reflexivity.
Qed.

(** X11: after [putWill], [getWill] for the client hands over the topic,
    payload and qos of the packet and its retain flag, or false without
    one, whatever will was stored for the client before; the will of any
    other client is handed over as before. *)
Theorem put_will_then_get :
  forall (p : persistence) (w : world) (c c' : client) (pkt : packet),
    serving p ->
    let w1 := snd (putWill p c pkt w) in
    fst (putWill p c pkt w) = Ok tt
    /\ fst (getWill p c w1) = Ok (Some (will_of_packet pkt))
    /\ (id c' <> id c -> fst (getWill p c' w1) = fst (getWill p c' w)).
Proof.
  intros p w c c' pkt Hs w1.
  destruct (putWill_serving p c pkt w Hs) as (w' & E & Hdb).
  split; [now rewrite E|]. split.
  - rewrite getWill_serving by assumption.
    destruct (filter _ (rows (aedes_will (db w1)))) as [|r rs] eqn:Ef.
    + exfalso.
      destruct (insert_on_duplicate_stores
                  (fun r => String.eqb (w_client_id r) (id c))
                  (fun r => {| w_id := w_id r; w_client_id := w_client_id r;
                               w_topic := topic pkt; w_payload := payload pkt;
                               w_qos := qos pkt;
                               w_retain_flag := or_false (retain pkt);
                               w_broker_id := match client_broker c with
                                              | Some b => Some (broker_id b)
                                              | None => None
                                              end;
                               w_created_at := clock w |})
                  (fun k => {| w_id := k; w_client_id := id c;
                               w_topic := topic pkt; w_payload := payload pkt;
                               w_qos := qos pkt;
                               w_retain_flag := or_false (retain pkt);
                               w_broker_id := match client_broker c with
                                              | Some b => Some (broker_id b)
                                              | None => None
                                              end;
                               w_created_at := clock w |})
                  (aedes_will (db w))) as (r & Hin & Hc & _).
      * intros x Hx. exact Hx.
      * cbn. apply String.eqb_refl.
      * rewrite <- Hdb in Hin.
        assert (Hf : In r (filter (fun r => String.eqb (w_client_id r) (id c))
                                  (rows (aedes_will (db w1)))))
          by (subst w1; rewrite E; apply filter_In; auto).
        rewrite Ef in Hf. contradiction.
    + assert (Hf : In r (filter (fun r => String.eqb (w_client_id r) (id c))
                                (rows (aedes_will (db w1)))))
        by (rewrite Ef; now left).
      apply filter_In in Hf. destruct Hf as [Hin Hc].
      apply String.eqb_eq in Hc.
      destruct (put_will_rows p c pkt w r Hs Hin Hc) as [-> _]. reflexivity.
  - intros Hne. rewrite !getWill_serving by assumption.
    subst w1. rewrite E. cbn [snd]. rewrite Hdb.
    rewrite filter_insert_on_duplicate_other; [reflexivity| |].
    + intros r Hr. apply String.eqb_eq in Hr. cbn. rewrite Hr.
      rewrite (proj2 (String.eqb_neq (id c) (id c'))) by congruence. auto.
    + cbn. apply String.eqb_neq. congruence.
Qed.

Lemma put_will_then_get_witness :
  let p := ready_persistence in
  let w := sample_world in
  let c := client_c1 in
  let c' := client_c3 in
  let pkt := publish "last/c1" "again" 2 in
  let w1 := snd (putWill p c pkt w) in
  fst (putWill p c pkt w) = Ok tt
  /\ fst (getWill p c w1) = Ok (Some (will_of_packet pkt))
  /\ (id c' <> id c -> fst (getWill p c' w1) = fst (getWill p c' w)).
Proof.
  exact (put_will_then_get ready_persistence sample_world client_c1 client_c3 (publish "last/c1" "again" 2)
           ready_persistence_serving).
Defined.

(** X12: after [delWill], [getWill] for the client succeeds with no
    will, and the will of any other client is handed over as before. *)
Theorem deleted_will_is_gone :
  forall (p : persistence) (w : world) (c c' : client),
    serving p ->
    let w1 := snd (delWill p c w) in
    fst (delWill p c w) = Ok tt
    /\ fst (getWill p c w1) = Ok None
    /\ (id c' <> id c -> fst (getWill p c' w1) = fst (getWill p c' w)).
Proof.
  intros p w c c' Hs w1. pose proof Hs as [Hr _].
  assert (E : delWill p c w
              = (Ok tt,
                 with_db
                   (with_will
                      (delete_where
                         (fun r => String.eqb (w_client_id r) (id c))
                         (aedes_will (db w))) (db w))
                   (logged "DELETE FROM aedes_will WHERE client_id = ?" w))).
  { unfold delWill. rewrite Hr. cbn [negb].
    rewrite execute_serving by assumption. reflexivity. }
  subst w1. rewrite E. cbn [fst snd]. split; [reflexivity|].
  rewrite !getWill_serving by assumption. cbn. rewrite !filter_filter. split.
  - rewrite filter_none; [reflexivity|].
    intros r _. now destruct (String.eqb (w_client_id r) (id c)).
  - intros Hne. erewrite filter_ext; [reflexivity|].
    intros r. cbn.
    destruct (String.eqb_spec (w_client_id r) (id c')) as [E'|];
      [|now rewrite andb_false_r].
    rewrite andb_true_r, E'.
    now rewrite (proj2 (String.eqb_neq (id c') (id c)) Hne).
Qed.

Lemma deleted_will_is_gone_witness :
  let p := ready_persistence in
  let w := sample_world in
  let c := client_c1 in
  let c' := client_c3 in
  let w1 := snd (delWill p c w) in
  fst (delWill p c w) = Ok tt
  /\ fst (getWill p c w1) = Ok None
  /\ (id c' <> id c -> fst (getWill p c' w1) = fst (getWill p c' w)).
Proof.
  exact (deleted_will_is_gone ready_persistence sample_world client_c1 client_c3
           ready_persistence_serving).
Defined.

Lemma streamWill_serving {B : Type} (p : persistence)
      (brokers : list (string * B)) (w : world) :
  serving p ->
  fst (streamWill p brokers w)
  = Ok (map will_entry_of_row
            (filter (fun r => sql_in (w_broker_id r) (Object_keys brokers))
                    (rows (aedes_will (db w)))))
  /\ db (snd (streamWill p brokers w)) = db w
  /\ (brokers = [] -> snd (streamWill p brokers w) = w).
Proof.
  intros Hs. pose proof Hs as [Hr _].
  unfold streamWill. rewrite Hr. cbn [negb].
  destruct (Object_keys brokers) as [|k ks] eqn:Ek.
  - cbn. repeat split.
    rewrite filter_none; [reflexivity|].
    intros r _. now destruct (w_broker_id r).
  - cbn [List.length Nat.eqb].
    rewrite execute_serving by assumption.
    unfold select_will_by_brokers, then_, select_where. cbn.
    repeat split. intros ->. discriminate.
Qed.

(** X13: [streamWill] changes nothing in the store and delivers exactly
    the stored wills whose [broker_id] is one of the keys of [brokers],
    each with that id; for an empty [brokers] it delivers nothing and sends
    no statement. *)
Theorem streamWill_selects_by_broker :
  forall (B : Type) (p : persistence) (brokers : list (string * B)) (w : world),
    serving p ->
    exists items,
      fst (streamWill p brokers w) = Ok items
      /\ (forall e, In e items <->
                    exists r k, In r (rows (aedes_will (db w)))
                                /\ e = will_entry_of_row r
                                /\ In k (map fst brokers)
                                /\ w_broker_id r = Some k)
      /\ db (snd (streamWill p brokers w)) = db w
      /\ (brokers = [] -> items = [] /\ snd (streamWill p brokers w) = w).
Proof.
  intros B p brokers w Hs.
  destruct (streamWill_serving p brokers w Hs) as (E & Hdb & Hw).
  eexists. split; [exact E|]. split; [|split; [exact Hdb|]].
  - intros e. rewrite in_map_iff. split.
    + intros (r & <- & Hin). apply filter_In in Hin. destruct Hin as [Hin Hsel].
      destruct (w_broker_id r) as [k|] eqn:Ek; [|discriminate].
      exists r, k. repeat split; auto.
      cbn in Hsel. apply existsb_exists in Hsel.
      destruct Hsel as (k' & Hk' & Heq). apply String.eqb_eq in Heq. subst k'.
      unfold Object_keys in Hk'. now apply nodup_In in Hk'.
    + intros (r & k & Hin & -> & Hk & Hb). exists r. split; [reflexivity|].
      apply filter_In. split; [exact Hin|]. rewrite Hb. cbn.
      apply existsb_exists. exists k. split; [|apply String.eqb_refl].
      unfold Object_keys. now apply nodup_In.
  - intros ->. split; [|now apply Hw].
    rewrite filter_none; [reflexivity|].
    intros r _. now destruct (w_broker_id r).
Qed.

Lemma streamWill_selects_by_broker_witness :
  let B := Z in
  let p := ready_persistence in
  let brokers := [("broker-1", 0); ("broker-2", 0)] in
  let w := sample_world in
  exists items,
    fst (streamWill p brokers w) = Ok items
    /\ (forall e, In e items <->
                  exists r k, In r (rows (aedes_will (db w)))
                              /\ e = will_entry_of_row r
                              /\ In k (map fst brokers)
                              /\ w_broker_id r = Some k)
    /\ db (snd (streamWill p brokers w)) = db w
    /\ (brokers = [] -> items = [] /\ snd (streamWill p brokers w) = w).
Proof.
  exact (streamWill_selects_by_broker Z ready_persistence ([("broker-1", 0); ("broker-2", 0)]) sample_world
           ready_persistence_serving).
Defined.

(** X14: a will stored by [putWill] for a client of a broker is
    delivered by [streamWill] whenever the id of that broker is a key of
    [brokers], with the packet's contents and that broker id. *)
Theorem will_of_broker_is_streamed :
  forall (B : Type) (p : persistence) (w : world) (c : client) (b : broker)
         (pkt : packet) (brokers : list (string * B)),
    serving p ->
    client_broker c = Some b ->
    In (broker_id b) (map fst brokers) ->
    let w1 := snd (putWill p c pkt w) in
    exists items e,
      fst (streamWill p brokers w1) = Ok items
      /\ In e items
      /\ we_clientId e = id c
      /\ we_brokerId e = Some (broker_id b)
      /\ we_topic e = topic pkt
      /\ we_payload e = payload pkt
      /\ we_qos e = qos pkt
      /\ we_retain e = or_false (retain pkt).
Proof.
  intros B p w c b pkt brokers Hs Hb Hk w1.
  destruct (putWill_serving p c pkt w Hs) as (w' & E & Hdb).
  destruct (streamWill_serving p brokers w1 Hs) as (Es & _ & _).
  destruct (insert_on_duplicate_stores
              (fun r => String.eqb (w_client_id r) (id c))
              (fun r => {| w_id := w_id r; w_client_id := w_client_id r;
                           w_topic := topic pkt; w_payload := payload pkt;
                           w_qos := qos pkt;
                           w_retain_flag := or_false (retain pkt);
                           w_broker_id := match client_broker c with
                                          | Some b => Some (broker_id b)
                                          | None => None
                                          end;
                           w_created_at := clock w |})
              (fun k => {| w_id := k; w_client_id := id c;
                           w_topic := topic pkt; w_payload := payload pkt;
                           w_qos := qos pkt;
                           w_retain_flag := or_false (retain pkt);
                           w_broker_id := match client_broker c with
                                          | Some b => Some (broker_id b)
                                          | None => None
                                          end;
                           w_created_at := clock w |})
              (aedes_will (db w))) as (r & Hin & Hc & _).
  { intros x Hx. exact Hx. }
  { cbn. apply String.eqb_refl. }
  rewrite <- Hdb in Hin. apply String.eqb_eq in Hc.
  assert (Hin1 : In r (rows (aedes_will (db w1))))
    by (subst w1; now rewrite E).
  destruct (put_will_rows p c pkt w r Hs Hin1 Hc) as [Hw Hbr].
  rewrite Hb in Hbr.
  eexists. exists (will_entry_of_row r). split; [exact Es|].
  split.
  - apply in_map. apply filter_In. split; [exact Hin1|].
    rewrite Hbr. cbn. apply existsb_exists. exists (broker_id b).
    split; [|apply String.eqb_refl]. unfold Object_keys. now apply nodup_In.
  - unfold will_of_row, will_of_packet in Hw. inversion Hw as [[H1 H2 H3 H4]].
    cbn. auto 10.
Qed.

Lemma will_of_broker_is_streamed_witness :
  let B := Z in
  let p := ready_persistence in
  let w := sample_world in
  let c := client_c3 in
  let b := {| broker_id := "broker-1" |} in
  let pkt := publish "last/c3" "again" 1 in
  let brokers := [("broker-2", 0); ("broker-1", 0)] in
  let w1 := snd (putWill p c pkt w) in
  exists items e,
    fst (streamWill p brokers w1) = Ok items
    /\ In e items
    /\ we_clientId e = id c
    /\ we_brokerId e = Some (broker_id b)
    /\ we_topic e = topic pkt
    /\ we_payload e = payload pkt
    /\ we_qos e = qos pkt
    /\ we_retain e = or_false (retain pkt).
Proof.
  exact (will_of_broker_is_streamed Z ready_persistence sample_world client_c3 ({| broker_id := "broker-1" |}) (publish "last/c3" "again" 1) ([("broker-2", 0); ("broker-1", 0)])
           ready_persistence_serving eq_refl ltac:(cbn; right; left; reflexivity)).
Defined.

(* ------------------------------------------------------------------ *)
(** ** The life of the object *)

(** X15: the first [destroy] of an object marks it closed and not ready
    and ends its pool whatever [pool.end()] answers; its callback gets the
    rejection of [pool.end()] when there is one and no error otherwise; no
    statement is sent and the store stays as it is.  A second [destroy]
    answers success and changes nothing, also after a first one that
    failed, and every other operation is refused at the gate. *)
Theorem destroy_twice :
  forall (p : persistence) (w : world) (rq : request),
    _closed p = false ->
    pool p = Some PoolOpen ->
    rq <> Destroy ->
    let p1 := snd (fst (destroy p w)) in
    let w1 := snd (destroy p w) in
    failure_of (fst (fst (destroy p w))) = pool_end w
    /\ w1 = w
    /\ _closed p1 = true
    /\ _ready p1 = false
    /\ pool p1 = Some PoolEnded
    /\ connectionConfig p1 = connectionConfig p
    /\ ttl p1 = ttl p
    /\ destroy p1 w1 = (Ok tt, p1, w1)
    /\ failure (fst (fst (call rq p1 w1))) = Some not_ready
    /\ snd (call rq p1 w1) = w1.
Proof.
  intros p w rq Hc Hp Hrq p1 w1.
  assert (E : destroy p w
              = (match pool_end w with Some e => Err e | None => Ok tt end,
                 {| connectionConfig := connectionConfig p; ttl := ttl p;
                    pool := Some PoolEnded; _ready := false;
                    _closed := true |}, w)).
  { unfold destroy. now rewrite Hc, Hp. }
  subst p1 w1. rewrite E. cbn [fst snd].
  destruct (gate_rejects rq
              {| connectionConfig := connectionConfig p; ttl := ttl p;
                 pool := Some PoolEnded; _ready := false; _closed := true |}
              w eq_refl Hrq) as [Hw Hf].
  repeat split; try assumption.
  now destruct (pool_end w).
Qed.

Lemma destroy_twice_witness :
  let p := ready_persistence in
  let w := {| db := db sample_world; clock := 7; executed := [];
              provisioning := None;
              pool_end := Some (StoreError "ECONNRESET") |} in
  let rq := GetWill client_c1 in
  let p1 := snd (fst (destroy p w)) in
  let w1 := snd (destroy p w) in
  failure_of (fst (fst (destroy p w))) = pool_end w
  /\ w1 = w
  /\ _closed p1 = true
  /\ _ready p1 = false
  /\ pool p1 = Some PoolEnded
  /\ connectionConfig p1 = connectionConfig p
  /\ ttl p1 = ttl p
  /\ destroy p1 w1 = (Ok tt, p1, w1)
  /\ failure (fst (fst (call rq p1 w1))) = Some not_ready
  /\ snd (call rq p1 w1) = w1.
Proof.
  exact (destroy_twice ready_persistence
           {| db := db sample_world; clock := 7; executed := [];
              provisioning := None;
              pool_end := Some (StoreError "ECONNRESET") |}
           (GetWill client_c1)
           eq_refl eq_refl ltac:(discriminate)).
Defined.

(** X16: on an object that is not ready, whether its provisioning is
    pending, has failed or it was destroyed, every operation except
    [destroy] answers the "MySQL persistence not ready" error, sends no
    statement and leaves the store and the object as they are. *)
Theorem not_ready_changes_nothing :
  forall (rq : request) (p : persistence) (w : world),
    _ready p = false ->
    rq <> Destroy ->
    failure (fst (fst (call rq p w))) = Some not_ready
    /\ snd (fst (call rq p w)) = p
    /\ snd (call rq p w) = w.
Proof.
  intros rq p w Hr Hrq.
  destruct (gate_rejects rq p w Hr Hrq) as [Hw Hf].
  split; [exact Hf|split; [now apply call_keeps_object|exact Hw]].
Qed.

Lemma not_ready_changes_nothing_witness :
  let rq := StoreRetained (publish "a/b" "on" 1) in
  let p := AedesPersistenceMySQL default_options in
  let w := sample_world in
  failure (fst (fst (call rq p w))) = Some not_ready
  /\ snd (fst (call rq p w)) = p
  /\ snd (call rq p w) = w.
Proof.
  exact (not_ready_changes_nothing (StoreRetained (publish "a/b" "on" 1)) (AedesPersistenceMySQL default_options) sample_world
           eq_refl ltac:(discriminate)).
Defined.

Lemma closed_after (steps : list step) (pw : persistence * world) :
  _closed (fst (run_all steps pw))
  = _closed (fst pw) || existsb is_destroy steps.
Proof.
  revert pw. induction steps as [|s steps IH]; intros pw.
  - cbn. now rewrite orb_false_r.
  - change (run_all (s :: steps) pw) with (run_all steps (run s pw)).
    rewrite IH. cbn [existsb].
    destruct (is_destroy s) eqn:Es.
    + destruct s as [rq| |n|]; try discriminate Es.
      destruct rq; try discriminate Es.
      rewrite run_destroy. cbn [fst]. rewrite destroy_closes. cbn.
      now rewrite orb_true_r.
    + rewrite run_keeps_open; [reflexivity|].
      intros ->. discriminate Es.
Qed.

Lemma pool_after (opts : options) (w0 : world) (steps : list step) :
  pool (fst (run_all steps (AedesPersistenceMySQL opts, w0)))
  = Some (if existsb is_destroy steps then PoolEnded else PoolOpen).
Proof.
  rewrite <- (orb_false_l (existsb is_destroy steps)).
  change false with (_closed (fst (AedesPersistenceMySQL opts, w0))).
  rewrite <- closed_after.
  apply (run_all_keeps_pool_inv steps (AedesPersistenceMySQL opts, w0)).
  apply constructor_pool_inv.
Qed.

(** X17: whatever happened to an object since it was built, it is closed
    exactly when [destroy] was called on it, and its pool is ended exactly
    when it is closed: an operation that passes the gate of an object that
    was never destroyed reaches the store. *)
Theorem pool_ended_exactly_when_closed :
  forall (opts : options) (w0 : world) (steps : list step),
    let pw := run_all steps (AedesPersistenceMySQL opts, w0) in
    _closed (fst pw) = existsb is_destroy steps
    /\ pool (fst pw)
       = Some (if existsb is_destroy steps then PoolEnded else PoolOpen).
Proof.
  intros opts w0 steps pw. subst pw. split.
  - now rewrite closed_after.
  - apply pool_after.
Qed.

(** X18: every store reached from a fresh one by operations of the
    object, provisioning, time and the scheduler satisfies the constraints
    declared by [_createTables]: keys grow with the storage order, and
    there is one row per (client, topic), per retained topic, per
    (client, message id) and per client's will. *)
Theorem constraints_hold_in_reachable_stores :
  forall (opts : options) (steps : list step),
    let pw := run_all steps (AedesPersistenceMySQL opts, fresh_world) in
    well_formed (db (snd pw)).
Proof.
  intros opts steps pw. apply (reachable_well_formed opts).
  exists steps. reflexivity.
Qed.



(** X25: provisioning that resolves after [destroy] marks the destroyed
    object ready: line 57 does not look at [_closed].  The object is then
    ready and closed, its pool is ended, and an operation passes the gate
    and gets the error of the ended pool, with the store as it was. *)
Theorem provisioning_after_destroy :
  forall (opts : options) (w0 : world) (before : list step) (pkt : packet),
    provisioning w0 = None ->
    let pw := run_all (before ++ [Call Destroy; SetupCompletes])
                      (AedesPersistenceMySQL opts, w0) in
    _ready (fst pw) = true
    /\ _closed (fst pw) = true
    /\ pool (fst pw) = Some PoolEnded
    /\ storeRetained (fst pw) pkt (snd pw) = (Err pool_closed, snd pw).
Proof.
  intros opts w0 before pkt Hp pw.
  pose proof (closed_after (before ++ [Call Destroy; SetupCompletes])
                (AedesPersistenceMySQL opts, w0)) as Hc.
  pose proof (pool_after opts w0 (before ++ [Call Destroy; SetupCompletes]))
    as Hpool.
  fold pw in Hc, Hpool.
  rewrite existsb_app in Hc, Hpool. cbn in Hc, Hpool.
  rewrite orb_true_r in Hc, Hpool.
  assert (Hr : _ready (fst pw) = true).
  { subst pw. rewrite run_all_app.
    set (x := run_all before (AedesPersistenceMySQL opts, w0)).
    change (run_all [Call Destroy; SetupCompletes] x)
      with (_setup (fst (run (Call Destroy) x)) (snd (run (Call Destroy) x))).
    assert (Hx : provisioning (snd (run (Call Destroy) x)) = None).
    { rewrite (proj1 (run_keeps_answers _ _)). subst x.
      now rewrite (proj1 (run_all_keeps_answers _ _)). }
    unfold _setup, _createTables. rewrite Hx.
    destruct (subscriptions _) as [n|]; [destruct (0 <? n)|]; reflexivity. }
  repeat split; try assumption.
  unfold storeRetained, execute. now rewrite Hr, Hpool.
Qed.

Lemma provisioning_after_destroy_witness :
  let opts := default_options in
  let w0 := fresh_world in
  let before := [Tick 1] in
  let pkt := publish "a/b" "on" 1 in
  let pw := run_all (before ++ [Call Destroy; SetupCompletes])
                    (AedesPersistenceMySQL opts, w0) in
  _ready (fst pw) = true
  /\ _closed (fst pw) = true
  /\ pool (fst pw) = Some PoolEnded
  /\ storeRetained (fst pw) pkt (snd pw) = (Err pool_closed, snd pw).
Proof.
  exact (provisioning_after_destroy default_options fresh_world [Tick 1]
           (publish "a/b" "on" 1) eq_refl).
Defined.

(* ------------------------------------------------------------------ *)
(** ** Patterns over the retained store and the subscriptions *)

Lemma hash_accepts_everything (t : string) : topic_matches "#" t = Some true.
Proof.
  rewrite topic_matches_levels by reflexivity. f_equal.
  unfold filter_accepts. rewrite (levels_unfold (list_ascii_of_string t)).
  reflexivity.
Qed.

Lemma createRetainedStreamCombi_serving (p : persistence)
      (patterns : list string) (w : world) :
  serving p ->
  fst (createRetainedStreamCombi p patterns w)
  = match patterns with
    | [] => Err syntax_error
    | _ :: _ =>
        match parse_all (map sqlPattern patterns) with
        | Some res =>
            Ok (map retained_of_row
                    (filter (fun r => regexp_any res (r_topic r))
                            (rows (aedes_retained (db w)))))
        | None => Err regexp_error
        end
    end
  /\ db (snd (createRetainedStreamCombi p patterns w)) = db w
  /\ executed (snd (createRetainedStreamCombi p patterns w))
     = (executed w
          ++ [("SELECT topic, payload, qos FROM aedes_retained WHERE "
                 ++ join " OR " (map (fun _ : string => "topic REGEXP ?")
                                     patterns))%string])%list.
Proof.
  intros Hs. pose proof Hs as [Hr _].
  unfold createRetainedStreamCombi. rewrite Hr. cbn [negb].
  rewrite execute_serving by assumption.
  unfold select_retained_regexp, select_where.
  destruct patterns as [|x xs]; [cbn; auto|].
  cbn [map]. destruct (parse_all (sqlPattern x :: map sqlPattern xs));
    cbn; auto.
Qed.

(** X20: the filter [#] accepts every topic: [createRetainedStreamCombi]
    with it delivers every retained message, and [subscriptionsByTopic]
    with it returns every subscription, in the order of the store. *)
Theorem hash_selects_everything :
  forall (p : persistence) (w : world),
    serving p ->
    (forall t, topic_matches "#" t = Some true)
    /\ fst (createRetainedStreamCombi p ["#"] w)
       = Ok (map retained_of_row (rows (aedes_retained (db w))))
    /\ fst (subscriptionsByTopic p "#" w)
       = Ok (map client_subscription_of_row
                 (rows (aedes_subscriptions (db w)))).
Proof.
  intros p w Hs. pose proof Hs as [Hr _].
  split; [exact hash_accepts_everything|].
  pose proof hash_accepts_everything as Hm.
  unfold topic_matches, Regexp.regexp_like in Hm.
  destruct (Regexp.parse (sqlPattern "#")) as [re|] eqn:Ep;
    [|specialize (Hm EmptyString); discriminate].
  split.
  - destruct (createRetainedStreamCombi_serving p ["#"] w Hs) as (E & _).
    rewrite E. cbn [map parse_all]. rewrite Ep. do 2 f_equal.
    apply filter_all. intros r _. unfold regexp_any. cbn [existsb].
    specialize (Hm (r_topic r)). inversion Hm as [H1]. now rewrite H1.
  - unfold subscriptionsByTopic. rewrite Hr. cbn [negb].
    rewrite execute_serving by assumption.
    unfold select_subscriptions_regexp, select_where, then_. rewrite Ep. cbn.
    do 2 f_equal. apply filter_all. intros r _.
    specialize (Hm (s_topic r)). now inversion Hm.
Qed.

Lemma hash_selects_everything_witness :
  let p := ready_persistence in
  let w := sample_world in
  (forall t, topic_matches "#" t = Some true)
  /\ fst (createRetainedStreamCombi p ["#"] w)
     = Ok (map retained_of_row (rows (aedes_retained (db w))))
  /\ fst (subscriptionsByTopic p "#" w)
     = Ok (map client_subscription_of_row
               (rows (aedes_subscriptions (db w)))).
Proof.
  exact (hash_selects_everything ready_persistence sample_world
           ready_persistence_serving).
Defined.

Lemma parse_all_spec (pats : list string) :
  forall res,
    parse_all (map sqlPattern pats) = Some res ->
    forall t,
      regexp_any res t = true
      <-> exists pat, In pat pats /\ topic_matches pat t = Some true.
Proof.
  induction pats as [|x pats IH]; intros res H t.
  - inversion H; subst. cbn. split; [discriminate|intros (? & [] & _)].
  - cbn [map parse_all] in H.
    destruct (Regexp.parse (sqlPattern x)) as [re|] eqn:Ep; [|discriminate].
    destruct (parse_all (map sqlPattern pats)) as [res'|]; [|discriminate].
    inversion H; subst. unfold regexp_any. cbn [existsb].
    fold (regexp_any res' t).
    assert (Ex : topic_matches x t
                 = Some (Regexp.matches re (list_ascii_of_string t)))
      by (unfold topic_matches, Regexp.regexp_like; now rewrite Ep).
    rewrite orb_true_iff, (IH res' eq_refl t). split.
    + intros [Hm|(pat & Hin & Hp)].
      * exists x. split; [now left|]. now rewrite Ex, Hm.
      * exists pat. split; [now right|exact Hp].
    + intros (pat & [<-|Hin] & Hp).
      * left. rewrite Ex in Hp. now inversion Hp.
      * right. eauto.
Qed.

(** X21: when [createRetainedStreamCombi] delivers, it delivers each
    retained message whose topic is accepted by at least one of the
    patterns, and delivers it once, however many patterns accept it. *)
Theorem retained_stream_is_a_union :
  forall (p : persistence) (w : world) (patterns : list string)
         (items : list retained_packet),
    serving p ->
    well_formed (db w) ->
    fst (createRetainedStreamCombi p patterns w) = Ok items ->
    NoDup (map rp_topic items)
    /\ forall it,
         In it items
         <-> exists r pat,
               In r (rows (aedes_retained (db w)))
               /\ it = retained_of_row r
               /\ In pat patterns
               /\ topic_matches pat (r_topic r) = Some true.
Proof.
  intros p w patterns items Hs Hwf H.
  destruct (createRetainedStreamCombi_serving p patterns w Hs) as (E & _).
  rewrite E in H. destruct patterns as [|x xs]; [discriminate|].
  destruct (parse_all (map sqlPattern (x :: xs))) as [res|] eqn:Ep;
    [|discriminate].
  inversion H; subst. split.
  - rewrite map_map. cbn. apply NoDup_map_filter, Hwf.
  - intros it. rewrite in_map_iff. split.
    + intros (r & <- & Hin). apply filter_In in Hin. destruct Hin as [Hin Hm].
      apply (parse_all_spec _ _ Ep) in Hm. destruct Hm as (pat & Hp & Hm).
      exists r, pat. auto.
    + intros (r & pat & Hin & -> & Hp & Hm). exists r. split; [reflexivity|].
      apply filter_In. split; [exact Hin|].
      apply (parse_all_spec _ _ Ep). eauto.
Qed.

Lemma retained_stream_is_a_union_witness :
  let p := ready_persistence in
  let w := sample_world in
  let patterns := ["a/+"; "a/#"; "a/b"] in
  let items := [{| rp_topic := "a/b"; rp_payload := Buffer_from "on"; rp_qos := 1 |}; {| rp_topic := "a/c"; rp_payload := Buffer_from "off"; rp_qos := 0 |}] in
  NoDup (map rp_topic items)
  /\ forall it,
       In it items
       <-> exists r pat,
             In r (rows (aedes_retained (db w)))
             /\ it = retained_of_row r
             /\ In pat patterns
             /\ topic_matches pat (r_topic r) = Some true.
Proof.
  exact (retained_stream_is_a_union ready_persistence sample_world (["a/+"; "a/#"; "a/b"]) ([{| rp_topic := "a/b"; rp_payload := Buffer_from "on"; rp_qos := 1 |}; {| rp_topic := "a/c"; rp_payload := Buffer_from "off"; rp_qos := 0 |}])
           ready_persistence_serving sample_world_well_formed ltac:(vm_compute; reflexivity)).
Defined.

(** X22: for a topic of ordinary characters, the clients of the
    subscriptions that [subscriptionsByTopic] returns are the clients
    that [getClientList] names, and every subscription returned is stored
    for exactly that topic. *)
Theorem subscriptionsByTopic_agrees_with_getClientList :
  forall (p : persistence) (w : world) (T : string),
    serving p ->
    forallb ordinary (list_ascii_of_string T) = true ->
    exists subs clients,
      fst (subscriptionsByTopic p T w) = Ok subs
      /\ fst (getClientList p T w) = Ok clients
      /\ (forall s, In s subs -> cs_topic s = T)
      /\ (forall cid, In cid clients <-> In cid (map cs_clientId subs)).
Proof.
  intros p w T Hs HT. pose proof Hs as [Hr _].
  eexists. eexists.
  split; [now apply subscriptionsByTopic_ordinary|].
  split.
  { unfold getClientList. rewrite Hr. cbn [negb].
    rewrite execute_serving by assumption. reflexivity. }
  split.
  - intros s Hin. apply in_map_iff in Hin. destruct Hin as (r & <- & Hin).
    apply filter_In in Hin. destruct Hin as [_ Ht].
    apply String.eqb_eq in Ht. now cbn.
  - intros cid. unfold select_where. rewrite nodup_In, map_map. cbn.
    rewrite !in_map_iff. split; intros (r & Hc & Hin); exists r;
      (split; [exact Hc|]); apply filter_In in Hin; apply filter_In;
      destruct Hin as [Hin Ht]; (split; [exact Hin|]);
      now rewrite String.eqb_sym.
Qed.

Lemma subscriptionsByTopic_agrees_with_getClientList_witness :
  let p := ready_persistence in
  let w := sample_world in
  let T := "a/b" in
  exists subs clients,
    fst (subscriptionsByTopic p T w) = Ok subs
    /\ fst (getClientList p T w) = Ok clients
    /\ (forall s, In s subs -> cs_topic s = T)
    /\ (forall cid, In cid clients <-> In cid (map cs_clientId subs)).
Proof.
  exact (subscriptionsByTopic_agrees_with_getClientList ready_persistence sample_world "a/b"
           ready_persistence_serving ltac:(vm_compute; reflexivity)).
Defined.

(** X23: for a topic of ordinary characters the last retained message
    wins: after two [storeRetained] on the topic, the stream for the topic
    delivers the second packet and nothing else, whatever the store held
    for the topic before. *)
Theorem retained_last_write_wins :
  forall (p : persistence) (w : world) (P1 P2 : packet),
    serving p ->
    well_formed (db w) ->
    forallb ordinary (list_ascii_of_string (topic P2)) = true ->
    topic P1 = topic P2 ->
    let w1 := snd (storeRetained p P1 w) in
    let w2 := snd (storeRetained p P2 w1) in
    fst (createRetainedStreamCombi p [topic P1] w1)
    = Ok [{| rp_topic := topic P1; rp_payload := payload P1;
             rp_qos := qos P1 |}]
    /\ fst (createRetainedStreamCombi p [topic P2] w2)
       = Ok [{| rp_topic := topic P2; rp_payload := payload P2;
                rp_qos := qos P2 |}].
Proof.
  intros p w P1 P2 Hs Hwf Hord Ht w1 w2.
  assert (Hwf1 : well_formed (db w1))
    by exact (call_keeps_constraints (StoreRetained P1) p w Hwf).
  split.
  - apply (retained_round_trip_ordinary p w P1 Hs Hwf). now rewrite Ht.
  - apply (retained_round_trip_ordinary p w1 P2 Hs Hwf1 Hord).
Qed.

Lemma retained_last_write_wins_witness :
  let p := ready_persistence in
  let w := sample_world in
  let P1 := publish "a/b" "off" 0 in
  let P2 := publish "a/b" "on" 2 in
  let w1 := snd (storeRetained p P1 w) in
  let w2 := snd (storeRetained p P2 w1) in
  fst (createRetainedStreamCombi p [topic P1] w1)
  = Ok [{| rp_topic := topic P1; rp_payload := payload P1;
           rp_qos := qos P1 |}]
  /\ fst (createRetainedStreamCombi p [topic P2] w2)
     = Ok [{| rp_topic := topic P2; rp_payload := payload P2;
              rp_qos := qos P2 |}].
Proof.
  exact (retained_last_write_wins ready_persistence sample_world (publish "a/b" "off" 0) (publish "a/b" "on" 2)
           ready_persistence_serving sample_world_well_formed ltac:(vm_compute; reflexivity) eq_refl).
Defined.

(** X24: [createRetainedStreamCombi] has no guard for an empty pattern
    list: the statement is sent with nothing after [WHERE], the stream ends
    with the error of the store, and the store is unchanged. *)
Theorem retained_stream_without_patterns :
  forall (p : persistence) (w : world),
    serving p ->
    fst (createRetainedStreamCombi p [] w) = Err syntax_error
    /\ db (snd (createRetainedStreamCombi p [] w)) = db w
    /\ executed (snd (createRetainedStreamCombi p [] w))
       = (executed w
            ++ ["SELECT topic, payload, qos FROM aedes_retained WHERE "])%list.
Proof.
  intros p w Hs.
  destruct (createRetainedStreamCombi_serving p [] w Hs) as (E & Hdb & Hex).
  repeat split; assumption.
Qed.

Lemma retained_stream_without_patterns_witness :
  let p := ready_persistence in
  let w := sample_world in
  fst (createRetainedStreamCombi p [] w) = Err syntax_error
  /\ db (snd (createRetainedStreamCombi p [] w)) = db w
  /\ executed (snd (createRetainedStreamCombi p [] w))
     = (executed w
          ++ ["SELECT topic, payload, qos FROM aedes_retained WHERE "])%list.
Proof.
  exact (retained_stream_without_patterns ready_persistence sample_world
           ready_persistence_serving).
Defined.
